(** * Taiwan payroll engine: bracket lookup, insurance, overtime, aggregation

    Shallow embedding of [src/utils/taiwanLaborRules.ts] (both revisions
    found in the repository) and of the [payrolls] computation of
    [src/App.tsx].  TypeScript [number]s are IEEE 754 binary64 values; they
    are modelled bit-exactly with the reference implementation
    [SpecFloat] (mantissa/exponent pairs over [Z], round-to-nearest-even),
    so that every literal, product, sum and quotient below is the very
    double the JavaScript engine computes.  The state handlers and views of
    [src/App.tsx], the pagination of [src/components/BatchPayslipPrint.tsx],
    the overtime line of the payslip view and the employee form are embedded
    after the engine. *)

From Stdlib Require Import ZArith Lia List Bool Permutation.
From Stdlib Require Import QArith Qround Qminmax.
From Stdlib Require Import Floats.SpecFloat.
From stdpp Require Import gmap strings.

Open Scope Z_scope.

(** ** JavaScript numbers *)

Module JS.

Definition prec : Z := 53.
Definition emax : Z := 1024.

Definition number : Type := spec_float.

Definition NaN : number := S754_nan.
Definition pzero : number := S754_zero false.

(** An integer literal ([240], [45800]): exact below 2^53. *)
Definition ofZ (z : Z) : number := binary_normalize prec emax z 0 false.

Definition add : number -> number -> number := SFadd prec emax.
Definition sub : number -> number -> number := SFsub prec emax.
Definition mul : number -> number -> number := SFmul prec emax.
Definition div : number -> number -> number := SFdiv prec emax.

(** A decimal literal [n / 10^k] ([0.0517] is [dec 517 10000]): the
    double nearest to the decimal, which is what a correctly rounded
    quotient of two exactly representable integers yields. *)
Definition dec (n d : Z) : number := div (ofZ n) (ofZ d).

(** [a <= b] and [a > b]; both are [false] as soon as one side is NaN. *)
Definition le (a b : number) : bool := SFleb a b.
Definition gt (a b : number) : bool := SFltb b a.

(** [Math.min] / [Math.max]: NaN is contagious, [-0] is below [+0]. *)
Definition Math_min (x y : number) : number :=
  match SFcompare x y with
  | None => NaN
  | Some Lt => x
  | Some Gt => y
  | Some Eq =>
      match x, y with
      | S754_zero sx, S754_zero sy => S754_zero (sx || sy)
      | _, _ => x
      end
  end.

Definition Math_max (x y : number) : number :=
  match SFcompare x y with
  | None => NaN
  | Some Lt => y
  | Some Gt => x
  | Some Eq =>
      match x, y with
      | S754_zero sx, S754_zero sy => S754_zero (sx && sy)
      | _, _ => x
      end
  end.

(** The signed integer mantissa of a finite number. *)
Definition smant (s : bool) (m : positive) : Z := cond_Zopp s (Zpos m).

(** [Math.round]: nearest integer, ties towards +infinity, that is
    [floor (x + 1/2)] computed exactly; a zero result keeps the sign of
    the argument. *)
Definition Math_round (x : number) : number :=
  match x with
  | S754_finite s m e =>
      if 0 <=? e then x
      else
        let n := Z.shiftr (2 * smant s m + 2 ^ (- e)) (- e + 1) in
        if n =? 0 then S754_zero s else ofZ n
  | _ => x
  end.

(** [Math.ceil]: least integer not below the argument. *)
Definition Math_ceil (x : number) : number :=
  match x with
  | S754_finite s m e =>
      if 0 <=? e then x
      else
        let n := - Z.shiftr (- smant s m) (- e) in
        if n =? 0 then S754_zero s else ofZ n
  | _ => x
  end.

(** Finite and not negative ([-0] excluded): the documented input domain
    of every monetary amount and hour count. *)
Definition nonneg_finite (x : number) : bool :=
  match x with
  | S754_zero false => true
  | S754_finite false m e => bounded prec emax m e
  | _ => false
  end.

End JS.

Import JS.

(** ** Rate constants and bracket tables ([taiwanLaborRules.ts]) *)

Definition LABOR_INSURANCE_RATE : number := dec 125 1000.
Definition LABOR_EMPLOYEE_SHARE : number := dec 20 100.
Definition LABOR_EMPLOYER_SHARE : number := dec 70 100.

Definition HEALTH_INSURANCE_RATE : number := dec 517 10000.
Definition HEALTH_EMPLOYEE_SHARE : number := dec 30 100.
Definition HEALTH_EMPLOYER_SHARE : number := dec 60 100.
Definition AVG_DEPENDENTS_EMPLOYER : number := dec 58 100.

Definition PENSION_RATE : number := dec 6 100.

Definition LABOR_TIERS : list Z :=
  [ 11100; 12540; 13500; 15840; 16500; 17280; 17880; 19047; 20008;
    21009; 22000; 23100; 24000; 25250; 26400; 27600; 28500; 29500;
    30300; 31800; 33300; 34800; 36300; 38200; 40100; 42000; 43900; 45800 ].

Definition HEALTH_TIERS : list Z :=
  [ 28590; 28800; 30300; 31800; 33300; 34800; 36300; 38200; 40100; 42000;
    43900; 45800; 48200; 50600; 53000; 55400; 57800; 60800; 63800; 66800;
    69800; 72800; 76500; 80200; 83900; 87600; 92100; 96600; 101100; 105600;
    110100; 115500; 120500; 125500; 131700; 137900; 144100; 150000; 156400;
    162800; 169200; 175600; 182000; 189500; 197000; 204500; 212000; 219500;
    228200; 236900; 245600; 254300; 263000; 273000; 283000; 293000; 303000;
    313000 ].

Definition PENSION_TIERS : list Z :=
  [ 1500; 3000; 4500; 6000; 7500;
    8700; 9900; 11100; 12540; 13500;
    15840; 16500; 17280; 17880; 19047;
    20008; 21009; 22000; 23100; 24000;
    25250; 26400; 27600; 28590; 29500;
    30300; 31800; 33300; 34800; 36300;
    38200; 40100; 42000; 43900; 45800;
    48200; 50600; 53000; 55400; 57800;
    60800; 63800; 66800; 69800; 72800;
    76500; 80200; 83900; 87600; 92100;
    96600; 101100; 105600; 110100; 115500;
    120900; 126300; 131700; 137100; 142500;
    147900; 150000 ].

Definition LABOR_BRACKETS : list number := List.map ofZ LABOR_TIERS.
Definition HEALTH_BRACKETS : list number := List.map ofZ HEALTH_TIERS.
Definition PENSION_BRACKETS : list number := List.map ofZ PENSION_TIERS.

(** ** Bracket lookup

    The three [get...InsuredSalary] functions have the same body, over
    their own table: an early return on the first bracket, a [for ... of]
    scan returning at the first bracket not below the salary, and the last
    bracket as the cap.  Reading outside an array yields [undefined],
    which compares as NaN; the tables of the program are never empty. *)

Fixpoint scanBrackets (brackets : list number) (salary : number) : option number :=
  match brackets with
  | [] => None
  | bracket :: rest =>
      if le salary bracket then Some bracket else scanBrackets rest salary
  end.

Definition bracketOf (brackets : list number) (salary : number) : number :=
  if le salary (List.nth 0 brackets NaN) then List.nth 0 brackets NaN
  else
    match scanBrackets brackets salary with
    | Some bracket => bracket
    | None => List.last brackets NaN
    end.

Definition getLaborInsuredSalary (salary : number) : number :=
  bracketOf LABOR_BRACKETS salary.

Definition getHealthInsuredSalary (salary : number) : number :=
  bracketOf HEALTH_BRACKETS salary.

Definition getPensionInsuredSalary (salary : number) : number :=
  bracketOf PENSION_BRACKETS salary.

(** ** Insurance calculator *)

Definition calculateLaborInsurance (salary : number) : number :=
  let insuredSalary := getLaborInsuredSalary salary in
  Math_round (mul (mul insuredSalary LABOR_INSURANCE_RATE) LABOR_EMPLOYEE_SHARE).

Definition calculateHealthInsurance (salary dependents : number) : number :=
  let insuredSalary := getHealthInsuredSalary salary in
  let singleShare :=
    Math_round (mul (mul insuredSalary HEALTH_INSURANCE_RATE) HEALTH_EMPLOYEE_SHARE) in
  let chargeableCount := add (ofZ 1) (Math_min dependents (ofZ 3)) in
  mul singleShare chargeableCount.

Definition calculateLaborInsuranceEmployer (salary : number) : number :=
  let insuredSalary := getLaborInsuredSalary salary in
  Math_round (mul (mul insuredSalary LABOR_INSURANCE_RATE) LABOR_EMPLOYER_SHARE).

Definition calculateHealthInsuranceEmployer (salary : number) : number :=
  let insuredSalary := getHealthInsuredSalary salary in
  Math_round
    (mul (mul (mul insuredSalary HEALTH_INSURANCE_RATE) HEALTH_EMPLOYER_SHARE)
         (add (ofZ 1) AVG_DEPENDENTS_EMPLOYER)).

Definition calculatePension (salaryForPension : number) : number :=
  let insuredSalary := getPensionInsuredSalary salaryForPension in
  Math_round (mul insuredSalary PENSION_RATE).

(** ** Overtime calculator *)

(** [total += hourlyRate * firstTwo * (4/3); total += hourlyRate * remaining * (5/3)] *)
Definition addTieredHours (hourlyRate hours total : number) : number :=
  let firstTwo := Math_min hours (ofZ 2) in
  let remaining := Math_max (ofZ 0) (sub hours (ofZ 2)) in
  let total := add total (mul (mul hourlyRate firstTwo) (div (ofZ 4) (ofZ 3))) in
  add total (mul (mul hourlyRate remaining) (div (ofZ 5) (ofZ 3))).

Definition overtimeTotal (hourlyRate weekdayHours restDayHours holidayHours : number)
  : number :=
  let total := ofZ 0 in
  let total :=
    if gt weekdayHours (ofZ 0) then addTieredHours hourlyRate weekdayHours total
    else total in
  let total :=
    if gt restDayHours (ofZ 0) then addTieredHours hourlyRate restDayHours total
    else total in
  if gt holidayHours (ofZ 0) then
    let total := add total (mul hourlyRate (ofZ 8)) in
    if gt holidayHours (ofZ 8) then
      let extra := sub holidayHours (ofZ 8) in
      add total (mul (mul hourlyRate extra) (div (ofZ 4) (ofZ 3)))
    else total
  else total.

Definition calculateOvertimePay
    (regularSalary weekdayHours restDayHours holidayHours : number) : number :=
  let hourlyRate := div regularSalary (ofZ 240) in
  Math_ceil (overtimeTotal hourlyRate weekdayHours restDayHours holidayHours).

(** ** Data model ([types.ts]) *)

Module Allowance.
Record t := mk { id : string; name : string; amount : number }.
End Allowance.

Module Deduction.
Record t := mk { id : string; name : string; amount : number }.
End Deduction.

Module Employee.
Record t := mk {
  id : string;
  name : string;
  position : string;
  department : string;
  note : option string;
  bankName : string;
  bankAccount : string;
  baseSalary : number;
  mealAllowance : number;
  fuelAllowance : number;
  attendanceBonus : number;
  useBaseSalaryForInsurance : bool;
  otHoursWeekday : number;
  otHoursRestDay : number;
  otHoursHoliday : number;
  dependents : number;
  customAllowances : list Allowance.t;
  customDeductions : list Deduction.t;
  joinDate : string
}.
End Employee.

Record CalculatedPayroll := {
  employeeId : string;
  insuredSalary : number;
  insuredSalaryHealth : number;
  insuredSalaryPension : number;
  laborInsuranceEmp : number;
  healthInsuranceEmp : number;
  totalCustomDeductions : number;
  laborInsuranceCo : number;
  healthInsuranceCo : number;
  pensionCompany : number;
  overtimePay : number;
  grossSalary : number;
  totalDeductions : number;
  netPay : number;
  totalCompanyCost : number
}.

(** ** Payroll aggregator ([App.tsx], current revision) *)

(** [const [useBaseSalaryForPension] = useState(false)]: the setter is never
    taken, the flag keeps its initial value. *)
Definition useBaseSalaryForPension : bool := false.

(** [emp.customAllowances.reduce((s, c) => s + c.amount, 0)] *)
Definition sumAllowances (l : list Allowance.t) : number :=
  fold_left (fun s c => add s (Allowance.amount c)) l (ofZ 0).

Definition sumDeductions (l : list Deduction.t) : number :=
  fold_left (fun s d => add s (Deduction.amount d)) l (ofZ 0).

(** The body of the [employees.forEach] callback of [payrolls]. *)
Definition computePayroll (emp : Employee.t) : CalculatedPayroll :=
  let regularSalary :=
    add (add (add (Employee.baseSalary emp) (Employee.mealAllowance emp))
             (Employee.fuelAllowance emp))
        (Employee.attendanceBonus emp) in
  let overtimePay :=
    calculateOvertimePay regularSalary (Employee.otHoursWeekday emp)
      (Employee.otHoursRestDay emp) (Employee.otHoursHoliday emp) in
  let fixedMonthlyTotal :=
    add regularSalary (sumAllowances (Employee.customAllowances emp)) in
  let grossSalary := add fixedMonthlyTotal overtimePay in
  let insuranceBasisSalary :=
    if Employee.useBaseSalaryForInsurance emp then Employee.baseSalary emp
    else fixedMonthlyTotal in
  let insuredSalary := getLaborInsuredSalary insuranceBasisSalary in
  let insuredSalaryHealth := getHealthInsuredSalary insuranceBasisSalary in
  let pensionBasisSalary :=
    if useBaseSalaryForPension || Employee.useBaseSalaryForInsurance emp
    then Employee.baseSalary emp else fixedMonthlyTotal in
  let insuredSalaryPension := getPensionInsuredSalary pensionBasisSalary in
  let laborEmp := calculateLaborInsurance insuranceBasisSalary in
  let healthEmp :=
    calculateHealthInsurance insuranceBasisSalary (Employee.dependents emp) in
  let totalCustomDeductions := sumDeductions (Employee.customDeductions emp) in
  let totalDeductions := add (add laborEmp healthEmp) totalCustomDeductions in
  let laborCo := calculateLaborInsuranceEmployer insuranceBasisSalary in
  let healthCo := calculateHealthInsuranceEmployer insuranceBasisSalary in
  let pension := calculatePension pensionBasisSalary in
  let netPay := sub grossSalary totalDeductions in
  let totalCompanyCost := add (add (add netPay laborCo) healthCo) pension in
  {| employeeId := Employee.id emp;
     insuredSalary := insuredSalary;
     insuredSalaryHealth := insuredSalaryHealth;
     insuredSalaryPension := insuredSalaryPension;
     laborInsuranceEmp := laborEmp;
     healthInsuranceEmp := healthEmp;
     totalCustomDeductions := totalCustomDeductions;
     laborInsuranceCo := laborCo;
     healthInsuranceCo := healthCo;
     pensionCompany := pension;
     overtimePay := overtimePay;
     grossSalary := grossSalary;
     totalDeductions := totalDeductions;
     netPay := netPay;
     totalCompanyCost := totalCompanyCost |}.

(** [payrolls]: a [Map] filled by [map.set(emp.id, ...)] in list order, so a
    later record with the same id replaces the earlier entry.  The map is
    kept up to its lookups (a [Map]'s iteration order is not modelled). *)
Definition payrolls (employees : list Employee.t) : gmap string CalculatedPayroll :=
  fold_left (fun map emp => <[Employee.id emp := computePayroll emp]> map)
            employees ∅.

(** ** The earlier revision kept in the repository

    [src/utils/taiwanLaborRules.ts] has no pension table and looks the
    pension basis up in the labor table; the second [App] of
    [src/App.tsx] charges the gross salary to the company cost and fills no
    [insuredSalaryPension]. *)

Module Legacy.

Definition calculatePension (salary : number) : number :=
  let insuredSalary := getLaborInsuredSalary salary in
  Math_round (mul insuredSalary PENSION_RATE).

Record CalculatedPayroll := {
  employeeId : string;
  insuredSalary : number;
  insuredSalaryHealth : number;
  laborInsuranceEmp : number;
  healthInsuranceEmp : number;
  totalCustomDeductions : number;
  laborInsuranceCo : number;
  healthInsuranceCo : number;
  pensionCompany : number;
  overtimePay : number;
  grossSalary : number;
  totalDeductions : number;
  netPay : number;
  totalCompanyCost : number
}.

Definition computePayroll (emp : Employee.t) : CalculatedPayroll :=
  let regularSalary :=
    add (add (add (Employee.baseSalary emp) (Employee.mealAllowance emp))
             (Employee.fuelAllowance emp))
        (Employee.attendanceBonus emp) in
  let overtimePay :=
    calculateOvertimePay regularSalary (Employee.otHoursWeekday emp)
      (Employee.otHoursRestDay emp) (Employee.otHoursHoliday emp) in
  let fixedMonthlyTotal :=
    add regularSalary (sumAllowances (Employee.customAllowances emp)) in
  let grossSalary := add fixedMonthlyTotal overtimePay in
  let insuranceBasisSalary :=
    if Employee.useBaseSalaryForInsurance emp then Employee.baseSalary emp
    else fixedMonthlyTotal in
  let insuredSalary := getLaborInsuredSalary insuranceBasisSalary in
  let insuredSalaryHealth := getHealthInsuredSalary insuranceBasisSalary in
  let laborEmp := calculateLaborInsurance insuranceBasisSalary in
  let healthEmp :=
    calculateHealthInsurance insuranceBasisSalary (Employee.dependents emp) in
  let totalCustomDeductions := sumDeductions (Employee.customDeductions emp) in
  let totalDeductions := add (add laborEmp healthEmp) totalCustomDeductions in
  let laborCo := calculateLaborInsuranceEmployer insuranceBasisSalary in
  let healthCo := calculateHealthInsuranceEmployer insuranceBasisSalary in
  let pension := calculatePension insuranceBasisSalary in
  let netPay := sub grossSalary totalDeductions in
  let totalCompanyCost := add (add (add grossSalary laborCo) healthCo) pension in
  {| employeeId := Employee.id emp;
     insuredSalary := insuredSalary;
     insuredSalaryHealth := insuredSalaryHealth;
     laborInsuranceEmp := laborEmp;
     healthInsuranceEmp := healthEmp;
     totalCustomDeductions := totalCustomDeductions;
     laborInsuranceCo := laborCo;
     healthInsuranceCo := healthCo;
     pensionCompany := pension;
     overtimePay := overtimePay;
     grossSalary := grossSalary;
     totalDeductions := totalDeductions;
     netPay := netPay;
     totalCompanyCost := totalCompanyCost |}.

End Legacy.

(** The sample record of [initialEmployees]. *)
Definition sampleEmployee : Employee.t :=
  {| Employee.id := "1";
     Employee.name := "範例員工-王小明";
     Employee.position := "資深工程師";
     Employee.department := "研發部";
     Employee.note := Some "";
     Employee.bankName := "中國信託";
     Employee.bankAccount := "1234-5678-0000";
     Employee.baseSalary := ofZ 60000;
     Employee.mealAllowance := ofZ 3000;
     Employee.fuelAllowance := ofZ 1000;
     Employee.attendanceBonus := ofZ 2000;
     Employee.useBaseSalaryForInsurance := false;
     Employee.otHoursWeekday := ofZ 3;
     Employee.otHoursRestDay := ofZ 0;
     Employee.otHoursHoliday := ofZ 0;
     Employee.dependents := ofZ 0;
     Employee.customAllowances :=
       [ {| Allowance.id := "a1"; Allowance.name := "專案獎金";
            Allowance.amount := ofZ 5000 |} ];
     Employee.customDeductions := [];
     Employee.joinDate := "2023-01-15" |}.

(** * Contracts and auxiliary definitions *)

(** ** The contracts of the specification, in its own words *)

(** [lookupTier]: the first bracket when the reference salary is not above
    it, otherwise the first tier not below the reference salary, otherwise
    the last tier. *)
Definition lookupTier (table : list number) (referenceSalary : number) : number :=
  match table with
  | [] => NaN
  | first :: _ =>
      if le referenceSalary first then first
      else
        match List.find (fun tier => le referenceSalary tier) table with
        | Some tier => tier
        | None => List.last table first
        end
  end.

(** [round] on exact decimals: [roundHalfUp n d] is the integer nearest to
    [n / d], halves going up. *)
Definition roundHalfUp (n d : Z) : Z := (2 * n + d) / (2 * d).

(** Each later tier is strictly above each earlier one. *)
Fixpoint ascending (table : list number) : bool :=
  match table with
  | [] => true
  | tier :: rest => forallb (fun later => SFltb tier later) rest && ascending rest
  end.

(** The rational a finite binary64 number stands for. *)
Definition toQ (x : number) : Q :=
  match x with
  | S754_finite s m e => (inject_Z (smant s m) * Qpower 2 e)%Q
  | _ => 0%Q
  end.

(** The overtime contract over exact rationals: the hourly rate is not
    rounded, and the ceiling of the grand total is the only rounding. *)
Module Exact.

Definition tieredPay (rate hours : Q) : Q :=
  (rate * Qmin hours 2 * (4 # 3) + rate * Qmax 0 (hours - 2) * (5 # 3))%Q.

Definition holidayPay (rate hours : Q) : Q :=
  if Qlt_le_dec 0 hours then
    (rate * 8 + (if Qlt_le_dec 8 hours then rate * (hours - 8) * (4 # 3) else 0))%Q
  else 0%Q.

Definition overtimeTotal (regularSalary weekdayHours restDayHours holidayHours : Q) : Q :=
  let rate := (regularSalary / 240)%Q in
  (tieredPay rate weekdayHours + tieredPay rate restDayHours
   + holidayPay rate holidayHours)%Q.

Definition computeOvertimePay
    (regularSalary weekdayHours restDayHours holidayHours : Q) : Z :=
  Qceiling (overtimeTotal regularSalary weekdayHours restDayHours holidayHours).

End Exact.

(** ** Definitions used to state and check the claims *)

(** Equality of numbers is decidable: it is equality of sign, mantissa and
    exponent. *)
#[global] Instance number_eq_dec : EqDecision spec_float.
Proof. solve_decision. Defined.

(** On a pension tier, the double computation of the contribution is the
    exact decimal rounding of 6% of the tier. *)
Definition pensionTierOk (t : Z) : bool :=
  bool_decide (Math_round (mul (ofZ t) PENSION_RATE) = ofZ (roundHalfUp (6 * t) 100)).

(** The single-person health share of a tier on exact decimals, and the
    check that the double computation agrees with it for 0 to 3
    dependents. *)
Definition healthSingleShare (t : Z) : Z := roundHalfUp (t * 517 * 30) 1000000.

Definition healthTierOk (t : Z) : bool :=
  forallb (fun n =>
    bool_decide (mul (Math_round (mul (mul (ofZ t) HEALTH_INSURANCE_RATE)
                                      HEALTH_EMPLOYEE_SHARE))
                     (add (ofZ 1) (Math_min (ofZ n) (ofZ 3)))
                 = ofZ (healthSingleShare t * (1 + n))))
    [0; 1; 2; 3].

(** The fields the engine reads. *)
Definition sameInputs (a b : Employee.t) : Prop :=
  Employee.baseSalary a = Employee.baseSalary b
  /\ Employee.mealAllowance a = Employee.mealAllowance b
  /\ Employee.fuelAllowance a = Employee.fuelAllowance b
  /\ Employee.attendanceBonus a = Employee.attendanceBonus b
  /\ Employee.useBaseSalaryForInsurance a = Employee.useBaseSalaryForInsurance b
  /\ Employee.otHoursWeekday a = Employee.otHoursWeekday b
  /\ Employee.otHoursRestDay a = Employee.otHoursRestDay b
  /\ Employee.otHoursHoliday a = Employee.otHoursHoliday b
  /\ Employee.dependents a = Employee.dependents b
  /\ List.map Allowance.amount (Employee.customAllowances a)
     = List.map Allowance.amount (Employee.customAllowances b)
  /\ List.map Deduction.amount (Employee.customDeductions a)
     = List.map Deduction.amount (Employee.customDeductions b).

(** Everything but the employee id is computed from the engine inputs. *)
Definition payrollFigures (p : CalculatedPayroll) : list number :=
  [ insuredSalary p; insuredSalaryHealth p; insuredSalaryPension p;
    laborInsuranceEmp p; healthInsuranceEmp p; totalCustomDeductions p;
    laborInsuranceCo p; healthInsuranceCo p; pensionCompany p;
    overtimePay p; grossSalary p; totalDeductions p; netPay p;
    totalCompanyCost p ].

(** The two guarded blocks of [calculateOvertimePay]. *)
Definition tieredStep (hourlyRate hours total : number) : number :=
  if gt hours (ofZ 0) then addTieredHours hourlyRate hours total else total.

Definition holidayStep (hourlyRate holidayHours total : number) : number :=
  if gt holidayHours (ofZ 0) then
    let total := add total (mul hourlyRate (ofZ 8)) in
    if gt holidayHours (ofZ 8) then
      let extra := sub holidayHours (ofZ 8) in
      add total (mul (mul hourlyRate extra) (div (ofZ 4) (ofZ 3)))
    else total
  else total.

(** One step of the [forEach] loop of [payrolls]. *)
Definition setPayroll (map : gmap string CalculatedPayroll) (emp : Employee.t)
  : gmap string CalculatedPayroll :=
  <[Employee.id emp := computePayroll emp]> map.

(** A second record, and a record reusing the id of the sample record. *)
Definition otherEmployee : Employee.t :=
  {| Employee.id := "2";
     Employee.name := "Lin";
     Employee.position := "Clerk";
     Employee.department := "Sales";
     Employee.note := None;
     Employee.bankName := "CTBC";
     Employee.bankAccount := "0000-0000-0001";
     Employee.baseSalary := ofZ 30000;
     Employee.mealAllowance := ofZ 0;
     Employee.fuelAllowance := ofZ 0;
     Employee.attendanceBonus := ofZ 0;
     Employee.useBaseSalaryForInsurance := true;
     Employee.otHoursWeekday := ofZ 13;
     Employee.otHoursRestDay := ofZ 0;
     Employee.otHoursHoliday := ofZ 0;
     Employee.dependents := ofZ 2;
     Employee.customAllowances := [];
     Employee.customDeductions := [];
     Employee.joinDate := "2024-03-01" |}.

Definition clashingEmployee : Employee.t :=
  {| Employee.id := "1";
     Employee.name := "Lin";
     Employee.position := "Clerk";
     Employee.department := "Sales";
     Employee.note := None;
     Employee.bankName := "CTBC";
     Employee.bankAccount := "0000-0000-0001";
     Employee.baseSalary := ofZ 30000;
     Employee.mealAllowance := ofZ 0;
     Employee.fuelAllowance := ofZ 0;
     Employee.attendanceBonus := ofZ 0;
     Employee.useBaseSalaryForInsurance := true;
     Employee.otHoursWeekday := ofZ 13;
     Employee.otHoursRestDay := ofZ 0;
     Employee.otHoursHoliday := ofZ 0;
     Employee.dependents := ofZ 2;
     Employee.customAllowances := [];
     Employee.customDeductions := [];
     Employee.joinDate := "2024-03-01" |}.

(** ** Binary64 rounding, over integers

    What the theory of the arithmetic below is stated with: the rounding of
    a quotient by a power of two, the exponent and the packing of a rounded
    result, and the order key of a number. *)

(** Rounding [m / 2^n] to the nearest integer, ties to even. *)
Definition rne (m n : Z) : Z :=
  let q := m / 2 ^ n in
  match 2 * (m mod 2 ^ n) ?= 2 ^ n with
  | Lt => q
  | Eq => if Z.even q then q else q + 1
  | Gt => q + 1
  end.

(** The position of a remainder of a division by [2^n] against one half. *)
Definition loc_of_rem (rem n : Z) : location :=
  if rem =? 0 then loc_Exact else loc_Inexact (2 * rem ?= 2 ^ n).

(** The invariant of the right-shift loop after [k] steps on [m0]. *)
Definition shr_inv (m0 k : Z) (mrs : shr_record) : Prop :=
  shr_m mrs = m0 / 2 ^ k
  /\ loc_of_shr_record mrs = loc_of_rem (m0 mod 2 ^ k) k.

(** The exponent of the result, from the magnitude [digits + exponent]. *)
Definition fexp64 (mu : Z) : Z := Z.max (mu - 53) (-1074).

(** Packing a rounded mantissa: the carry into the next binade and the
    overflow to infinity. *)
Definition pack (s : bool) (mr E : Z) : spec_float :=
  match mr with
  | Z0 => S754_zero s
  | Zpos p =>
      if mr =? 9007199254740992 then
        if E + 1 <=? 971 then S754_finite s 4503599627370496 (E + 1)
        else S754_infinity s
      else if E <=? 971 then S754_finite s p E else S754_infinity s
  | Zneg _ => S754_nan
  end.

(** The rounded mantissa of [m * 2^e] at the exponent its magnitude calls
    for. *)
Definition rmant (m e : Z) : Z :=
  let E := fexp64 (Zdigits2 m + e) in
  if E <? e then m * 2 ^ (e - E) else rne m (E - e).

(** A mantissa and exponent that [pack] turns into a canonical number. *)
Definition packable (mr E : Z) : Prop :=
  -1074 <= E /\ 0 <= mr <= 2 ^ 53 /\ (mr = 0 \/ 2 ^ 52 <= mr \/ E = -1074).

(** The key domain: [+0], [+infinity] and the canonical positive finite
    numbers. *)
Definition nnv (x : number) : bool :=
  match x with
  | S754_zero false => true
  | S754_infinity false => true
  | S754_finite false m e => bounded prec emax m e
  | _ => false
  end.

(** The key of a number of that domain: its value in units of [2^-1074],
    and [2^2098] for infinity. *)
Definition key (x : number) : Z :=
  match x with
  | S754_finite false m e => Zpos m * 2 ^ (e + 1074)
  | S754_infinity false => 2 ^ 2098
  | _ => 0
  end.

(** Rounding as a function of the exact value: [G V] is the key of the
    binary64 number nearest to [V * 2^-2148]. *)
Definition G (V : Z) : Z :=
  let E := fexp64 (Zdigits2 V - 2148) in
  Z.min (rne V (E + 2148) * 2 ^ (E + 1074)) (2 ^ 2098).

(** Division rounding up. *)
Definition cdiv (a b : Z) : Z := - ((- a) / b).

(** [below x y]: both are in the key domain and [x] is not above [y]. *)
Definition below (x y : number) : Prop :=
  nnv x = true /\ nnv y = true /\ key x <= key y.

(** * The rest of the application

    The premium rows of the reference tables, the overtime descriptions, the
    state of [App] with its handlers and views, the batch print, the cloud
    load and the employee form. *)

(** A whole amount read back from a number: [Some n] when the number is the
    integer [n]. *)
Definition wholeAmount (x : number) : option Z :=
  match x with
  | S754_zero _ => Some 0
  | S754_finite s m e =>
      if 0 <=? e then Some (smant s m * 2 ^ e)
      else if Zpos m mod 2 ^ (- e) =? 0 then Some (smant s m / 2 ^ (- e))
      else None
  | _ => None
  end.

(** [f] of a tier is the whole amount [n] with [lo <= n <= hi]. *)
Definition wholeWithin (f : number -> number) (lo hi : Z) (t : Z) : bool :=
  match wholeAmount (f (ofZ t)) with
  | Some n => (lo <=? n) && (n <=? hi) && bool_decide (f (ofZ t) = ofZ n)
  | None => false
  end.

(** Every tier compares as equal to itself: none is NaN. *)
Definition reflexive (table : list number) : bool := forallb (fun t => le t t) table.

(** Each value is a number not above the later ones. *)
Fixpoint nondecreasing (values : list number) : bool :=
  match values with
  | [] => true
  | v :: rest => le v v && forallb (fun later => le v later) rest && nondecreasing rest
  end.

(** The premium of a bracket, as each calculator computes it from the insured
    salary. *)
Definition laborShare (insuredSalary : number) : number :=
  Math_round (mul (mul insuredSalary LABOR_INSURANCE_RATE) LABOR_EMPLOYEE_SHARE).
Definition laborShareEmployer (insuredSalary : number) : number :=
  Math_round (mul (mul insuredSalary LABOR_INSURANCE_RATE) LABOR_EMPLOYER_SHARE).
Definition healthShare (insuredSalary : number) : number :=
  Math_round (mul (mul insuredSalary HEALTH_INSURANCE_RATE) HEALTH_EMPLOYEE_SHARE).
Definition healthShareEmployer (insuredSalary : number) : number :=
  Math_round
    (mul (mul (mul insuredSalary HEALTH_INSURANCE_RATE) HEALTH_EMPLOYER_SHARE)
         (add (ofZ 1) AVG_DEPENDENTS_EMPLOYER)).
Definition pensionShare (insuredSalary : number) : number :=
  Math_round (mul insuredSalary PENSION_RATE).

(** ** Overtime descriptions ([getOvertimeBreakdownText], [PayslipView])

    Template literals convert numbers with [Number::toString]; the texts
    below take that conversion as the parameter [toString].  Strings are
    sequences of UTF-8 bytes. *)

(** [parts.join(sep)] *)
Fixpoint join (sep : string) (parts : list string) : string :=
  match parts with
  | [] => ""
  | [part] => part
  | part :: rest => part +:+ sep +:+ join sep rest
  end.

(** The bracketed text of a weekday or rest-day block. *)
Definition tieredBreakdown (toString : number -> string) (hours : number) : string :=
  let f := Math_min hours (ofZ 2) in
  let r := Math_max (ofZ 0) (sub hours (ofZ 2)) in
  let breakdown := "2h×1.33" in
  if gt r (ofZ 0) then breakdown +:+ " + " +:+ toString r +:+ "h×1.66"
  else toString f +:+ "h×1.33".

Definition overtimeParts (toString : number -> string) (emp : Employee.t) : list string :=
  let parts := [] in
  let parts :=
    if gt (Employee.otHoursWeekday emp) (ofZ 0) then
      parts ++ ["平日" +:+ toString (Employee.otHoursWeekday emp) +:+ "h["
                +:+ tieredBreakdown toString (Employee.otHoursWeekday emp) +:+ "]"]
    else parts in
  let parts :=
    if gt (Employee.otHoursRestDay emp) (ofZ 0) then
      parts ++ ["休" +:+ toString (Employee.otHoursRestDay emp) +:+ "h["
                +:+ tieredBreakdown toString (Employee.otHoursRestDay emp) +:+ "]"]
    else parts in
  if gt (Employee.otHoursHoliday emp) (ofZ 0) then
    let breakdown :=
      if le (Employee.otHoursHoliday emp) (ofZ 8) then "加發一日"
      else "加發一日+" +:+ toString (sub (Employee.otHoursHoliday emp) (ofZ 8))
           +:+ "h×1.33" in
    parts ++ ["假" +:+ toString (Employee.otHoursHoliday emp) +:+ "h["
              +:+ breakdown +:+ "]"]
  else parts.

Definition getOvertimeBreakdownText (toString : number -> string) (emp : Employee.t)
  : string :=
  let parts := overtimeParts toString emp in
  if (length parts =? 0)%nat then "-" else join ", " parts.




(** ** Application state and its handlers ([App.tsx]) *)

(** [TabView] and [CompanySettings] of [types.ts]. *)
Inductive TabView := DASHBOARD | EMPLOYEES | PAYSLIP.

Module CompanySettings.
Record t := mk { name : string; address : string; googleSheetScriptUrl : option string }.
End CompanySettings.

(** The [useState] cells the handlers read or write. *)
Module State.
Record t := mk {
  activeTab : TabView;
  employees : list Employee.t;
  companySettings : CompanySettings.t;
  selectedEmployeeId : option string;
  isEditing : bool;
  searchQuery : string;
  deleteConfirmId : option string
}.
End State.

(** A string in a condition: the empty string is falsy. *)
Definition truthy (s : string) : bool := negb (bool_decide (s = "")).

(** [s.includes(search)]: [search] occurs in [s] at some position. *)
Fixpoint includes (s search : string) : bool :=
  String.prefix search s
  || match s with
     | EmptyString => false
     | String _ rest => includes rest search
     end.

(** [employees.filter(e => e.name.includes(searchQuery) ||
    e.department.includes(searchQuery))] *)
Definition filteredEmployees (st : State.t) : list Employee.t :=
  List.filter
    (fun e => includes (Employee.name e) (State.searchQuery st)
              || includes (Employee.department e) (State.searchQuery st))
    (State.employees st).

(** [selectedEmployeeId ? employees.find(e => e.id === selectedEmployeeId) : null];
    [null] and [undefined] are both [None]. *)
Definition currentEmployee (st : State.t) : option Employee.t :=
  match State.selectedEmployeeId st with
  | Some selected =>
      if truthy selected then
        List.find (fun e => bool_decide (Employee.id e = selected)) (State.employees st)
      else None
  | None => None
  end.

Definition currentPayroll (st : State.t) : option CalculatedPayroll :=
  match State.selectedEmployeeId st with
  | Some selected =>
      if truthy selected then payrolls (State.employees st) !! selected else None
  | None => None
  end.

(** The list handed to [BatchPayslipPrint]:
    [filteredEmployees.length > 0 ? filteredEmployees : employees]. *)
Definition printedEmployees (st : State.t) : list Employee.t :=
  if (0 <? length (filteredEmployees st))%nat then filteredEmployees st
  else State.employees st.

(** [handleSaveEmployee]: the next state and the arguments of the call of
    [syncToCloud] it ends with. *)
Definition handleSaveEmployee (st : State.t) (emp : Employee.t)
  : State.t * (list Employee.t * CompanySettings.t) :=
  let newEmployees :=
    match List.find (fun e => bool_decide (Employee.id e = Employee.id emp))
                    (State.employees st) with
    | Some _ =>
        List.map (fun e => if bool_decide (Employee.id e = Employee.id emp) then emp else e)
                 (State.employees st)
    | None => State.employees st ++ [emp]
    end in
  ({| State.activeTab :=
        match State.activeTab st with DASHBOARD => EMPLOYEES | tab => tab end;
      State.employees := newEmployees;
      State.companySettings := State.companySettings st;
      State.selectedEmployeeId := Some (Employee.id emp);
      State.isEditing := false;
      State.searchQuery := State.searchQuery st;
      State.deleteConfirmId := State.deleteConfirmId st |},
   (newEmployees, State.companySettings st)).

(** [handleDelete] *)
Definition handleDelete (st : State.t) (id : string)
  : State.t * (list Employee.t * CompanySettings.t) :=
  let newEmployees :=
    List.filter (fun e => negb (bool_decide (Employee.id e = id))) (State.employees st) in
  ({| State.activeTab := State.activeTab st;
      State.employees := newEmployees;
      State.companySettings := State.companySettings st;
      State.selectedEmployeeId :=
        if bool_decide (State.selectedEmployeeId st = Some id) then None
        else State.selectedEmployeeId st;
      State.isEditing := State.isEditing st;
      State.searchQuery := State.searchQuery st;
      State.deleteConfirmId := None |},
   (newEmployees, State.companySettings st)).

(** [allCustomAllowanceNames] / [allCustomDeductionNames]: a [Set] keeps its
    elements in the order of their first insertion; [names.add] of a name
    already present changes nothing. *)
Definition setAdd (names : list string) (name : string) : list string :=
  if existsb (fun n => bool_decide (n = name)) names then names else names ++ [name].

Definition allCustomAllowanceNames (employees : list Employee.t) : list string :=
  fold_left
    (fun names e =>
       fold_left (fun names a => setAdd names (Allowance.name a))
                 (Employee.customAllowances e) names)
    employees [].

Definition allCustomDeductionNames (employees : list Employee.t) : list string :=
  fold_left
    (fun names e =>
       fold_left (fun names d => setAdd names (Deduction.name d))
                 (Employee.customDeductions e) names)
    employees [].

(** ** Batch print pagination ([BatchPayslipPrint.tsx])

    Array lengths and indices are whole numbers; they are kept as [nat].
    On such a length the quotient by 4 is exact and [Math.ceil] of it is the
    quotient rounded up. *)

(** [Math.ceil(n / d)] on whole numbers. *)
Definition ceilDiv (n d : nat) : nat :=
  (n / d + (if n mod d =? 0 then 0 else 1))%nat.

(** [array.slice(start, end)] for [0 <= start <= end]; the part beyond the
    array is left out. *)
Definition slice {A} (start end_ : nat) (array : list A) : list A :=
  firstn (end_ - start) (skipn start array).

(** [Array.from({ length: Math.ceil(employees.length / 4) }).map((_, pageIndex) =>
    employees.slice(pageIndex * 4, (pageIndex + 1) * 4))] *)
Definition pages (employees : list Employee.t) : list (list Employee.t) :=
  List.map (fun pageIndex => slice (pageIndex * 4) ((pageIndex + 1) * 4) employees)
           (seq 0 (ceilDiv (length employees) 4)).

(** The empty cells closing a page: [Array.from({ length: 4 - pageEmployees.length })]. *)
Definition emptyCells (pageEmployees : list Employee.t) : nat :=
  (4 - length pageEmployees)%nat.

(** ** Cloud address check ([validateUrl]) *)

(** [s.endsWith(search)] *)
Definition endsWith (s search : string) : bool :=
  let len := String.length s in
  let searchLength := String.length search in
  if (len <? searchLength)%nat then false
  else bool_decide (String.substring (len - searchLength) searchLength s = search).

Definition validateUrl (url : string) : bool :=
  if negb (truthy url) then false
  else if negb (includes url "script.google.com") then false
  else if negb (endsWith url "/exec") then false
  else true.

(** ** Cloud load ([syncFromCloud])

    The answer of the network is a parameter: [fetch] may reject, the
    response may be not [ok], reading its JSON may fail, and the data read
    carry a status and possibly an array of employees.  The call returns the
    next state, the next sync cells and the addresses it sent a request to;
    [now] is [new Date().toLocaleTimeString()]. *)

Module Sync.
Record t := mk { isSyncing : bool; lastSyncTime : string; syncError : option string }.
End Sync.

Module CloudData.
Record t := mk {
  status : option string;
  employees : option (list Employee.t);
  message : option string
}.
End CloudData.

Inductive FetchResult :=
| FetchRejected
| Response (ok : bool) (json : option CloudData.t).

Definition setEmployees (st : State.t) (employees : list Employee.t) : State.t :=
  {| State.activeTab := State.activeTab st;
     State.employees := employees;
     State.companySettings := State.companySettings st;
     State.selectedEmployeeId := State.selectedEmployeeId st;
     State.isEditing := State.isEditing st;
     State.searchQuery := State.searchQuery st;
     State.deleteConfirmId := State.deleteConfirmId st |}.

Definition syncFromCloud (now : string) (fetch : string -> FetchResult)
    (st : State.t) (sync : Sync.t) : State.t * Sync.t * list string :=
  match CompanySettings.googleSheetScriptUrl (State.companySettings st) with
  | None => (st, sync, [])
  | Some url =>
      if negb (truthy url) then (st, sync, [])
      else if negb (validateUrl url) then
        (st,
         {| Sync.isSyncing := Sync.isSyncing sync;
            Sync.lastSyncTime := Sync.lastSyncTime sync;
            Sync.syncError := Some "網址錯誤：請確認網址結尾為 /exec" |},
         [])
      else
        let failed :=
          (st,
           {| Sync.isSyncing := false;
              Sync.lastSyncTime := Sync.lastSyncTime sync;
              Sync.syncError := Some "讀取失敗：請檢查權限是否設為「所有人」" |},
           [url]) in
        match fetch url with
        | FetchRejected => failed
        | Response ok json =>
            if negb ok then failed
            else
              match json with
              | None => failed
              | Some data =>
                  if bool_decide (CloudData.status data = Some "success") then
                    match CloudData.employees data with
                    | Some employees =>
                        (setEmployees st employees,
                         {| Sync.isSyncing := false;
                            Sync.lastSyncTime := now;
                            Sync.syncError := None |},
                         [url])
                    | None =>
                        (st,
                         {| Sync.isSyncing := false;
                            Sync.lastSyncTime := Sync.lastSyncTime sync;
                            Sync.syncError := None |},
                         [url])
                    end
                  else failed
              end
        end
  end.

(** ** Cloud save ([syncToCloud])

    The request carries [JSON.stringify({ employees, settings })]; the result
    lists each request sent as the address with the two values serialised.
    The response is not tested for [ok] here: only the status of its data
    counts. *)


(** ** Employee form ([EmployeeForm.tsx])

    [parseInt] and [parseFloat] are parameters of the definitions below: the
    form only relies on their results being numbers. [Date.now().toString()]
    is the parameter [now]. *)

(** A number in a condition: zeros and NaN are falsy. *)
Definition truthyNumber (x : number) : bool :=
  match x with
  | S754_zero _ | S754_nan => false
  | _ => true
  end.

(** [x || 0] *)
Definition orZero (x : number) : number := if truthyNumber x then x else ofZ 0.

Module Form.
Record t := mk {
  initialData : option Employee.t;
  name : string;
  department : string;
  position : string;
  joinDate : string;
  dependents : string;
  bankName : string;
  bankAccount : string;
  baseSalary : string;
  mealAllowance : string;
  fuelAllowance : string;
  attendanceBonus : string;
  useBaseSalaryForInsurance : bool;
  otWeekday : string;
  otRestDay : string;
  otHoliday : string;
  customAllowances : list Allowance.t;
  customDeductions : list Deduction.t
}.
End Form.

(** The field written by [updateAllowance(id, field, value)]. *)
Inductive AllowanceField :=
| SetId (value : string)
| SetName (value : string)
| SetAmount (value : number).

Definition addAllowance (now : string) (customAllowances : list Allowance.t)
  : list Allowance.t :=
  customAllowances
  ++ [{| Allowance.id := now; Allowance.name := ""; Allowance.amount := ofZ 0 |}].

Definition updateAllowance (id : string) (field : AllowanceField)
    (customAllowances : list Allowance.t) : list Allowance.t :=
  List.map
    (fun a =>
       if bool_decide (Allowance.id a = id) then
         match field with
         | SetId value =>
             {| Allowance.id := value; Allowance.name := Allowance.name a;
                Allowance.amount := Allowance.amount a |}
         | SetName value =>
             {| Allowance.id := Allowance.id a; Allowance.name := value;
                Allowance.amount := Allowance.amount a |}
         | SetAmount value =>
             {| Allowance.id := Allowance.id a; Allowance.name := Allowance.name a;
                Allowance.amount := value |}
         end
       else a)
    customAllowances.

Definition removeAllowance (id : string) (customAllowances : list Allowance.t)
  : list Allowance.t :=
  List.filter (fun a => negb (bool_decide (Allowance.id a = id))) customAllowances.

(** The preview of the overtime pay shown while the form is edited. *)
Definition previewOT (parseInt parseFloat : string -> number) (form : Form.t) : number :=
  let base := orZero (parseInt (Form.baseSalary form)) in
  let meal := orZero (parseInt (Form.mealAllowance form)) in
  let fuel := orZero (parseInt (Form.fuelAllowance form)) in
  let bonus := orZero (parseInt (Form.attendanceBonus form)) in
  let totalRegular := add (add (add base meal) fuel) bonus in
  let wd := orZero (parseFloat (Form.otWeekday form)) in
  let rd := orZero (parseFloat (Form.otRestDay form)) in
  let hd := orZero (parseFloat (Form.otHoliday form)) in
  calculateOvertimePay totalRegular wd rd hd.

(** [handleSubmit]: the record passed to [onSave]. *)
Definition handleSubmit (parseInt parseFloat : string -> number) (now : string)
    (form : Form.t) : Employee.t :=
  {| Employee.id :=
       match Form.initialData form with
       | Some initial => if truthy (Employee.id initial) then Employee.id initial else now
       | None => now
       end;
     Employee.name := Form.name form;
     Employee.position := Form.position form;
     Employee.department := Form.department form;
     Employee.note := None;
     Employee.bankName := Form.bankName form;
     Employee.bankAccount := Form.bankAccount form;
     Employee.baseSalary := orZero (parseInt (Form.baseSalary form));
     Employee.mealAllowance := orZero (parseInt (Form.mealAllowance form));
     Employee.fuelAllowance := orZero (parseInt (Form.fuelAllowance form));
     Employee.attendanceBonus := orZero (parseInt (Form.attendanceBonus form));
     Employee.useBaseSalaryForInsurance := Form.useBaseSalaryForInsurance form;
     Employee.otHoursWeekday := orZero (parseFloat (Form.otWeekday form));
     Employee.otHoursRestDay := orZero (parseFloat (Form.otRestDay form));
     Employee.otHoursHoliday := orZero (parseFloat (Form.otHoliday form));
     Employee.dependents := orZero (parseInt (Form.dependents form));
     Employee.customAllowances :=
       List.filter (fun a => truthy (Allowance.name a) && truthyNumber (Allowance.amount a))
                   (Form.customAllowances form);
     Employee.customDeductions :=
       List.filter (fun d => truthy (Deduction.name d) && truthyNumber (Deduction.amount d))
                   (Form.customDeductions form);
     Employee.joinDate := Form.joinDate form |}.

(** ** Hour options of the form ([generateHourOptions])

    [for (let i = 0; i <= maxHours; i += 0.5) options.push(i)]: the loop is run
    with a bound on its number of tests, [None] standing for a loop still
    running when the bound is reached. *)

Fixpoint hourOptionsFrom (fuel : nat) (i maxHours : number) : option (list number) :=
  match fuel with
  | O => None
  | S fuel =>
      if le i maxHours then
        option_map (cons i) (hourOptionsFrom fuel (add i (dec 5 10)) maxHours)
      else Some []
  end.

Definition generateHourOptions (fuel : nat) (maxHours : number) : option (list number) :=
  hourOptionsFrom fuel (ofZ 0) maxHours.

(** The number [k / 2]. *)
Definition halves (k : Z) : number := binary_normalize prec emax k (-1) false.

(** ** The payroll map with its iteration order

    [Array.from(payrolls.values())] lists the values in the order in which
    their keys were first set; [map.set] on a key already present replaces
    the value where it stands. *)

Fixpoint mapSet (entries : list (string * CalculatedPayroll)) (key : string)
    (value : CalculatedPayroll) : list (string * CalculatedPayroll) :=
  match entries with
  | [] => [(key, value)]
  | (k, v) :: rest =>
      if bool_decide (k = key) then (key, value) :: rest
      else (k, v) :: mapSet rest key value
  end.

Definition payrollEntries (employees : list Employee.t)
  : list (string * CalculatedPayroll) :=
  fold_left (fun map emp => mapSet map (Employee.id emp) (computePayroll emp))
            employees [].

(** [Array.from(payrolls.values()).reduce((sum, p) => sum + p.field, 0)]: a
    total of the dashboard and of the foot of the summary table. *)
Definition dashboardTotal (field : CalculatedPayroll -> number)
    (employees : list Employee.t) : number :=
  fold_left (fun sum p => add sum (field p))
            (List.map snd (payrollEntries employees)) (ofZ 0).

(** [employees.forEach(emp => { const p = payrolls.get(emp.id)!;
    total += p.field })] of [handleExportExcel]; reading a field of a missing
    payroll throws, which is [None]. *)
Definition exportTotal (field : CalculatedPayroll -> number)
    (employees : list Employee.t) : option number :=
  fold_left
    (fun total emp =>
       match total, payrolls employees !! Employee.id emp with
       | Some total, Some p => Some (add total (field p))
       | _, _ => None
       end)
    employees (Some (ofZ 0)).

(** ** Records of whole amounts *)

Definition sumZ (amounts : list Z) : Z := fold_right Z.add 0 amounts.

(** A record whose amounts are the whole non-negative numbers given. *)
Definition wholeRecord (emp : Employee.t) (base meal fuel bonus dependents : Z)
    (allowances deductions : list Z) : Prop :=
  Employee.baseSalary emp = ofZ base
  /\ Employee.mealAllowance emp = ofZ meal
  /\ Employee.fuelAllowance emp = ofZ fuel
  /\ Employee.attendanceBonus emp = ofZ bonus
  /\ Employee.dependents emp = ofZ dependents
  /\ List.map Allowance.amount (Employee.customAllowances emp) = List.map ofZ allowances
  /\ List.map Deduction.amount (Employee.customDeductions emp) = List.map ofZ deductions
  /\ 0 <= base /\ 0 <= meal /\ 0 <= fuel /\ 0 <= bonus /\ 0 <= dependents
  /\ Forall (fun a => 0 <= a) allowances
  /\ Forall (fun d => 0 <= d) deductions.

(** ** Sample data *)

(** The state the application starts from. *)
Definition initialState : State.t :=
  {| State.activeTab := DASHBOARD;
     State.employees := [sampleEmployee];
     State.companySettings :=
       {| CompanySettings.name := "祥鉞餐飲設備股份有限公司";
          CompanySettings.address := "台中市北屯區水景街8號";
          CompanySettings.googleSheetScriptUrl := Some "" |};
     State.selectedEmployeeId := None;
     State.isEditing := false;
     State.searchQuery := "";
     State.deleteConfirmId := None |}.

(** A form opened on the second record, with a raised base salary. *)
Definition sampleForm : Form.t :=
  {| Form.initialData := Some otherEmployee;
     Form.name := "Lin";
     Form.department := "Sales";
     Form.position := "Clerk";
     Form.joinDate := "2024-03-01";
     Form.dependents := "2";
     Form.bankName := "CTBC";
     Form.bankAccount := "0000-0000-0001";
     Form.baseSalary := "31000";
     Form.mealAllowance := "0";
     Form.fuelAllowance := "0";
     Form.attendanceBonus := "0";
     Form.useBaseSalaryForInsurance := true;
     Form.otWeekday := "0";
     Form.otRestDay := "0";
     Form.otHoliday := "0";
     Form.customAllowances := [];
     Form.customDeductions := [] |}.

(** * Lemmas and theorems *)

(** ** Bracket lookup: the scan against its contract *)

Lemma scanBrackets_find (brackets : list number) (salary : number) :
  scanBrackets brackets salary = List.find (fun tier => le salary tier) brackets.
Proof.
  induction brackets as [|b rest IH]; simpl; [reflexivity|].
  destruct (le salary b); [reflexivity|exact IH].
Qed.

Lemma last_default_irrelevant {A} (l : list A) (a d d' : A) :
  List.last (a :: l) d = List.last (a :: l) d'.
Proof.
  revert a. induction l as [|b l IH]; intros a; [reflexivity|].
  change (List.last (b :: l) d = List.last (b :: l) d'). apply IH.
Qed.

Lemma bracketOf_lookupTier (table : list number) (salary : number) :
  bracketOf table salary = lookupTier table salary.
Proof.
  unfold bracketOf, lookupTier. destruct table as [|first rest].
  - destruct salary; reflexivity.
  - cbn [List.nth]. destruct (le salary first); [reflexivity|].
    rewrite scanBrackets_find.
    destruct (List.find _ _); [reflexivity|]. apply last_default_irrelevant.
Qed.

Lemma scanBrackets_In (brackets : list number) (salary b : number) :
  scanBrackets brackets salary = Some b -> In b brackets /\ le salary b = true.
Proof.
  induction brackets as [|c rest IH]; simpl; [discriminate|].
  destruct (le salary c) eqn:E.
  - intros [= <-]. auto.
  - intros H. destruct (IH H). auto.
Qed.

Lemma last_In {A} (l : list A) (a d : A) : In (List.last (a :: l) d) (a :: l).
Proof.
  revert a. induction l as [|b l IH]; intros a; [left; reflexivity|].
  right. apply (IH b).
Qed.

Lemma bracketOf_In (table : list number) (salary : number) :
  table <> [] -> In (bracketOf table salary) table.
Proof.
  intros Hne. destruct table as [|first rest]; [congruence|].
  unfold bracketOf. cbn [List.nth].
  destruct (le salary first); [left; reflexivity|].
  destruct (scanBrackets (first :: rest) salary) as [b|] eqn:E.
  - apply (scanBrackets_In _ _ _ E).
  - apply last_In.
Qed.

Lemma bracketOf_tier (tiers : list Z) (salary : number) :
  tiers <> [] ->
  exists t, In t tiers /\ bracketOf (List.map ofZ tiers) salary = ofZ t.
Proof.
  intros Hne.
  assert (H : In (bracketOf (List.map ofZ tiers) salary) (List.map ofZ tiers)).
  { apply bracketOf_In. destruct tiers; [congruence|discriminate]. }
  apply in_map_iff in H. destruct H as (t & Ht & Hin). exists t. auto.
Qed.

(** A property checked on every tier of a table holds of whatever the
    lookup returns. *)
Lemma bracketOf_tier_check (tiers : list Z) (P : Z -> bool) (salary : number) :
  tiers <> [] -> forallb P tiers = true ->
  exists t, In t tiers /\ P t = true /\
            bracketOf (List.map ofZ tiers) salary = ofZ t.
Proof.
  intros Hne Hall. destruct (bracketOf_tier tiers salary Hne) as (t & Hin & Ht).
  exists t. split; [exact Hin|]. split; [|exact Ht].
  rewrite forallb_forall in Hall. auto.
Qed.

(** ** Order facts on numbers *)

Lemma compare_cont_antisym (p q : positive) :
  Pos.compare_cont Eq q p = CompOpp (Pos.compare_cont Eq p q).
Proof. apply Pos.compare_antisym. Qed.

Lemma SFcompare_antisym (x y : number) :
  SFcompare y x = option_map CompOpp (SFcompare x y).
Proof.
  destruct x as [sx|sx| |sx mx ex], y as [sy|sy| |sy my ey]; simpl;
    try destruct sx; try destruct sy; try reflexivity;
    rewrite (Z.compare_antisym ex ey); destruct (ex ?= ey); simpl; try reflexivity;
    rewrite (compare_cont_antisym mx my);
    try rewrite CompOpp_involutive; reflexivity.
Qed.

Lemma Pos_compare_cont_Eq (p q : positive) :
  Pos.compare_cont Eq p q = Eq -> p = q.
Proof. apply Pos.compare_eq. Qed.

Lemma SFcompare_refl (x : number) : x <> NaN -> SFcompare x x = Some Eq.
Proof.
  destruct x as [s|s| |s m e]; simpl; intros H.
  - reflexivity.
  - destruct s; reflexivity.
  - now destruct H.
  - rewrite Z.compare_refl.
    change (Pos.compare_cont Eq m m) with (Pos.compare m m).
    rewrite Pos.compare_refl. destruct s; reflexivity.
Qed.

Lemma SFcompare_Eq_finite (s : bool) (m : positive) (e : Z) (y : number) :
  SFcompare (S754_finite s m e) y = Some Eq -> y = S754_finite s m e.
Proof.
  destruct y as [sy|sy| |sy my ey]; simpl; try destruct s; try destruct sy;
    try discriminate;
    destruct (e ?= ey) eqn:E; try discriminate;
    apply Z.compare_eq in E; subst ey; intros [= H];
    [apply (f_equal CompOpp) in H; rewrite CompOpp_involutive in H; simpl in H|];
    apply Pos_compare_cont_Eq in H; subst; reflexivity.
Qed.

Lemma le_refl_of_le (x y : number) : le x y = true -> le y y = true.
Proof.
  unfold le, SFleb. intros H. rewrite SFcompare_refl; [reflexivity|].
  intros ->. destruct x; discriminate.
Qed.

Lemma SFltb_le (x y : number) : SFltb x y = true -> le x y = true.
Proof. unfold le, SFltb, SFleb. destruct (SFcompare x y) as [[]|]; congruence. Qed.

(** Above the cap of three, [Math.min] returns the cap. *)
Lemma Math_min_cap (d : number) :
  le (ofZ 3) d = true -> Math_min d (ofZ 3) = ofZ 3.
Proof.
  unfold le, SFleb, Math_min. rewrite (SFcompare_antisym (ofZ 3) d).
  destruct (SFcompare (ofZ 3) d) as [[]|] eqn:E; try discriminate; intros _; simpl.
  - change (ofZ 3) with (S754_finite false 6755399441055744 (-51)) in E.
    apply SFcompare_Eq_finite in E. subst d. reflexivity.
  - reflexivity.
Qed.

(** ** Binary64 rounding: from the bit-level algorithm to integers *)

(** [digits2_pos] counts binary digits. *)
Lemma digits2_pos_bounds (m : positive) :
  2 ^ (Zpos (digits2_pos m) - 1) <= Zpos m < 2 ^ Zpos (digits2_pos m).
Proof.
  induction m as [m IH|m IH|]; cbn [digits2_pos].
  - rewrite Pos2Z.inj_succ, Z.pow_succ_r by lia.
    replace (Z.succ (Zpos (digits2_pos m)) - 1) with (Z.succ (Zpos (digits2_pos m) - 1)) by lia.
    rewrite Z.pow_succ_r by lia. lia.
  - rewrite Pos2Z.inj_succ, Z.pow_succ_r by lia.
    replace (Z.succ (Zpos (digits2_pos m)) - 1) with (Z.succ (Zpos (digits2_pos m) - 1)) by lia.
    rewrite Z.pow_succ_r by lia. lia.
  - simpl. lia.
Qed.

Lemma pow2_lt_inv (a b : Z) : 0 <= b -> 2 ^ a < 2 ^ b -> a < b.
Proof.
  intros Hb H. destruct (Z.lt_ge_cases a b) as [|Hge]; [assumption|].
  pose proof (Z.pow_le_mono_r 2 b a ltac:(lia) Hge). lia.
Qed.

Lemma Zdigits2_unique (z d : Z) :
  0 < d -> 2 ^ (d - 1) <= z < 2 ^ d -> Zdigits2 z = d.
Proof.
  intros Hd [Hlo Hhi]. destruct z as [|m|m].
  - pose proof (Z.pow_pos_nonneg 2 (d - 1) ltac:(lia) ltac:(lia)). lia.
  - cbn [Zdigits2]. pose proof (digits2_pos_bounds m) as [Blo Bhi].
    set (k := Zpos (digits2_pos m)) in *.
    assert (d - 1 < k) by (apply pow2_lt_inv; lia).
    assert (k - 1 < d) by (apply pow2_lt_inv; lia). lia.
  - pose proof (Z.pow_pos_nonneg 2 (d - 1) ltac:(lia) ltac:(lia)). lia.
Qed.

Lemma Zdigits2_bounds (z : Z) :
  0 < z -> 0 < Zdigits2 z /\ 2 ^ (Zdigits2 z - 1) <= z < 2 ^ Zdigits2 z.
Proof.
  destruct z as [|m|m]; try lia. intros _. cbn [Zdigits2].
  split; [lia|apply digits2_pos_bounds].
Qed.

Lemma Zdigits2_mono (a b : Z) : 0 < a <= b -> Zdigits2 a <= Zdigits2 b.
Proof.
  intros H. destruct (Zdigits2_bounds a) as (Ha & Halo & Hahi); [lia|].
  destruct (Zdigits2_bounds b) as (Hb & Hblo & Hbhi); [lia|].
  assert (Zdigits2 a - 1 < Zdigits2 b) by (apply pow2_lt_inv; lia). lia.
Qed.

Lemma Zdigits2_shift (z k : Z) :
  0 < z -> 0 <= k -> Zdigits2 (z * 2 ^ k) = Zdigits2 z + k.
Proof.
  intros Hz Hk. destruct (Zdigits2_bounds z Hz) as (Hd & Hlo & Hhi).
  apply Zdigits2_unique; [lia|].
  replace (Zdigits2 z + k - 1) with (Zdigits2 z - 1 + k) by lia.
  rewrite !Z.pow_add_r by lia.
  pose proof (Z.pow_pos_nonneg 2 k ltac:(lia) Hk). nia.
Qed.

Lemma round_nearest_even_rem (m n : Z) :
  0 <= n ->
  round_nearest_even (m / 2 ^ n) (loc_of_rem (m mod 2 ^ n) n) = rne m n.
Proof.
  intros Hn. unfold loc_of_rem, rne.
  pose proof (Z.pow_pos_nonneg 2 n ltac:(lia) Hn) as Hpow.
  destruct (Z.eqb_spec (m mod 2 ^ n) 0) as [E|E].
  - rewrite E. assert (H : (2 * 0 ?= 2 ^ n) = Lt) by (apply Z.compare_lt_iff; lia).
    rewrite H. reflexivity.
  - cbn [round_nearest_even]. destruct (2 * (m mod 2 ^ n) ?= 2 ^ n); reflexivity.
Qed.

Lemma shr_inv_init (m0 : Z) : shr_inv m0 0 (shr_record_of_loc m0 loc_Exact).
Proof.
  unfold shr_inv. simpl. rewrite Z.div_1_r, Z.mod_1_r. split; reflexivity.
Qed.

Lemma shr_1_m (mrs : shr_record) :
  0 <= shr_m mrs -> shr_m (shr_1 mrs) = shr_m mrs / 2.
Proof.
  destruct mrs as [m r s]. cbn [shr_m]. intros Hm.
  destruct m as [|[p|p|]|p]; cbn [shr_1 shr_m].
  - reflexivity.
  - apply Z.div_unique with 1; lia.
  - apply Z.div_unique with 0; lia.
  - reflexivity.
  - lia.
Qed.

Lemma shr_1_r (mrs : shr_record) :
  0 <= shr_m mrs -> shr_r (shr_1 mrs) = Z.odd (shr_m mrs)
                    /\ shr_s (shr_1 mrs) = shr_r mrs || shr_s mrs.
Proof.
  destruct mrs as [m r s]. cbn [shr_m shr_r shr_s]. intros Hm.
  destruct m as [|[p|p|]|p]; cbn [shr_1 shr_r shr_s]; try lia; split; reflexivity.
Qed.

Lemma shr_inv_step (m0 k : Z) (mrs : shr_record) :
  0 <= m0 -> 0 <= k -> shr_inv m0 k mrs -> shr_inv m0 (k + 1) (shr_1 mrs).
Proof.
  intros Hm0 Hk [Hm Hloc].
  pose proof (Z.pow_pos_nonneg 2 k ltac:(lia) Hk) as Hpow.
  assert (Hq : 0 <= m0 / 2 ^ k) by (apply Z.div_pos; lia).
  assert (Hmnn : 0 <= shr_m mrs) by lia.
  destruct (shr_1_r mrs Hmnn) as [Hr Hs]. pose proof (shr_1_m mrs Hmnn) as Hm'.
  assert (Hpow' : 2 ^ (k + 1) = 2 * 2 ^ k) by (rewrite Z.pow_add_r by lia; lia).
  assert (Hdiv : m0 / 2 ^ (k + 1) = m0 / 2 ^ k / 2).
  { rewrite Hpow', Z.mul_comm, Z.div_div by lia. reflexivity. }
  assert (Hmod : m0 mod 2 ^ (k + 1) = m0 mod 2 ^ k + 2 ^ k * ((m0 / 2 ^ k) mod 2)).
  { rewrite Hpow', Z.mul_comm, Z.rem_mul_r by lia. reflexivity. }
  pose proof (Z.mod_pos_bound m0 (2 ^ k) Hpow) as Hrem.
  split; [rewrite Hm', Hm, Hdiv; reflexivity|].
  unfold loc_of_rem at 1. rewrite Hmod, Hpow'. set (rem := m0 mod 2 ^ k) in *.
  assert (Hbit : (m0 / 2 ^ k) mod 2 = if Z.odd (shr_m mrs) then 1 else 0).
  { rewrite Hm, Zmod_odd. reflexivity. }
  rewrite Hbit. clear Hbit.
  assert (Hsticky : shr_r mrs || shr_s mrs = negb (rem =? 0)).
  { unfold loc_of_rem in Hloc. destruct mrs as [m r s]. cbn [shr_r shr_s].
    destruct (rem =? 0); destruct r, s; simpl in Hloc; try discriminate; reflexivity. }
  destruct (shr_1 mrs) as [m1 r1 s1]. cbn [shr_r shr_s shr_m] in *.
  subst r1 s1. rewrite Hsticky.
  destruct (Z.odd (shr_m mrs)); destruct (Z.eqb_spec rem 0) as [E|E]; simpl.
  - rewrite E. replace (0 + 2 ^ k * 1 =? 0) with false by (symmetry; apply Z.eqb_neq; lia).
    replace (2 * (0 + 2 ^ k * 1) ?= 2 * 2 ^ k) with Eq; [reflexivity|].
    symmetry. apply Z.compare_eq_iff. lia.
  - replace (rem + 2 ^ k * 1 =? 0) with false by (symmetry; apply Z.eqb_neq; lia).
    replace (2 * (rem + 2 ^ k * 1) ?= 2 * 2 ^ k) with Gt; [reflexivity|].
    symmetry. apply Z.compare_gt_iff. lia.
  - rewrite E. simpl. rewrite Z.mul_0_r. reflexivity.
  - replace (rem + 2 ^ k * 0 =? 0) with false by (symmetry; apply Z.eqb_neq; lia).
    replace (2 * (rem + 2 ^ k * 0) ?= 2 * 2 ^ k) with Lt; [reflexivity|].
    symmetry. apply Z.compare_lt_iff. lia.
Qed.

Lemma shr_inv_iter (m0 : Z) (p : positive) :
  0 <= m0 ->
  forall k mrs, 0 <= k -> shr_inv m0 k mrs ->
                shr_inv m0 (k + Zpos p) (SpecFloat.iter_pos shr_1 p mrs).
Proof.
  intros Hm0. induction p as [p IH|p IH|]; intros k mrs Hk Hinv; cbn [SpecFloat.iter_pos].
  - replace (k + Zpos p~1) with (k + 1 + Zpos p + Zpos p) by lia.
    apply IH; [lia|]. apply IH; [lia|]. apply shr_inv_step; assumption.
  - replace (k + Zpos p~0) with (k + Zpos p + Zpos p) by lia.
    apply IH; [lia|]. apply IH; assumption.
  - apply shr_inv_step; assumption.
Qed.

(** [shr_fexp] on an exact mantissa: quotient and rounding in one go. *)
Lemma shr_exact (m e n : Z) :
  0 <= m ->
  let '(mrs, e') := shr (shr_record_of_loc m loc_Exact) e n in
  e' = e + Z.max n 0
  /\ round_nearest_even (shr_m mrs) (loc_of_shr_record mrs) = rne m (Z.max n 0).
Proof.
  intros Hm. destruct n as [|p|p]; cbn [shr].
  - split; [simpl; lia|]. simpl. unfold rne. simpl.
    rewrite Z.div_1_r, Z.mod_1_r. reflexivity.
  - destruct (shr_inv_iter m p Hm 0 _ ltac:(lia) (shr_inv_init m)) as [H1 H2].
    split; [lia|]. rewrite H1, H2. replace (Z.max (Zpos p) 0) with (0 + Zpos p) by lia.
    apply round_nearest_even_rem. lia.
  - split; [simpl; lia|]. simpl. unfold rne. simpl.
    rewrite Z.div_1_r, Z.mod_1_r. reflexivity.
Qed.

Lemma pow2_pos (n : Z) : 0 <= n -> 0 < 2 ^ n.
Proof. intros H. apply Z.pow_pos_nonneg; lia. Qed.

Lemma scaled_range (a b u : Z) : 0 <= a <= b -> 0 < u -> 0 <= a * u <= b * u.
Proof.
  intros [Ha Hab] Hu. split.
  - apply Z.mul_nonneg_nonneg; lia.
  - apply Z.mul_le_mono_nonneg_r; lia.
Qed.

Lemma rne_exact (a n : Z) : 0 <= n -> rne (a * 2 ^ n) n = a.
Proof.
  intros Hn. pose proof (pow2_pos n Hn) as HP. unfold rne.
  rewrite Z.div_mul, Z.mod_mul by lia.
  assert (H : (2 * 0 ?= 2 ^ n) = Lt) by (apply Z.compare_lt_iff; lia).
  rewrite H. reflexivity.
Qed.

Lemma rne_0 (m : Z) : rne m 0 = m.
Proof. rewrite <- (Z.mul_1_r m) at 1. apply (rne_exact m 0). lia. Qed.

Lemma rne_mono (a b n : Z) : 0 <= n -> a <= b -> rne a n <= rne b n.
Proof.
  intros Hn Hab. pose proof (pow2_pos n Hn) as HP. unfold rne.
  set (P := 2 ^ n) in *.
  pose proof (Z.div_mod a P ltac:(lia)) as Ha.
  pose proof (Z.div_mod b P ltac:(lia)) as Hb.
  pose proof (Z.mod_pos_bound a P HP) as Ra.
  pose proof (Z.mod_pos_bound b P HP) as Rb.
  assert (Hq : a / P <= b / P) by (apply Z.div_le_mono; lia).
  destruct (Z.eq_dec (a / P) (b / P)) as [E|E].
  - rewrite <- E in *.
    destruct (Z.compare_spec (2 * (a mod P)) P), (Z.compare_spec (2 * (b mod P)) P);
      destruct (Z.even (a / P)); lia.
  - destruct (Z.compare_spec (2 * (a mod P)) P), (Z.compare_spec (2 * (b mod P)) P);
      destruct (Z.even (a / P)); destruct (Z.even (b / P)); lia.
Qed.

Lemma rne_scale (m n j : Z) :
  0 <= n -> 0 <= j -> rne (m * 2 ^ j) (n + j) = rne m n.
Proof.
  intros Hn Hj. pose proof (pow2_pos n Hn) as HP. pose proof (pow2_pos j Hj) as HJ.
  unfold rne. rewrite Z.pow_add_r by lia.
  rewrite Z.div_mul_cancel_r, Z.mul_mod_distr_r by lia.
  replace (2 * (m mod 2 ^ n * 2 ^ j)) with (2 * (m mod 2 ^ n) * 2 ^ j) by lia.
  rewrite <- Zmult_compare_compat_r by lia. reflexivity.
Qed.

Lemma rne_le_pow (m n a : Z) :
  0 <= n -> 0 <= a -> m <= 2 ^ a * 2 ^ n -> rne m n <= 2 ^ a.
Proof.
  intros Hn Ha H. rewrite <- (rne_exact (2 ^ a) n Hn). apply rne_mono; assumption.
Qed.

Lemma rne_ge_pow (m n a : Z) :
  0 <= n -> 0 <= a -> 2 ^ a * 2 ^ n <= m -> 2 ^ a <= rne m n.
Proof.
  intros Hn Ha H. rewrite <- (rne_exact (2 ^ a) n Hn). apply rne_mono; assumption.
Qed.

Lemma rne_nonneg (m n : Z) : 0 <= n -> 0 <= m -> 0 <= rne m n.
Proof.
  intros Hn Hm. rewrite <- (rne_exact 0 n Hn). apply rne_mono; lia.
Qed.

Lemma fexp64_eq (mu : Z) : fexp prec emax mu = fexp64 mu.
Proof. reflexivity. Qed.

Lemma shr_nonpos (mrs : shr_record) (e n : Z) : n <= 0 -> shr mrs e n = (mrs, e).
Proof. destruct n; [reflexivity|lia|reflexivity]. Qed.

Lemma pack_second_shift (s : bool) (mr E : Z) :
  -1074 <= E -> 0 <= mr <= 9007199254740992 ->
  (let '(mrs, e') := shr_fexp prec emax mr E loc_Exact in
   match shr_m mrs with
   | Z0 => S754_zero s
   | Zpos m => if e' <=? emax - prec then S754_finite s m e' else S754_infinity s
   | Zneg _ => S754_nan
   end) = pack s mr E.
Proof.
  intros HE Hmr. unfold shr_fexp. rewrite fexp64_eq.
  destruct (Z.eq_dec mr 0) as [->|Hnz].
  - rewrite shr_nonpos by (unfold fexp64; simpl; lia). reflexivity.
  - destruct (Z.eq_dec mr 9007199254740992) as [->|Hnc].
    + change (Zdigits2 9007199254740992) with 54. unfold fexp64.
      replace (Z.max (54 + E - 53) (-1074) - E) with 1 by lia.
      reflexivity.
    + assert (Hd : Zdigits2 mr <= 53).
      { destruct (Zdigits2_bounds mr ltac:(lia)) as (Hd & Hlo & _).
        assert (Zdigits2 mr - 1 < 53); [|lia].
        apply pow2_lt_inv; [lia|]. change (2 ^ 53) with 9007199254740992. lia. }
      rewrite shr_nonpos by (unfold fexp64; lia).
      cbn [shr_record_of_loc shr_m]. destruct mr as [|p|p]; try lia.
      unfold pack. replace (Zpos p =? 9007199254740992) with false
        by (symmetry; apply Z.eqb_neq; exact Hnc).
      reflexivity.
Qed.

(** The mantissa [binary_round_aux] rounds to, when no left shift is due. *)
Lemma binary_round_aux_exact (s : bool) (m : positive) (e : Z) :
  let E := fexp64 (Zdigits2 (Zpos m) + e) in
  e <= E ->
  binary_round_aux prec emax s (Zpos m) e loc_Exact = pack s (rne (Zpos m) (E - e)) E.
Proof.
  intros E HE. unfold binary_round_aux, shr_fexp at 1. rewrite fexp64_eq. fold E.
  pose proof (shr_exact (Zpos m) e (E - e) ltac:(lia)) as H.
  destruct (shr (shr_record_of_loc (Zpos m) loc_Exact) e (E - e)) as [mrs e'].
  destruct H as [-> Hr]. rewrite Hr. replace (Z.max (E - e) 0) with (E - e) by lia.
  replace (e + (E - e)) with E by lia.
  apply pack_second_shift; [unfold E, fexp64; lia|].
  split; [apply rne_nonneg; lia|].
  destruct (Zdigits2_bounds (Zpos m) ltac:(lia)) as (Hd & Hlo & Hhi).
  set (d := Zdigits2 (Zpos m)) in *.
  destruct (Z.le_gt_cases d (E - e)) as [Hs|Hs].
  - assert (rne (Zpos m) (E - e) <= 2 ^ 0); [|simpl in *; lia].
    apply rne_le_pow; try lia. rewrite Z.pow_0_r, Z.mul_1_l.
    pose proof (Z.pow_le_mono_r 2 d (E - e) ltac:(lia) Hs). lia.
  - assert (rne (Zpos m) (E - e) <= 2 ^ (d - (E - e))).
    { apply rne_le_pow; try lia. rewrite <- Z.pow_add_r by lia.
      replace (d - (E - e) + (E - e)) with d by lia. lia. }
    assert (2 ^ (d - (E - e)) <= 2 ^ 53)
      by (apply Z.pow_le_mono_r; unfold E, fexp64 in *; lia).
    change (2 ^ 53) with 9007199254740992 in *. lia.
Qed.

Lemma Pos_iter_xO (m d : positive) :
  Zpos (Pos.iter xO m d) = Zpos m * 2 ^ Zpos d.
Proof.
  induction d as [|d IH] using Pos.peano_ind.
  - simpl. lia.
  - rewrite Pos.iter_succ, Pos2Z.inj_succ, Z.pow_succ_r by lia.
    rewrite Pos2Z.inj_xO, IH. lia.
Qed.

Lemma binary_round_spec (s : bool) (m : positive) (e : Z) :
  binary_round prec emax s m e
  = pack s (rmant (Zpos m) e) (fexp64 (Zdigits2 (Zpos m) + e)).
Proof.
  unfold binary_round, rmant, shl_align. rewrite fexp64_eq.
  change (Zpos (digits2_pos m)) with (Zdigits2 (Zpos m)).
  set (E := fexp64 (Zdigits2 (Zpos m) + e)).
  destruct (Z.ltb_spec E e) as [Hlt|Hge].
  - destruct (E - e) as [|d|d] eqn:Ed; try lia.
    assert (Hm' : Zpos (Pos.iter xO m d) = Zpos m * 2 ^ (e - E)).
    { rewrite Pos_iter_xO. f_equal. f_equal. lia. }
    assert (Hdig : Zdigits2 (Zpos (Pos.iter xO m d)) + E = Zdigits2 (Zpos m) + e).
    { rewrite Hm', Zdigits2_shift by lia. lia. }
    rewrite binary_round_aux_exact; rewrite Hdig; fold E; [|lia].
    rewrite Z.sub_diag, rne_0, Hm'. reflexivity.
  - destruct (E - e) as [|d|d] eqn:Ed; try lia.
    + rewrite binary_round_aux_exact; fold E; [|lia]. rewrite Ed. reflexivity.
    + rewrite binary_round_aux_exact; fold E; [|lia]. rewrite Ed. reflexivity.
Qed.

(** ** Order keys

    A number that is [+0], [+infinity] or a canonical positive finite
    number is compared through its key: its value in units of [2^-1074],
    with [2^2098] for infinity. *)

Lemma bounded_inv (m : positive) (e : Z) :
  bounded prec emax m e = true ->
  -1074 <= e <= 971 /\ Zdigits2 (Zpos m) <= 53
  /\ (Zdigits2 (Zpos m) = 53 \/ e = -1074).
Proof.
  unfold bounded, canonical_mantissa. rewrite fexp64_eq. unfold fexp64.
  change (Zpos (digits2_pos m)) with (Zdigits2 (Zpos m)).
  change (emax - prec) with 971. intros H. apply andb_true_iff in H.
  destruct H as [H1 H2]. apply Z.eqb_eq in H1. apply Z.leb_le in H2. lia.
Qed.

Lemma bounded_intro (m : positive) (e : Z) :
  -1074 <= e <= 971 -> Zdigits2 (Zpos m) <= 53 ->
  (Zdigits2 (Zpos m) = 53 \/ e = -1074) ->
  bounded prec emax m e = true.
Proof.
  intros He Hd Hc. unfold bounded, canonical_mantissa. rewrite fexp64_eq.
  unfold fexp64. change (Zpos (digits2_pos m)) with (Zdigits2 (Zpos m)).
  change (emax - prec) with 971. apply andb_true_iff. split.
  - apply Z.eqb_eq. lia.
  - apply Z.leb_le. lia.
Qed.

Lemma pow2_add (a b : Z) : 0 <= a -> 0 <= b -> 2 ^ (a + b) = 2 ^ a * 2 ^ b.
Proof. intros. apply Z.pow_add_r; assumption. Qed.

Lemma pow2_le (a b : Z) : 0 <= a <= b -> 2 ^ a <= 2 ^ b.
Proof. intros. apply Z.pow_le_mono_r; lia. Qed.

Lemma pow2_lt (a b : Z) : 0 <= a < b -> 2 ^ a < 2 ^ b.
Proof. intros. apply Z.pow_lt_mono_r; lia. Qed.

(** Bounds of a canonical mantissa scaled to the key unit. *)
Lemma key_finite_bounds (m : positive) (e : Z) :
  bounded prec emax m e = true ->
  0 < Zpos m * 2 ^ (e + 1074) < 2 ^ (e + 1127)
  /\ (e <> -1074 -> 2 ^ (e + 1126) <= Zpos m * 2 ^ (e + 1074)).
Proof.
  intros H. destruct (bounded_inv m e H) as (He & Hd & Hc).
  destruct (Zdigits2_bounds (Zpos m) ltac:(lia)) as (Hd0 & Hlo & Hhi).
  pose proof (pow2_pos (e + 1074) ltac:(lia)) as HP.
  assert (H53 : Zpos m < 2 ^ 53).
  { pose proof (pow2_le (Zdigits2 (Zpos m)) 53 ltac:(lia)). lia. }
  replace (e + 1127) with (53 + (e + 1074)) by lia.
  rewrite (pow2_add 53) by lia. split; [split; nia|].
  intros Hne. assert (Hd53 : Zdigits2 (Zpos m) = 53) by lia.
  rewrite Hd53 in Hlo. replace (e + 1126) with (52 + (e + 1074)) by lia.
  rewrite (pow2_add 52) by lia. change (53 - 1) with 52 in Hlo. nia.
Qed.

Lemma key_finite_lt_cap (m : positive) (e : Z) :
  bounded prec emax m e = true -> 0 < Zpos m * 2 ^ (e + 1074) < 2 ^ 2098.
Proof.
  intros H. destruct (key_finite_bounds m e H) as [[H0 H1] _].
  destruct (bounded_inv m e H) as (He & _).
  pose proof (pow2_le (e + 1127) 2098 ltac:(lia)) as Hle.
  set (cap := 2 ^ 2098) in *. lia.
Qed.

Lemma key_nonneg (x : number) : 0 <= key x.
Proof.
  destruct x as [s|[]| |[] m e]; cbn [key]; lia.
Qed.

Lemma key_le_cap (x : number) : nnv x = true -> key x <= 2 ^ 2098.
Proof.
  destruct x as [[]|[]| |[] m e]; cbn [key nnv]; intros H; try discriminate H.
  - apply Z.lt_le_incl, pow2_pos. lia.
  - apply Z.le_refl.
  - pose proof (key_finite_lt_cap m e H) as Hlt. set (cap := 2 ^ 2098) in *. lia.
Qed.

Lemma key_order_exp (m1 m2 : positive) (e1 e2 : Z) :
  bounded prec emax m1 e1 = true -> bounded prec emax m2 e2 = true ->
  e1 < e2 -> Zpos m1 * 2 ^ (e1 + 1074) < Zpos m2 * 2 ^ (e2 + 1074).
Proof.
  intros H1 H2 Hlt. destruct (key_finite_bounds m1 e1 H1) as [[_ Hhi] _].
  destruct (key_finite_bounds m2 e2 H2) as [_ Hlo].
  destruct (bounded_inv m1 e1 H1) as (He1 & _).
  specialize (Hlo ltac:(lia)).
  pose proof (pow2_le (e1 + 1127) (e2 + 1126) ltac:(lia)). lia.
Qed.

(** On such numbers [SFcompare] is the comparison of keys. *)
Lemma SFcompare_key (x y : number) :
  nnv x = true -> nnv y = true -> SFcompare x y = Some (key x ?= key y).
Proof.
  destruct x as [[]|[]| |[] m1 e1]; try discriminate;
    destruct y as [[]|[]| |[] m2 e2]; try discriminate; intros Hx Hy;
    cbn [SFcompare key nnv] in *.
  - reflexivity.
  - pose proof (pow2_pos 2098 ltac:(lia)) as H.
    apply Z.compare_lt_iff in H. rewrite H. reflexivity.
  - pose proof (key_finite_lt_cap m2 e2 Hy) as [H _].
    apply Z.compare_lt_iff in H. rewrite H. reflexivity.
  - pose proof (pow2_pos 2098 ltac:(lia)) as H.
    apply Z.compare_gt_iff in H. rewrite H. reflexivity.
  - rewrite Z.compare_refl. reflexivity.
  - pose proof (key_finite_lt_cap m2 e2 Hy) as [_ H].
    apply Z.compare_gt_iff in H. rewrite H. reflexivity.
  - pose proof (key_finite_lt_cap m1 e1 Hx) as [H _].
    apply Z.compare_gt_iff in H. rewrite H. reflexivity.
  - pose proof (key_finite_lt_cap m1 e1 Hx) as [_ H].
    apply Z.compare_lt_iff in H. rewrite H. reflexivity.
  - destruct (Z.compare_spec e1 e2) as [E|E|E].
    + subst e2. destruct (bounded_inv m1 e1 Hx) as (He & _).
      rewrite <- Zmult_compare_compat_r by (apply Z.lt_gt, pow2_pos; lia).
      reflexivity.
    + pose proof (key_order_exp m1 m2 e1 e2 Hx Hy E) as H.
      apply Z.compare_lt_iff in H. rewrite H. reflexivity.
    + pose proof (key_order_exp m2 m1 e2 e1 Hy Hx E) as H.
      apply Z.compare_gt_iff in H. rewrite H. reflexivity.
Qed.

Lemma le_key (x y : number) :
  nnv x = true -> nnv y = true -> le x y = (key x <=? key y).
Proof.
  intros Hx Hy. unfold le, SFleb. rewrite (SFcompare_key x y Hx Hy).
  unfold Z.leb. destruct (key x ?= key y); reflexivity.
Qed.

Lemma gt_key (x y : number) :
  nnv x = true -> nnv y = true -> gt x y = (key y <? key x).
Proof.
  intros Hx Hy. unfold gt, SFltb. rewrite (SFcompare_key y x Hy Hx).
  unfold Z.ltb. destruct (key y ?= key x); reflexivity.
Qed.

(** Numbers in the key domain with equal keys are equal. *)
Lemma key_inj (x y : number) :
  nnv x = true -> nnv y = true -> key x = key y -> x = y.
Proof.
  intros Hx Hy Hk. pose proof (SFcompare_key x y Hx Hy) as H.
  rewrite Hk, Z.compare_refl in H.
  destruct x as [[]|[]| |[] m1 e1]; try discriminate;
    destruct y as [[]|[]| |[] m2 e2]; try discriminate; try reflexivity.
  symmetry. apply (SFcompare_Eq_finite false m1 e1). exact H.
Qed.

Lemma pack_key (mr E : Z) :
  packable mr E ->
  nnv (pack false mr E) = true
  /\ key (pack false mr E) = Z.min (mr * 2 ^ (E + 1074)) (2 ^ 2098).
Proof.
  intros (HE & Hmr & Hc). change (2 ^ 53) with 9007199254740992 in Hmr.
  change (2 ^ 52) with 4503599627370496 in Hc.
  destruct (Z.eq_dec mr 0) as [->|Hnz].
  { split; [reflexivity|]. cbn [pack key]. rewrite Z.mul_0_l. symmetry.
    apply Z.min_l, Z.lt_le_incl, pow2_pos. lia. }
  assert (Hpos : 0 < mr) by lia.
  destruct mr as [|p|p]; try (exfalso; lia). unfold pack.
  destruct (Z.eqb_spec (Zpos p) 9007199254740992) as [Hcarry|Hnc].
  - rewrite Hcarry. destruct (Z.leb_spec (E + 1) 971) as [Hfin|Hinf].
    + assert (Hb : bounded prec emax 4503599627370496 (E + 1) = true).
      { apply bounded_intro; [lia| |left]; reflexivity. }
      split; [exact Hb|]. cbn [key].
      replace (9007199254740992 * 2 ^ (E + 1074))
        with (4503599627370496 * 2 ^ (E + 1 + 1074)).
      * symmetry. apply Z.min_l, Z.lt_le_incl.
        apply (proj2 (key_finite_lt_cap _ _ Hb)).
      * replace (E + 1 + 1074) with (1 + (E + 1074)) by lia.
        rewrite (pow2_add 1) by lia. change (2 ^ 1) with 2. ring.
    + split; [reflexivity|]. cbn [key]. symmetry. apply Z.min_r.
      change 9007199254740992 with (2 ^ 53). rewrite <- pow2_add by lia.
      apply pow2_le. lia.
  - assert (Hd : Zdigits2 (Zpos p) <= 53).
    { destruct (Zdigits2_bounds (Zpos p) ltac:(lia)) as (Hd & Hlo & _).
      assert (Zdigits2 (Zpos p) - 1 < 53); [|lia].
      apply pow2_lt_inv; [lia|]. change (2 ^ 53) with 9007199254740992. lia. }
    assert (Hcan : Zdigits2 (Zpos p) = 53 \/ E = -1074).
    { destruct Hc as [Hc|[Hc|Hc]]; [lia| |right; exact Hc]. left.
      apply Zdigits2_unique; [lia|]. change (2 ^ (53 - 1)) with 4503599627370496.
      change (2 ^ 53) with 9007199254740992. lia. }
    destruct (Z.leb_spec E 971) as [Hfin|Hinf].
    + assert (Hb : bounded prec emax p E = true) by (apply bounded_intro; lia).
      split; [exact Hb|]. cbn [key]. symmetry. apply Z.min_l, Z.lt_le_incl.
      apply (proj2 (key_finite_lt_cap _ _ Hb)).
    + split; [reflexivity|]. cbn [key]. symmetry. apply Z.min_r.
      apply Z.le_trans with (2 ^ 52 * 2 ^ (E + 1074)).
      * rewrite <- pow2_add by lia. apply pow2_le. lia.
      * apply Z.mul_le_mono_nonneg_r; [apply Z.lt_le_incl, pow2_pos; lia|].
        change (2 ^ 52) with 4503599627370496. lia.
Qed.

Lemma rmant_packable (m e : Z) :
  0 < m -> packable (rmant m e) (fexp64 (Zdigits2 m + e)).
Proof.
  intros Hm. destruct (Zdigits2_bounds m Hm) as (Hd & Hlo & Hhi).
  unfold rmant, packable. set (d := Zdigits2 m) in *.
  set (E := fexp64 (d + e)).
  assert (HE : -1074 <= E /\ d + e - 53 <= E /\ (E = d + e - 53 \/ E = -1074))
    by (unfold E, fexp64; lia).
  split; [lia|]. destruct (Z.ltb_spec E e) as [Hlt|Hge].
  - pose proof (pow2_pos (e - E) ltac:(lia)) as HP.
    assert (Hup : m * 2 ^ (e - E) < 2 ^ 53).
    { assert (m * 2 ^ (e - E) < 2 ^ d * 2 ^ (e - E)) by nia.
      rewrite <- pow2_add in H by lia.
      pose proof (pow2_le (d + (e - E)) 53 ltac:(lia)). lia. }
    split; [nia|]. destruct HE as (_ & _ & [HE|HE]); [|right; right; exact HE].
    right; left. assert (2 ^ (d - 1) * 2 ^ (e - E) <= m * 2 ^ (e - E)) by nia.
    rewrite <- pow2_add in H by lia. replace (d - 1 + (e - E)) with 52 in H by lia.
    exact H.
  - split; [split; [apply rne_nonneg; lia|]|].
    + destruct (Z.le_gt_cases d (E - e)) as [Hs|Hs].
      * assert (rne m (E - e) <= 2 ^ 0).
        { apply rne_le_pow; try lia. rewrite Z.pow_0_r, Z.mul_1_l.
          pose proof (pow2_le d (E - e) ltac:(lia)). lia. }
        pose proof (pow2_le 0 53 ltac:(lia)). lia.
      * assert (rne m (E - e) <= 2 ^ (d - (E - e))).
        { apply rne_le_pow; try lia. rewrite <- pow2_add by lia.
          replace (d - (E - e) + (E - e)) with d by lia. lia. }
        pose proof (pow2_le (d - (E - e)) 53 ltac:(lia)). lia.
    + destruct HE as (_ & _ & [HE|HE]); [|right; right; exact HE].
      right; left. apply rne_ge_pow; try lia. rewrite <- pow2_add by lia.
      replace (52 + (E - e)) with (d - 1) by lia. exact Hlo.
Qed.

Lemma G_0 : G 0 = 0.
Proof. reflexivity. Qed.

Lemma binary_round_key (m : positive) (e : Z) :
  -2148 <= e ->
  nnv (binary_round prec emax false m e) = true
  /\ key (binary_round prec emax false m e) = G (Zpos m * 2 ^ (e + 2148)).
Proof.
  intros He. rewrite binary_round_spec.
  destruct (pack_key _ _ (rmant_packable (Zpos m) e ltac:(lia))) as [Hv Hk].
  split; [exact Hv|]. rewrite Hk. unfold G.
  rewrite Zdigits2_shift by lia.
  replace (Zdigits2 (Zpos m) + (e + 2148) - 2148) with (Zdigits2 (Zpos m) + e) by lia.
  set (E := fexp64 (Zdigits2 (Zpos m) + e)).
  assert (HE : -1074 <= E) by (unfold E, fexp64; lia).
  f_equal. f_equal. unfold rmant. fold E.
  destruct (Z.ltb_spec E e) as [Hlt|Hge].
  - replace (e + 2148) with ((e - E) + (E + 2148)) by lia.
    rewrite pow2_add, Z.mul_assoc by lia. symmetry. apply rne_exact. lia.
  - replace (E + 2148) with ((E - e) + (e + 2148)) by lia.
    symmetry. apply rne_scale; lia.
Qed.

Lemma G_nonneg (V : Z) : 0 <= V -> 0 <= G V.
Proof.
  intros HV. unfold G. set (E := fexp64 (Zdigits2 V - 2148)).
  assert (HE : -1074 <= E) by (unfold E, fexp64; lia).
  pose proof (rne_nonneg V (E + 2148) ltac:(lia) HV).
  pose proof (pow2_pos (E + 1074) ltac:(lia)).
  apply Z.min_glb.
  - apply Z.mul_nonneg_nonneg; lia.
  - apply Z.lt_le_incl, pow2_pos. lia.
Qed.

Lemma G_le_cap (V : Z) : G V <= 2 ^ 2098.
Proof. unfold G. apply Z.le_min_r. Qed.

(** Rounding is monotone. *)
Lemma G_mono (V1 V2 : Z) : 0 <= V1 <= V2 -> G V1 <= G V2.
Proof.
  intros [H1 H12]. destruct (Z.eq_dec V1 0) as [->|Hnz].
  { rewrite G_0. apply G_nonneg. lia. }
  destruct (Zdigits2_bounds V1 ltac:(lia)) as (HD1 & Hlo1 & Hhi1).
  destruct (Zdigits2_bounds V2 ltac:(lia)) as (HD2 & Hlo2 & Hhi2).
  pose proof (Zdigits2_mono V1 V2 ltac:(lia)) as HD.
  unfold G. set (D1 := Zdigits2 V1) in *. set (D2 := Zdigits2 V2) in *.
  set (E1 := fexp64 (D1 - 2148)). set (E2 := fexp64 (D2 - 2148)).
  assert (HE1 : -1074 <= E1 /\ D1 - 2148 - 53 <= E1) by (unfold E1, fexp64; lia).
  assert (HE12 : E1 <= E2) by (unfold E1, E2, fexp64; lia).
  apply Z.min_le_compat_r.
  destruct (Z.eq_dec E1 E2) as [Heq|Hne].
  - rewrite <- Heq. pose proof (pow2_pos (E1 + 1074) ltac:(lia)).
    pose proof (rne_mono V1 V2 (E1 + 2148) ltac:(lia) H12). nia.
  - assert (HE2 : E2 = D2 - 2148 - 53 /\ D1 < D2) by (unfold E1, E2, fexp64 in *; lia).
    set (a := Z.max (D1 - (E1 + 2148)) 0).
    assert (Hup : rne V1 (E1 + 2148) <= 2 ^ a).
    { apply rne_le_pow; try lia. rewrite <- pow2_add by lia.
      pose proof (pow2_le D1 (a + (E1 + 2148)) ltac:(lia)). lia. }
    assert (Hdn : 2 ^ 52 <= rne V2 (E2 + 2148)).
    { apply rne_ge_pow; try lia. rewrite <- pow2_add by lia.
      replace (52 + (E2 + 2148)) with (D2 - 1) by lia. exact Hlo2. }
    pose proof (pow2_pos (E1 + 1074) ltac:(lia)) as HP1.
    pose proof (pow2_pos (E2 + 1074) ltac:(lia)) as HP2.
    assert (Hmid : 2 ^ a * 2 ^ (E1 + 1074) <= 2 ^ 52 * 2 ^ (E2 + 1074)).
    { rewrite <- !pow2_add by lia. apply pow2_le. lia. }
    pose proof (rne_nonneg V1 (E1 + 2148) ltac:(lia) H1). nia.
Qed.

(** Rounding leaves a binary64 number unchanged. *)
Lemma G_ident (m : positive) (e : Z) :
  bounded prec emax m e = true ->
  G (Zpos m * 2 ^ (e + 2148)) = Zpos m * 2 ^ (e + 1074).
Proof.
  intros Hb. destruct (bounded_inv m e Hb) as (He & Hd & Hc). unfold G.
  rewrite Zdigits2_shift by lia.
  replace (fexp64 (Zdigits2 (Zpos m) + (e + 2148) - 2148)) with e
    by (unfold fexp64; lia).
  rewrite rne_exact by lia. pose proof (key_finite_lt_cap m e Hb) as Hlt.
  set (cap := 2 ^ 2098) in *. lia.
Qed.

Lemma G_key (x : number) : nonneg_finite x = true -> G (key x * 2 ^ 1074) = key x.
Proof.
  destruct x as [[]|[]| |[] m e]; try discriminate; cbn [nonneg_finite key].
  - reflexivity.
  - intros Hb. destruct (bounded_inv m e Hb) as (He & _).
    rewrite <- Z.mul_assoc, <- pow2_add by lia.
    replace (e + 1074 + 1074) with (e + 2148) by lia. apply G_ident, Hb.
Qed.

(** ** The arithmetic operations on keys *)

Lemma nonneg_finite_nnv (x : number) : nonneg_finite x = true -> nnv x = true.
Proof. destruct x as [[]|[]| |[] m e]; try discriminate; auto. Qed.

Lemma nnv_cases (x : number) :
  nnv x = true -> nonneg_finite x = true \/ x = S754_infinity false.
Proof. destruct x as [[]|[]| |[] m e]; try discriminate; auto. Qed.

Lemma nonneg_finite_key_lt (x : number) :
  nonneg_finite x = true -> key x < 2 ^ 2098.
Proof.
  destruct x as [[]|[]| |[] m e]; try discriminate; cbn [nonneg_finite key].
  - intros _. apply pow2_pos. lia.
  - intros Hb. apply (key_finite_lt_cap m e Hb).
Qed.

Lemma nnv_key_lt_finite (x : number) :
  nnv x = true -> key x < 2 ^ 2098 -> nonneg_finite x = true.
Proof.
  intros Hx Hk. destruct (nnv_cases x Hx) as [H|H]; [exact H|].
  subst x. cbn [key] in Hk. exfalso. apply (Z.lt_irrefl _ Hk).
Qed.

Lemma Zdigits2_mul_ge (a b : Z) :
  0 < a -> 0 < b -> Zdigits2 a + Zdigits2 b - 1 <= Zdigits2 (a * b).
Proof.
  intros Ha Hb. destruct (Zdigits2_bounds a Ha) as (Hda & Hloa & _).
  destruct (Zdigits2_bounds b Hb) as (Hdb & Hlob & _).
  destruct (Zdigits2_bounds (a * b) ltac:(nia)) as (Hd & _ & Hhi).
  assert (H : 2 ^ (Zdigits2 a - 1 + (Zdigits2 b - 1)) < 2 ^ Zdigits2 (a * b)).
  { rewrite pow2_add by lia. nia. }
  apply pow2_lt_inv in H; lia.
Qed.

Lemma mul_finite_round (m1 m2 : positive) (e1 e2 : Z) :
  bounded prec emax m1 e1 = true -> bounded prec emax m2 e2 = true ->
  mul (S754_finite false m1 e1) (S754_finite false m2 e2)
  = binary_round prec emax false (m1 * m2) (e1 + e2).
Proof.
  intros H1 H2. destruct (bounded_inv m1 e1 H1) as (He1 & Hd1 & Hc1).
  destruct (bounded_inv m2 e2 H2) as (He2 & Hd2 & Hc2).
  pose proof (Zdigits2_mul_ge (Zpos m1) (Zpos m2) ltac:(lia) ltac:(lia)) as Hd.
  destruct (Zdigits2_bounds (Zpos m1) ltac:(lia)) as (Hp1 & _).
  destruct (Zdigits2_bounds (Zpos m2) ltac:(lia)) as (Hp2 & _).
  unfold mul, SFmul, binary_round, shl_align. rewrite fexp64_eq.
  change (Zpos (digits2_pos (m1 * m2))) with (Zdigits2 (Zpos m1 * Zpos m2)).
  destruct (fexp64 (Zdigits2 (Zpos m1 * Zpos m2) + (e1 + e2)) - (e1 + e2))
    as [|d|d] eqn:Ed; try reflexivity.
  unfold fexp64 in Ed. lia.
Qed.

Lemma mul_key (x y : number) :
  nonneg_finite x = true -> nonneg_finite y = true ->
  nnv (mul x y) = true /\ key (mul x y) = G (key x * key y).
Proof.
  destruct x as [[]|[]| |[] m1 e1]; try discriminate;
    destruct y as [[]|[]| |[] m2 e2]; try discriminate;
    cbn [nonneg_finite]; intros Hx Hy.
  - split; reflexivity.
  - split; reflexivity.
  - split; [reflexivity|]. cbn [mul SFmul key xorb]. rewrite Z.mul_0_r. reflexivity.
  - rewrite (mul_finite_round m1 m2 e1 e2 Hx Hy).
    destruct (bounded_inv m1 e1 Hx) as (He1 & _).
    destruct (bounded_inv m2 e2 Hy) as (He2 & _).
    destruct (binary_round_key (m1 * m2) (e1 + e2) ltac:(lia)) as [Hv Hk].
    split; [exact Hv|]. rewrite Hk. cbn [key]. f_equal.
    replace (e1 + e2 + 2148) with ((e1 + 1074) + (e2 + 1074)) by lia.
    rewrite pow2_add by lia. rewrite Pos2Z.inj_mul. ring.
Qed.

Lemma shl_align_fst (m : positive) (e ez : Z) :
  ez <= e -> Zpos (fst (shl_align m e ez)) = Zpos m * 2 ^ (e - ez).
Proof.
  intros H. unfold shl_align. destruct (ez - e) as [|d|d] eqn:Ed; cbn [fst]; try lia.
  - replace (e - ez) with 0 by lia. simpl. lia.
  - rewrite Pos_iter_xO. f_equal. f_equal. lia.
Qed.

Lemma add_key (x y : number) :
  nonneg_finite x = true -> nonneg_finite y = true ->
  nnv (add x y) = true /\ key (add x y) = G ((key x + key y) * 2 ^ 1074).
Proof.
  intros Hx Hy.
  destruct x as [[]|[]| |[] m1 e1]; try discriminate;
    destruct y as [[]|[]| |[] m2 e2]; try discriminate.
  - split; reflexivity.
  - split; [exact Hy|]. change (add (S754_zero false) (S754_finite false m2 e2))
      with (S754_finite false m2 e2).
    rewrite Z.add_0_l. symmetry. apply G_key, Hy.
  - split; [exact Hx|]. change (add (S754_finite false m1 e1) (S754_zero false))
      with (S754_finite false m1 e1).
    change (key (S754_zero false)) with 0. rewrite Z.add_0_r. symmetry. apply G_key, Hx.
  - cbn [nonneg_finite] in Hx, Hy.
    destruct (bounded_inv m1 e1 Hx) as (He1 & _).
    destruct (bounded_inv m2 e2 Hy) as (He2 & _).
    unfold add, SFadd. cbn [cond_Zopp]. set (ez := Z.min e1 e2).
    assert (Hez : ez <= e1 /\ ez <= e2 /\ -1074 <= ez) by (unfold ez; lia).
    pose proof (shl_align_fst m1 e1 ez ltac:(lia)) as Ha.
    pose proof (shl_align_fst m2 e2 ez ltac:(lia)) as Hb.
    set (a := fst (shl_align m1 e1 ez)) in *. set (b := fst (shl_align m2 e2 ez)) in *.
    change (Zpos a + Zpos b) with (Zpos (a + b)). cbn [binary_normalize].
    destruct (binary_round_key (a + b) ez ltac:(lia)) as [Hv Hk].
    split; [exact Hv|]. rewrite Hk. f_equal. cbn [key].
    rewrite Pos2Z.inj_add, Ha, Hb.
    replace (ez + 2148) with ((ez + 1074) + 1074) by lia.
    rewrite (pow2_add (ez + 1074)) by lia.
    replace (e1 + 1074) with ((e1 - ez) + (ez + 1074)) by lia.
    replace (e2 + 1074) with ((e2 - ez) + (ez + 1074)) by lia.
    rewrite (pow2_add (e1 - ez) (ez + 1074)), (pow2_add (e2 - ez) (ez + 1074)) by lia.
    generalize (2 ^ 1074). intros u. ring.
Qed.

Lemma min_key (x y : number) :
  nnv x = true -> nnv y = true ->
  nnv (Math_min x y) = true /\ key (Math_min x y) = Z.min (key x) (key y).
Proof.
  intros Hx Hy. unfold Math_min. rewrite (SFcompare_key x y Hx Hy).
  destruct (Z.compare_spec (key x) (key y)) as [E|E|E].
  - rewrite (key_inj x y Hx Hy E).
    destruct y as [[]|[]| |[] m e]; try discriminate Hy; split; try assumption;
      try reflexivity; lia.
  - split; [exact Hx|lia].
  - split; [exact Hy|lia].
Qed.

Lemma max_key (x y : number) :
  nnv x = true -> nnv y = true ->
  nnv (Math_max x y) = true /\ key (Math_max x y) = Z.max (key x) (key y).
Proof.
  intros Hx Hy. unfold Math_max. rewrite (SFcompare_key x y Hx Hy).
  destruct (Z.compare_spec (key x) (key y)) as [E|E|E].
  - rewrite (key_inj x y Hx Hy E).
    destruct y as [[]|[]| |[] m e]; try discriminate Hy; split; try assumption;
      try reflexivity; lia.
  - split; [exact Hy|lia].
  - split; [exact Hx|lia].
Qed.

(** A rounded negative number is below [+0]. *)
Lemma max_zero_pack_true (mr E : Z) :
  0 <= mr -> Math_max (S754_zero false) (pack true mr E) = S754_zero false.
Proof.
  intros Hmr. unfold pack. destruct mr as [|p|p]; try lia; [reflexivity|].
  destruct (Zpos p =? 9007199254740992).
  - destruct (E + 1 <=? 971); reflexivity.
  - destruct (E <=? 971); reflexivity.
Qed.

Lemma sub_key_pos (x y : number) :
  nonneg_finite x = true -> nonneg_finite y = true -> key y < key x ->
  nnv (sub x y) = true /\ key (sub x y) = G ((key x - key y) * 2 ^ 1074).
Proof.
  intros Hx Hy Hlt.
  destruct x as [[]|[]| |[] m1 e1]; try discriminate Hx;
    destruct y as [[]|[]| |[] m2 e2]; try discriminate Hy.
  - cbn [key] in Hlt. lia.
  - pose proof (key_nonneg (S754_finite false m2 e2)). cbn [key] in *. lia.
  - split; [exact Hx|]. change (sub (S754_finite false m1 e1) (S754_zero false))
      with (S754_finite false m1 e1).
    change (key (S754_zero false)) with 0. rewrite Z.sub_0_r. symmetry.
    apply G_key, Hx.
  - cbn [nonneg_finite] in Hx, Hy. cbn [key] in Hlt.
    destruct (bounded_inv m1 e1 Hx) as (He1 & _).
    destruct (bounded_inv m2 e2 Hy) as (He2 & _).
    unfold sub, SFsub. cbn [cond_Zopp]. set (ez := Z.min e1 e2).
    assert (Hez : ez <= e1 /\ ez <= e2 /\ -1074 <= ez) by (unfold ez; lia).
    pose proof (shl_align_fst m1 e1 ez ltac:(lia)) as Ha.
    pose proof (shl_align_fst m2 e2 ez ltac:(lia)) as Hb.
    set (a := fst (shl_align m1 e1 ez)) in *. set (b := fst (shl_align m2 e2 ez)) in *.
    assert (Hval : (Zpos a - Zpos b) * 2 ^ (ez + 1074)
                   = Zpos m1 * 2 ^ (e1 + 1074) - Zpos m2 * 2 ^ (e2 + 1074)).
    { rewrite Ha, Hb.
      replace (e1 + 1074) with ((e1 - ez) + (ez + 1074)) by lia.
      replace (e2 + 1074) with ((e2 - ez) + (ez + 1074)) by lia.
      rewrite (pow2_add (e1 - ez) (ez + 1074)), (pow2_add (e2 - ez) (ez + 1074)) by lia.
      ring. }
    pose proof (pow2_pos (ez + 1074) ltac:(lia)) as HP.
    destruct (Zpos a - Zpos b) as [|d|d] eqn:Ed; try nia.
    cbn [binary_normalize].
    destruct (binary_round_key d ez ltac:(lia)) as [Hv Hk].
    split; [exact Hv|]. rewrite Hk. f_equal. cbn [key]. rewrite <- Hval.
    replace (ez + 2148) with ((ez + 1074) + 1074) by lia.
    rewrite (pow2_add (ez + 1074)) by lia. generalize (2 ^ 1074). intros u. ring.
Qed.

(** [Math.max(0, x - y)] rounds the positive part of the difference. *)
Lemma max_zero_sub_key (x y : number) :
  nonneg_finite x = true -> nonneg_finite y = true ->
  nnv (Math_max (ofZ 0) (sub x y)) = true
  /\ key (Math_max (ofZ 0) (sub x y)) = G (Z.max (key x - key y) 0 * 2 ^ 1074).
Proof.
  intros Hx Hy. change (ofZ 0) with (S754_zero false).
  destruct (Z.lt_ge_cases (key y) (key x)) as [Hlt|Hge].
  - destruct (sub_key_pos x y Hx Hy Hlt) as [Hv Hk].
    destruct (max_key (S754_zero false) (sub x y) eq_refl Hv) as [Hv' Hk'].
    split; [exact Hv'|]. rewrite Hk', Hk. change (key (S754_zero false)) with 0.
    replace (Z.max (key x - key y) 0) with (key x - key y) by lia.
    apply Z.max_r, G_nonneg, Z.mul_nonneg_nonneg; [lia|].
    apply Z.lt_le_incl, pow2_pos. lia.
  - replace (Z.max (key x - key y) 0) with 0 by lia. rewrite Z.mul_0_l, G_0.
    enough (H : Math_max (S754_zero false) (sub x y) = S754_zero false)
      by (rewrite H; split; reflexivity).
    destruct x as [[]|[]| |[] m1 e1]; try discriminate Hx;
      destruct y as [[]|[]| |[] m2 e2]; try discriminate Hy; try reflexivity.
    + cbn [nonneg_finite] in Hx. pose proof (proj1 (key_finite_lt_cap m1 e1 Hx)).
      cbn [key] in Hge. lia.
    + cbn [nonneg_finite] in Hx, Hy. cbn [key] in Hge.
      destruct (bounded_inv m1 e1 Hx) as (He1 & _).
      destruct (bounded_inv m2 e2 Hy) as (He2 & _).
      unfold sub, SFsub. cbn [cond_Zopp]. set (ez := Z.min e1 e2).
      assert (Hez : ez <= e1 /\ ez <= e2 /\ -1074 <= ez) by (unfold ez; lia).
      destruct (Zpos (fst (shl_align m1 e1 ez)) - Zpos (fst (shl_align m2 e2 ez)))
        as [|d|d] eqn:Ed.
      * reflexivity.
      * exfalso. pose proof (shl_align_fst m1 e1 ez ltac:(lia)) as Ha.
        pose proof (shl_align_fst m2 e2 ez ltac:(lia)) as Hb.
        pose proof (pow2_pos (ez + 1074) ltac:(lia)) as HP.
        assert (Hval : (Zpos (fst (shl_align m1 e1 ez)) - Zpos (fst (shl_align m2 e2 ez)))
                       * 2 ^ (ez + 1074)
                       = Zpos m1 * 2 ^ (e1 + 1074) - Zpos m2 * 2 ^ (e2 + 1074)).
        { rewrite Ha, Hb.
          replace (e1 + 1074) with ((e1 - ez) + (ez + 1074)) by lia.
          replace (e2 + 1074) with ((e2 - ez) + (ez + 1074)) by lia.
          rewrite (pow2_add (e1 - ez) (ez + 1074)), (pow2_add (e2 - ez) (ez + 1074)) by lia.
          ring. }
        rewrite Ed in Hval. nia.
      * cbn [binary_normalize]. rewrite binary_round_spec.
        apply max_zero_pack_true.
        destruct (rmant_packable (Zpos d) ez ltac:(lia)) as (_ & H & _). lia.
Qed.

Lemma cdiv_mono (a b c : Z) : 0 < c -> a <= b -> cdiv a c <= cdiv b c.
Proof.
  intros Hc Hab. unfold cdiv.
  pose proof (Z.div_le_mono (- b) (- a) c Hc ltac:(lia)). lia.
Qed.

Lemma cdiv_pos (a c : Z) : 0 < c -> 0 < a -> 0 < cdiv a c.
Proof.
  intros Hc Ha. unfold cdiv.
  assert (- a / c < 0); [|lia]. apply Z.div_lt_upper_bound; lia.
Qed.

Lemma cdiv_nonneg (a c : Z) : 0 < c -> 0 <= a -> 0 <= cdiv a c.
Proof.
  intros Hc Ha. pose proof (cdiv_mono 0 a c Hc Ha) as H0.
  unfold cdiv in H0 at 1. rewrite Z.opp_0, Z.div_0_l, Z.opp_0 in H0 by lia.
  exact H0.
Qed.

Lemma ceil_key (x : number) :
  nonneg_finite x = true ->
  nnv (Math_ceil x) = true
  /\ key (Math_ceil x) = G (cdiv (key x) (2 ^ 1074) * 2 ^ 2148).
Proof.
  intros Hb. destruct x as [[]|[]| |[] m e]; try discriminate Hb; cbn [nonneg_finite] in Hb.
  - split; reflexivity.
  - destruct (bounded_inv m e Hb) as (He & _).
    pose proof (pow2_pos 1074 ltac:(lia)) as HP.
    unfold Math_ceil. destruct (Z.leb_spec 0 e) as [Hpos|Hneg].
    + split; [exact Hb|]. cbn [key].
      replace (cdiv (Zpos m * 2 ^ (e + 1074)) (2 ^ 1074)) with (Zpos m * 2 ^ e).
      * rewrite <- Z.mul_assoc, <- pow2_add by lia. symmetry. apply G_ident, Hb.
      * unfold cdiv. rewrite pow2_add by lia.
        replace (- (Zpos m * (2 ^ e * 2 ^ 1074))) with ((- (Zpos m * 2 ^ e)) * 2 ^ 1074)
          by (generalize (2 ^ 1074); intros u; ring).
        rewrite Z.div_mul by (apply Z.neq_sym, Z.lt_neq, HP).
        rewrite Z.opp_involutive. reflexivity.
    + unfold smant. cbn [cond_Zopp]. rewrite Z.shiftr_div_pow2 by lia.
      fold (cdiv (Zpos m) (2 ^ (- e))).
      pose proof (pow2_pos (- e) ltac:(lia)) as HPe.
      pose proof (cdiv_pos (Zpos m) (2 ^ (- e)) HPe ltac:(lia)) as Hn.
      replace (cdiv (key (S754_finite false m e)) (2 ^ 1074)) with (cdiv (Zpos m) (2 ^ (- e))).
      * destruct (cdiv (Zpos m) (2 ^ (- e))) as [|n|n] eqn:En; try lia.
        cbn [Z.eqb]. unfold ofZ. cbn [binary_normalize].
        destruct (binary_round_key n 0 ltac:(lia)) as [Hv Hk].
        split; [exact Hv|]. rewrite Hk. reflexivity.
      * cbn [key]. unfold cdiv. f_equal.
        replace (2 ^ 1074) with (2 ^ (- e) * 2 ^ (e + 1074))
          by (rewrite <- pow2_add by lia; f_equal; lia).
        rewrite <- Z.mul_opp_l. rewrite Z.div_mul_cancel_r by lia. reflexivity.
Qed.

(** ** Division: the quotient is a finite number *)

Lemma pow2_xO (p : positive) : 2 ^ Zpos p~0 = 2 ^ Zpos p * 2 ^ Zpos p.
Proof. rewrite <- pow2_add by lia. f_equal. lia. Qed.

Lemma pow2_xI (p : positive) : 2 ^ Zpos p~1 = 2 * (2 ^ Zpos p * 2 ^ Zpos p).
Proof.
  rewrite <- pow2_add by lia. rewrite <- (Z.pow_succ_r 2) by lia. f_equal. lia.
Qed.

Lemma shr_m_iter (p : positive) :
  forall mrs, 0 <= shr_m mrs ->
              shr_m (SpecFloat.iter_pos shr_1 p mrs) = shr_m mrs / 2 ^ Zpos p.
Proof.
  assert (Hnn : forall a k, 0 <= a -> 0 <= k -> 0 <= a / 2 ^ k).
  { intros a k Ha Hk. apply Z.div_pos; [lia|apply pow2_pos; lia]. }
  induction p as [p IH|p IH|]; intros mrs Hm; cbn [SpecFloat.iter_pos].
  - pose proof (shr_1_m mrs Hm) as H1.
    assert (A1 : 0 <= shr_m (shr_1 mrs)) by (rewrite H1; apply Z.div_pos; lia).
    pose proof (IH _ A1) as A2.
    assert (A3 : 0 <= shr_m (SpecFloat.iter_pos shr_1 p (shr_1 mrs)))
      by (rewrite A2; apply Hnn; lia).
    pose proof (pow2_pos (Zpos p) ltac:(lia)) as HP.
    rewrite (IH _ A3), A2, H1, !Z.div_div by lia. f_equal. rewrite pow2_xI. lia.
  - pose proof (IH _ Hm) as A2.
    assert (A3 : 0 <= shr_m (SpecFloat.iter_pos shr_1 p mrs))
      by (rewrite A2; apply Hnn; lia).
    pose proof (pow2_pos (Zpos p) ltac:(lia)) as HP.
    rewrite (IH _ A3), A2, Z.div_div by lia. f_equal. rewrite pow2_xO. lia.
  - rewrite shr_1_m by exact Hm. reflexivity.
Qed.

Lemma shr_m_any (mrs : shr_record) (e n : Z) :
  0 <= shr_m mrs -> 0 <= n ->
  shr_m (fst (shr mrs e n)) = shr_m mrs / 2 ^ n /\ snd (shr mrs e n) = e + n.
Proof.
  intros Hm Hn. destruct n as [|p|p]; cbn [shr fst snd]; try lia.
  - rewrite Z.div_1_r. split; [reflexivity|lia].
  - split; [apply shr_m_iter, Hm|reflexivity].
Qed.

Lemma shr_m_of_loc (q : Z) (l : location) : shr_m (shr_record_of_loc q l) = q.
Proof. destruct l as [|[]]; reflexivity. Qed.

Lemma round_nearest_even_range (q : Z) (l : location) :
  q <= round_nearest_even q l <= q + 1.
Proof.
  destruct l as [|[]]; cbn [round_nearest_even]; try lia.
  destruct (Z.even q); lia.
Qed.

Lemma binary_round_aux_finite (q e : Z) (l : location) :
  0 <= q -> e <= fexp64 (Zdigits2 q + e) -> fexp64 (Zdigits2 q + e) <= 970 ->
  nonneg_finite (binary_round_aux prec emax false q e l) = true.
Proof.
  intros Hq He Hfin. unfold binary_round_aux, shr_fexp at 1. rewrite fexp64_eq.
  set (E := fexp64 (Zdigits2 q + e)) in *.
  assert (HE : -1074 <= E) by (unfold E, fexp64; lia).
  pose proof (shr_m_any (shr_record_of_loc q l) e (E - e)
                ltac:(rewrite shr_m_of_loc; lia) ltac:(lia)) as [Hm He'].
  rewrite shr_m_of_loc in Hm.
  destruct (shr (shr_record_of_loc q l) e (E - e)) as [mrs e']. cbn [fst snd] in Hm, He'.
  subst e'. replace (e + (E - e)) with E by lia.
  pose proof (round_nearest_even_range (shr_m mrs) (loc_of_shr_record mrs)) as Hr.
  set (mr := round_nearest_even (shr_m mrs) (loc_of_shr_record mrs)) in *.
  rewrite Hm in Hr. set (n := E - e) in *. assert (Hn : 0 <= n) by (unfold n; lia).
  pose proof (pow2_pos n Hn) as HPn.
  assert (Hqq : 0 <= q / 2 ^ n) by (apply Z.div_pos; lia).
  assert (Hpk : packable mr E).
  { split; [exact HE|]. destruct (Z.eq_dec q 0) as [Hq0|Hq0].
    - rewrite Hq0, Z.div_0_l in Hr by lia. split.
      + pose proof (pow2_pos 53 ltac:(lia)).
        change (2 ^ 53) with 9007199254740992 in *. lia.
      + assert (HE0 : E = -1074).
        { unfold E, fexp64 in *. rewrite Hq0 in *. cbn [Zdigits2] in *. lia. }
        right; right; exact HE0.
    - destruct (Zdigits2_bounds q ltac:(lia)) as (HD & Hlo & Hhi).
      set (D := Zdigits2 q) in *.
      assert (HDE : D + e - 53 <= E /\ (E = D + e - 53 \/ E = -1074))
        by (unfold E, fexp64; lia).
      split.
      + split; [lia|]. destruct (Z.le_gt_cases D n) as [Hs|Hs].
        * assert (q / 2 ^ n = 0).
          { apply Z.div_small. pose proof (pow2_le D n ltac:(lia)). lia. }
          pose proof (pow2_pos 53 ltac:(lia)).
          change (2 ^ 53) with 9007199254740992 in *. lia.
        * assert (q / 2 ^ n < 2 ^ (D - n)).
          { apply Z.div_lt_upper_bound; [lia|]. rewrite <- pow2_add by lia.
            replace (n + (D - n)) with D by lia. exact Hhi. }
          pose proof (pow2_le (D - n) 53 ltac:(unfold n; lia)). lia.
      + destruct HDE as [_ [HDE|HDE]]; [|right; right; exact HDE].
        right; left. assert (2 ^ 52 <= q / 2 ^ n); [|lia].
        apply Z.div_le_lower_bound; [lia|]. rewrite <- pow2_add by lia.
        replace (n + 52) with (D - 1) by (unfold n; lia). exact Hlo. }
  rewrite pack_second_shift.
  - destruct (pack_key mr E Hpk) as [Hv Hk].
    apply nnv_key_lt_finite; [exact Hv|]. rewrite Hk. clear Hk.
    destruct Hpk as (_ & Hmr & _).
    apply Z.min_lt_iff. left.
    apply Z.le_lt_trans with (2 ^ 53 * 2 ^ (E + 1074)).
    + apply Z.mul_le_mono_nonneg_r; [apply Z.lt_le_incl, pow2_pos; lia|lia].
    + rewrite <- pow2_add by lia. apply pow2_lt. lia.
  - exact HE.
  - destruct Hpk as (_ & Hmr & _). change (2 ^ 53) with 9007199254740992 in Hmr. exact Hmr.
Qed.

Lemma shiftl_match (m s : Z) :
  0 <= s ->
  match s with Zpos _ => Z.shiftl m s | Z0 => m | Zneg _ => 0 end = m * 2 ^ s.
Proof.
  intros Hs. destruct s as [|p|p]; try lia.
  apply Z.shiftl_mul_pow2. lia.
Qed.

(** Dividing a finite non-negative number by a number of at least 2. *)
Lemma div_nonneg_finite (x : number) (m2 : positive) (e2 : Z) :
  nonneg_finite x = true -> bounded prec emax m2 e2 = true ->
  2 <= Zdigits2 (Zpos m2) + e2 ->
  nonneg_finite (div x (S754_finite false m2 e2)) = true.
Proof.
  intros Hx Hy Hbig. destruct x as [[]|[]| |[] m1 e1]; try discriminate Hx.
  { reflexivity. }
  cbn [nonneg_finite] in Hx.
  destruct (bounded_inv m1 e1 Hx) as (He1 & Hd1 & _).
  destruct (bounded_inv m2 e2 Hy) as (He2 & Hd2 & _).
  destruct (Zdigits2_bounds (Zpos m1) ltac:(lia)) as (HD1 & Hlo1 & Hhi1).
  destruct (Zdigits2_bounds (Zpos m2) ltac:(lia)) as (HD2 & Hlo2 & Hhi2).
  unfold div, SFdiv, SFdiv_core_binary. cbn [xorb]. rewrite fexp64_eq.
  set (d1 := Zdigits2 (Zpos m1)) in *. set (d2 := Zdigits2 (Zpos m2)) in *.
  set (e' := Z.min (fexp64 (d1 + e1 - (d2 + e2))) (e1 - e2)).
  set (s := e1 - e2 - e').
  assert (Hs : 0 <= s) by (unfold s, e'; lia).
  set (m' := match s with Zpos _ => Z.shiftl (Zpos m1) s | Z0 => Zpos m1 | Zneg _ => 0 end).
  assert (Hm' : m' = Zpos m1 * 2 ^ s) by (apply shiftl_match, Hs).
  clearbody m'. pose proof (Z_div_mod m' (Zpos m2) ltac:(lia)) as Hdm.
  destruct (Z.div_eucl m' (Zpos m2)) as [q r]. destruct Hdm as [Hdm Hr].
  pose proof (pow2_pos s Hs) as HPs.
  assert (Hm'lo : 2 ^ (d1 - 1 + s) <= m') by (rewrite pow2_add by lia; nia).
  assert (Hm'hi : m' < 2 ^ (d1 + s)) by (rewrite pow2_add by lia; nia).
  assert (Hq : 0 <= q) by nia.
  assert (Hdq : q = 0 \/ (0 < q /\ Zdigits2 q <= d1 + s - d2 + 1)).
  { destruct (Z.eq_dec q 0) as [Hq0|Hq0]; [left; exact Hq0|right].
    split; [lia|]. destruct (Zdigits2_bounds q ltac:(lia)) as (HDq & Hloq & _).
    destruct (Z.le_gt_cases (d1 + s - d2 + 1) 0) as [Hneg|Hpos].
    - exfalso. pose proof (pow2_le (d1 + s) (d2 - 1) ltac:(lia)). nia.
    - assert (Hlt : q < 2 ^ (d1 + s - d2 + 1)).
      { assert (Hprod : 2 ^ (d1 + s) = 2 ^ (d1 + s - d2 + 1) * 2 ^ (d2 - 1)).
        { rewrite <- pow2_add by lia. f_equal. lia. }
        pose proof (pow2_pos (d2 - 1) ltac:(lia)).
        pose proof (pow2_pos (d1 + s - d2 + 1) ltac:(lia)). nia. }
      assert (Zdigits2 q - 1 < d1 + s - d2 + 1); [|lia].
      apply pow2_lt_inv; lia. }
  apply binary_round_aux_finite; [exact Hq| |].
  - destruct (Z.le_gt_cases e' (-1074)) as [Hlow|Hhigh]; [unfold fexp64; lia|].
    assert (He'1 : e' <= d1 + e1 - (d2 + e2) - 53) by (unfold e', fexp64 in *; lia).
    assert (Hs53 : 53 - d1 + d2 <= s) by (unfold s; lia).
    assert (Hqlo : 2 ^ (d1 - 1 + s - d2) <= q).
    { assert (Hprod : 2 ^ (d1 - 1 + s) = 2 ^ (d1 - 1 + s - d2) * 2 ^ d2).
      { rewrite <- pow2_add by lia. f_equal. lia. }
      pose proof (pow2_pos (d1 - 1 + s - d2) ltac:(lia)).
      pose proof (pow2_pos d2 ltac:(lia)).
      assert (2 ^ (d1 - 1 + s - d2) < q + 1); [nia|lia]. }
    assert (HDq : d1 + s - d2 <= Zdigits2 q).
    { pose proof (pow2_pos (d1 - 1 + s - d2) ltac:(lia)).
      destruct (Zdigits2_bounds q ltac:(lia)) as (HDq & _ & Hhiq).
      assert (d1 - 1 + s - d2 < Zdigits2 q); [|lia]. apply pow2_lt_inv; lia. }
    unfold fexp64. unfold s in HDq. lia.
  - destruct Hdq as [Hq0|[Hqpos Hdq]].
    + rewrite Hq0. cbn [Zdigits2]. unfold e', s, fexp64 in *. lia.
    + unfold e', s, fexp64 in *. lia.
Qed.

Lemma rate_nonneg_finite (regularSalary : number) :
  nonneg_finite regularSalary = true ->
  nonneg_finite (div regularSalary (ofZ 240)) = true.
Proof.
  intros H. change (ofZ 240) with (S754_finite false 8444249301319680 (-45)).
  apply div_nonneg_finite; [exact H|reflexivity|]. vm_compute. discriminate.
Qed.

(** ** Monotonicity of the operations *)

Lemma below_refl (x : number) : nnv x = true -> below x x.
Proof. intros H. repeat split; try assumption. lia. Qed.

Lemma below_trans (x y z : number) : below x y -> below y z -> below x z.
Proof. intros (Hx & _ & Hxy) (_ & Hz & Hyz). repeat split; try assumption. lia. Qed.

Lemma below_le (x y : number) : below x y -> le x y = true.
Proof. intros (Hx & Hy & H). rewrite (le_key x y Hx Hy). apply Z.leb_le, H. Qed.

Lemma below_finite (x y : number) :
  below x y -> nonneg_finite y = true -> nonneg_finite x = true.
Proof.
  intros (Hx & _ & H) Hy. apply nnv_key_lt_finite; [exact Hx|].
  pose proof (nonneg_finite_key_lt y Hy) as Hlt. set (cap := 2 ^ 2098) in *. lia.
Qed.

Lemma below_infinity (x : number) : nnv x = true -> below x (S754_infinity false).
Proof. intros H. repeat split; [exact H|]. cbn [key]. apply key_le_cap, H. Qed.

Lemma add_infinity_r (x : number) :
  nnv x = true -> add x (S754_infinity false) = S754_infinity false.
Proof. destruct x as [[]|[]| |[] m e]; try discriminate; reflexivity. Qed.

Lemma add_infinity_l (x : number) :
  nnv x = true -> add (S754_infinity false) x = S754_infinity false.
Proof. destruct x as [[]|[]| |[] m e]; try discriminate; reflexivity. Qed.

Lemma add_nnv (x y : number) : nnv x = true -> nnv y = true -> nnv (add x y) = true.
Proof.
  intros Hx Hy. destruct (nnv_cases x Hx) as [Fx|Ex].
  - destruct (nnv_cases y Hy) as [Fy|Ey].
    + apply (add_key x y Fx Fy).
    + rewrite Ey, add_infinity_r by exact Hx. reflexivity.
  - rewrite Ex, add_infinity_l by exact Hy. reflexivity.
Qed.

Lemma add_below (x x' y y' : number) :
  below x x' -> below y y' -> below (add x y) (add x' y').
Proof.
  intros Bx By. pose proof Bx as (Hx & Hx' & Kx). pose proof By as (Hy & Hy' & Ky).
  destruct (nnv_cases x' Hx') as [Fx'|Ex'].
  - destruct (nnv_cases y' Hy') as [Fy'|Ey'].
    + pose proof (below_finite x x' Bx Fx') as Fx.
      pose proof (below_finite y y' By Fy') as Fy.
      destruct (add_key x y Fx Fy) as [V K]. destruct (add_key x' y' Fx' Fy') as [V' K'].
      repeat split; try assumption. rewrite K, K'. clear K K'.
      pose proof (key_nonneg x). pose proof (key_nonneg y).
      apply G_mono, scaled_range; [lia|apply pow2_pos; lia].
    + rewrite Ey', add_infinity_r by exact Hx'. apply below_infinity, add_nnv; assumption.
  - rewrite Ex', add_infinity_l by exact Hy'. apply below_infinity, add_nnv; assumption.
Qed.

Lemma add_increasing (t v : number) :
  nnv t = true -> nnv v = true -> below t (add t v).
Proof.
  intros Ht Hv. destruct (nnv_cases t Ht) as [Ft|Et].
  - destruct (nnv_cases v Hv) as [Fv|Ev].
    + destruct (add_key t v Ft Fv) as [V K]. repeat split; try assumption.
      rewrite K, <- (G_key t Ft) at 1. clear K.
      pose proof (key_nonneg t). pose proof (key_nonneg v).
      apply G_mono, scaled_range; [lia|apply pow2_pos; lia].
    + rewrite Ev, add_infinity_r by exact Ht. apply below_infinity, Ht.
  - rewrite Et, add_infinity_l by exact Hv. apply below_refl. reflexivity.
Qed.

Lemma mul_below_r (c x x' : number) :
  nonneg_finite c = true -> below x x' -> nonneg_finite x' = true ->
  below (mul c x) (mul c x').
Proof.
  intros Fc Bx Fx'. pose proof (below_finite x x' Bx Fx') as Fx.
  destruct Bx as (_ & _ & K).
  destruct (mul_key c x Fc Fx) as [V1 K1]. destruct (mul_key c x' Fc Fx') as [V2 K2].
  repeat split; try assumption. rewrite K1, K2. apply G_mono.
  pose proof (key_nonneg c). pose proof (key_nonneg x). nia.
Qed.

Lemma mul_infinity_l (c : number) :
  nonneg_finite c = true -> 0 < key c ->
  mul (S754_infinity false) c = S754_infinity false.
Proof.
  intros Fc H. destruct c as [[]|[]| |[] m e]; try discriminate Fc;
    cbn [key] in H; [lia|reflexivity].
Qed.

Lemma mul_nnv_l (x c : number) :
  nnv x = true -> nonneg_finite c = true -> 0 < key c -> nnv (mul x c) = true.
Proof.
  intros Hx Fc Hc. destruct (nnv_cases x Hx) as [Fx|Ex].
  - apply (mul_key x c Fx Fc).
  - rewrite Ex, mul_infinity_l by assumption. reflexivity.
Qed.

Lemma mul_below_l (x x' c : number) :
  below x x' -> nonneg_finite c = true -> 0 < key c ->
  below (mul x c) (mul x' c).
Proof.
  intros Bx Fc Hc. pose proof Bx as (Hx & Hx' & K).
  destruct (nnv_cases x' Hx') as [Fx'|Ex'].
  - pose proof (below_finite x x' Bx Fx') as Fx.
    destruct (mul_key x c Fx Fc) as [V1 K1]. destruct (mul_key x' c Fx' Fc) as [V2 K2].
    repeat split; try assumption. rewrite K1, K2. apply G_mono.
    pose proof (key_nonneg x). nia.
  - rewrite Ex', mul_infinity_l by assumption.
    apply below_infinity, mul_nnv_l; assumption.
Qed.

Lemma min_below (x x' c : number) :
  below x x' -> nonneg_finite c = true ->
  below (Math_min x c) (Math_min x' c)
  /\ nonneg_finite (Math_min x' c) = true.
Proof.
  intros (Hx & Hx' & K) Fc. pose proof (nonneg_finite_nnv c Fc) as Hc.
  destruct (min_key x c Hx Hc) as [V1 K1]. destruct (min_key x' c Hx' Hc) as [V2 K2].
  split; [repeat split; try assumption; lia|].
  apply nnv_key_lt_finite; [exact V2|].
  pose proof (nonneg_finite_key_lt c Fc) as Hlt. set (cap := 2 ^ 2098) in *. lia.
Qed.

Lemma max_zero_sub_below (x x' c : number) :
  nonneg_finite x = true -> nonneg_finite x' = true -> nonneg_finite c = true ->
  key x <= key x' ->
  below (Math_max (ofZ 0) (sub x c)) (Math_max (ofZ 0) (sub x' c))
  /\ nonneg_finite (Math_max (ofZ 0) (sub x' c)) = true.
Proof.
  intros Fx Fx' Fc K.
  destruct (max_zero_sub_key x c Fx Fc) as [V1 K1].
  destruct (max_zero_sub_key x' c Fx' Fc) as [V2 K2].
  pose proof (key_nonneg c) as Hc. pose proof (key_nonneg x) as Hx.
  split.
  - repeat split; try assumption. rewrite K1, K2. clear K1 K2.
    apply G_mono, scaled_range; [lia|apply pow2_pos; lia].
  - apply nnv_key_lt_finite; [exact V2|]. rewrite K2. clear K1 K2.
    apply Z.le_lt_trans with (G (key x' * 2 ^ 1074)).
    + apply G_mono, scaled_range; [lia|apply pow2_pos; lia].
    + rewrite (G_key x' Fx'). apply nonneg_finite_key_lt, Fx'.
Qed.

Lemma sub_below (x x' c : number) :
  nonneg_finite x = true -> nonneg_finite x' = true -> nonneg_finite c = true ->
  key c < key x -> key x <= key x' ->
  below (sub x c) (sub x' c) /\ nonneg_finite (sub x' c) = true.
Proof.
  intros Fx Fx' Fc Hc K.
  destruct (sub_key_pos x c Fx Fc Hc) as [V1 K1].
  destruct (sub_key_pos x' c Fx' Fc ltac:(lia)) as [V2 K2].
  pose proof (key_nonneg c) as Hc0.
  split.
  - repeat split; try assumption. rewrite K1, K2. clear K1 K2.
    apply G_mono, scaled_range; [lia|apply pow2_pos; lia].
  - apply nnv_key_lt_finite; [exact V2|]. rewrite K2. clear K1 K2.
    apply Z.le_lt_trans with (G (key x' * 2 ^ 1074)).
    + apply G_mono, scaled_range; [lia|apply pow2_pos; lia].
    + rewrite (G_key x' Fx'). apply nonneg_finite_key_lt, Fx'.
Qed.

Lemma ceil_below (x x' : number) : below x x' -> below (Math_ceil x) (Math_ceil x').
Proof.
  intros Bx. pose proof Bx as (Hx & Hx' & K).
  destruct (nnv_cases x' Hx') as [Fx'|Ex'].
  - pose proof (below_finite x x' Bx Fx') as Fx.
    destruct (ceil_key x Fx) as [V1 K1]. destruct (ceil_key x' Fx') as [V2 K2].
    repeat split; try assumption. rewrite K1, K2. clear K1 K2.
    apply G_mono, scaled_range; [split|apply pow2_pos; lia].
    + apply cdiv_nonneg; [apply pow2_pos; lia|apply key_nonneg].
    + apply cdiv_mono; [apply pow2_pos; lia|exact K].
  - rewrite Ex'. change (Math_ceil (S754_infinity false)) with (S754_infinity false).
    apply below_infinity. destruct (nnv_cases x Hx) as [Fx|Ex].
    + apply (ceil_key x Fx).
    + rewrite Ex. reflexivity.
Qed.

(** ** Integer literals and counts *)

Lemma ofZ_key (n : Z) :
  0 <= n -> nnv (ofZ n) = true /\ key (ofZ n) = G (n * 2 ^ 2148).
Proof.
  intros Hn. destruct n as [|p|p]; try lia.
  - split; reflexivity.
  - unfold ofZ. cbn [binary_normalize]. apply (binary_round_key p 0). lia.
Qed.

(** A count of three or more dependents is charged as three. *)
Lemma Math_min_count (n : Z) : 3 <= n -> Math_min (ofZ n) (ofZ 3) = ofZ 3.
Proof.
  intros Hn. destruct (ofZ_key n ltac:(lia)) as [Vn Kn].
  destruct (ofZ_key 3 ltac:(lia)) as [V3 K3].
  destruct (min_key (ofZ n) (ofZ 3) Vn V3) as [Vm Km].
  apply key_inj; [exact Vm|exact V3|]. rewrite Km, Kn, K3. clear Km Kn K3.
  apply Z.min_r, G_mono, scaled_range; [lia|apply pow2_pos; lia].
Qed.

(** ** C1: employer pension contribution *)

(** C1. For every pension basis salary, [calculatePension] is the rounding
    of the pension-table tier times the pension rate: as the double
    computation over the tier returned by [lookupTier], and, that double
    being the exact decimal result on every tier of the table, as the
    integer nearest to 6% of the tier.  The pension table is a table of
    its own: it is neither the labor nor the health table, and the three
    tables start and end at different tiers. *)
Theorem C1_pension_contribution (b : number) :
  calculatePension b = Math_round (mul (lookupTier PENSION_BRACKETS b) PENSION_RATE)
  /\ (exists t, In t PENSION_TIERS
                /\ lookupTier PENSION_BRACKETS b = ofZ t
                /\ calculatePension b = ofZ (roundHalfUp (6 * t) 100))
  /\ PENSION_BRACKETS <> LABOR_BRACKETS
  /\ PENSION_BRACKETS <> HEALTH_BRACKETS
  /\ LABOR_BRACKETS <> HEALTH_BRACKETS
  /\ (List.hd NaN LABOR_BRACKETS, List.last LABOR_BRACKETS NaN) = (ofZ 11100, ofZ 45800)
  /\ (List.hd NaN HEALTH_BRACKETS, List.last HEALTH_BRACKETS NaN) = (ofZ 28590, ofZ 313000)
  /\ (List.hd NaN PENSION_BRACKETS, List.last PENSION_BRACKETS NaN) = (ofZ 1500, ofZ 150000).
Proof.
  split; [|split].
  - unfold calculatePension, getPensionInsuredSalary.
    now rewrite bracketOf_lookupTier.
  - destruct (bracketOf_tier_check PENSION_TIERS pensionTierOk b) as (t & Hin & Hok & Ht).
    + discriminate.
    + vm_compute. reflexivity.
    + exists t. rewrite <- bracketOf_lookupTier.
      unfold calculatePension, getPensionInsuredSalary, PENSION_BRACKETS.
      rewrite Ht. split; [exact Hin|]. split; [reflexivity|].
      apply bool_decide_eq_true_1 in Hok. exact Hok.
  - repeat split; try (vm_compute; reflexivity); vm_compute; discriminate.
Qed.

(** The earlier revision of the rules has no pension table: above the
    labor cap its pension contribution is the labor-capped one. *)
Lemma legacy_pension_uses_labor_table :
  Legacy.calculatePension (ofZ 66000) = ofZ 2748
  /\ calculatePension (ofZ 66000) = ofZ 4008.
Proof. split; vm_compute; reflexivity. Qed.

(** ** C2: the worked aggregate of the sample record *)

Lemma sumAllowances_amounts (l : list Allowance.t) :
  sumAllowances l = fold_left add (List.map Allowance.amount l) (ofZ 0).
Proof.
  unfold sumAllowances. generalize (ofZ 0).
  induction l as [|c l IH]; intros acc; [reflexivity|]. apply IH.
Qed.

Lemma sumDeductions_amounts (l : list Deduction.t) :
  sumDeductions l = fold_left add (List.map Deduction.amount l) (ofZ 0).
Proof.
  unfold sumDeductions. generalize (ofZ 0).
  induction l as [|c l IH]; intros acc; [reflexivity|]. apply IH.
Qed.

Lemma computePayroll_sameInputs (a b : Employee.t) :
  sameInputs a b ->
  payrollFigures (computePayroll a) = payrollFigures (computePayroll b).
Proof.
  intros (H1 & H2 & H3 & H4 & H5 & H6 & H7 & H8 & H9 & H10 & H11).
  unfold payrollFigures, computePayroll; cbn [insuredSalary insuredSalaryHealth
    insuredSalaryPension laborInsuranceEmp healthInsuranceEmp totalCustomDeductions
    laborInsuranceCo healthInsuranceCo pensionCompany overtimePay grossSalary
    totalDeductions netPay totalCompanyCost].
  rewrite !sumAllowances_amounts, !sumDeductions_amounts.
  rewrite H1, H2, H3, H4, H5, H6, H7, H8, H9, H10, H11. reflexivity.
Qed.

Lemma sample_figures :
  payrollFigures (computePayroll sampleEmployee)
  = List.map ofZ [ 45800; 72800; 72800; 1145; 1129; 0; 4007; 3568; 4368;
                   1192; 72192; 2274; 69918; 81861 ].
Proof. vm_compute. reflexivity. Qed.

(** C2, as the code computes it.  For an employee record with base salary
    60000, meal allowance 3000, fuel allowance 1000, attendance bonus 2000,
    insurance on all fixed components, 3 weekday overtime hours, one custom
    allowance of 5000, no custom deduction and no dependent, the gross
    salary is 72192 and the employee labor insurance 1145; the insurance
    basis is the fixed monthly total 71000, custom allowance included, so
    the employee health insurance is 1129, the total deductions 2274 and
    the net pay 69918. *)
Theorem C2_sample_aggregate (emp : Employee.t) :
  sameInputs emp sampleEmployee ->
  let p := computePayroll emp in
  grossSalary p = ofZ 72192
  /\ laborInsuranceEmp p = ofZ 1145
  /\ healthInsuranceEmp p = ofZ 1129
  /\ totalDeductions p = ofZ 2274
  /\ netPay p = ofZ 69918
  /\ insuredSalaryHealth p = ofZ 72800.
Proof.
  intros H p. apply computePayroll_sameInputs in H. fold p in H. clearbody p.
  rewrite sample_figures in H.
  assert (E : forall i, List.nth i (payrollFigures p) NaN
              = List.nth i (List.map ofZ [ 45800; 72800; 72800; 1145; 1129; 0;
                  4007; 3568; 4368; 1192; 72192; 2274; 69918; 81861 ]) NaN)
    by (intros i; rewrite H; reflexivity).
  clear H.
  split; [exact (E 10%nat)|]. split; [exact (E 3%nat)|].
  split; [exact (E 4%nat)|]. split; [exact (E 11%nat)|].
  split; [exact (E 12%nat)|exact (E 1%nat)].
Qed.

Lemma C2_sample_aggregate_witness :
  sameInputs sampleEmployee sampleEmployee
  /\ healthInsuranceEmp (computePayroll sampleEmployee) = ofZ 1129.
Proof.
  split.
  - repeat split; reflexivity.
  - apply (C2_sample_aggregate sampleEmployee). repeat split; reflexivity.
Defined.

(** The figures of the specification's worked example are not those of the
    code: health insurance 1037, total deductions 2182 and net pay 70010 are
    not what the sample record yields. *)
Lemma C2_spec_figures_refuted :
  ~ (let p := computePayroll sampleEmployee in
     grossSalary p = ofZ 72192
     /\ laborInsuranceEmp p = ofZ 1145
     /\ healthInsuranceEmp p = ofZ 1037
     /\ totalDeductions p = ofZ 2182
     /\ netPay p = ofZ 70010).
Proof.
  intros (_ & _ & H & _). vm_compute in H. discriminate H.
Qed.

(** Even on the basis 66000 the specification assumes, the single share is
    1036, not 1037. *)
Lemma health_share_at_66000 :
  calculateHealthInsurance (ofZ 66000) (ofZ 0) = ofZ 1036.
Proof. vm_compute. reflexivity. Qed.

(** ** C3: total company cost *)

(** C3. For every employee record the total company cost of the payroll
    result is net pay plus the employer labor insurance, the employer health
    insurance and the pension contribution, summed in that order; the
    gross-salary-based total of the earlier revision is a different figure
    (on the sample record 82515 against 81861). *)
Theorem C3_total_company_cost (emp : Employee.t) :
  let p := computePayroll emp in
  totalCompanyCost p
  = add (add (add (netPay p) (laborInsuranceCo p)) (healthInsuranceCo p))
        (pensionCompany p)
  /\ netPay p = sub (grossSalary p) (totalDeductions p)
  /\ totalCompanyCost (computePayroll sampleEmployee) = ofZ 81861
  /\ Legacy.totalCompanyCost (Legacy.computePayroll sampleEmployee) = ofZ 82515.
Proof.
  cbv zeta. split; [reflexivity|]. split; [reflexivity|].
  split; vm_compute; reflexivity.
Qed.

(** ** C4: overtime pay against the exact formula *)

(** C4 at a regular salary of 30000 with 13 weekday overtime hours.  The
    exact grand total is 125 * 2 * 4/3 + 125 * 11 * 5/3 = 2625, an integer,
    so the contract yields 2625; the binary64 accumulation of the code
    reaches 2625.0000000000005 and [Math.ceil] returns 2626.  The three
    worked scenarios of the specification (1192, 2200, 2934) agree with the
    exact formula. *)
Theorem C4_overtime_ceiling_off_by_one :
  calculateOvertimePay (ofZ 30000) (ofZ 13) (ofZ 0) (ofZ 0) = ofZ 2626
  /\ Exact.overtimeTotal (toQ (ofZ 30000)) (toQ (ofZ 13)) (toQ (ofZ 0)) (toQ (ofZ 0))
     == 2625
  /\ Exact.computeOvertimePay (toQ (ofZ 30000)) (toQ (ofZ 13)) (toQ (ofZ 0)) (toQ (ofZ 0))
     = 2625%Z
  /\ toQ (overtimeTotal (div (ofZ 30000) (ofZ 240)) (ofZ 13) (ofZ 0) (ofZ 0))
     == 2625 + (1 # 2199023255552)
  /\ calculateOvertimePay (ofZ 66000) (ofZ 3) (ofZ 0) (ofZ 0)
     = ofZ (Exact.computeOvertimePay 66000 3 0 0)
  /\ calculateOvertimePay (ofZ 66000) (ofZ 0) (ofZ 0) (ofZ 8)
     = ofZ (Exact.computeOvertimePay 66000 0 0 8)
  /\ calculateOvertimePay (ofZ 66000) (ofZ 0) (ofZ 0) (ofZ 10)
     = ofZ (Exact.computeOvertimePay 66000 0 0 10).
Proof.
  repeat split; vm_compute; reflexivity.
Qed.

(** ** C5: employee health insurance *)

(** C5. For every basis salary and dependent count the employee health
    insurance is the rounded single share of the health-table tier times
    (1 + min(dependents, 3)), with no rounding after the product.  The
    double computation agrees with exact decimals on every tier: for every
    whole number n of dependents the amount is the integer nearest to
    tier * 0.0517 * 0.30, multiplied by 1 + min(n, 3).  Every count of at
    least 3 is charged as 3; in particular 99 dependents cost what 3 cost. *)
Theorem C5_health_employee_share (s d : number) :
  calculateHealthInsurance s d
  = mul (Math_round (mul (mul (lookupTier HEALTH_BRACKETS s) HEALTH_INSURANCE_RATE)
                         HEALTH_EMPLOYEE_SHARE))
        (add (ofZ 1) (Math_min d (ofZ 3)))
  /\ (exists t, In t HEALTH_TIERS
        /\ lookupTier HEALTH_BRACKETS s = ofZ t
        /\ forall n, 0 <= n ->
             calculateHealthInsurance s (ofZ n)
             = ofZ (healthSingleShare t * (1 + Z.min n 3)))
  /\ calculateHealthInsurance s (ofZ 3) = calculateHealthInsurance s (ofZ 99)
  /\ (le (ofZ 3) d = true ->
      calculateHealthInsurance s d = calculateHealthInsurance s (ofZ 3)).
Proof.
  split; [|split; [|split]].
  - unfold calculateHealthInsurance, getHealthInsuredSalary.
    now rewrite bracketOf_lookupTier.
  - destruct (bracketOf_tier_check HEALTH_TIERS healthTierOk s) as (t & Hin & Hok & Ht).
    + discriminate.
    + vm_compute. reflexivity.
    + exists t. rewrite <- bracketOf_lookupTier. split; [exact Hin|].
      split; [exact Ht|]. intros n Hn.
      unfold healthTierOk in Hok. rewrite forallb_forall in Hok.
      assert (Hcase : forall k, In k [0; 1; 2; 3] ->
                calculateHealthInsurance s (ofZ k) = ofZ (healthSingleShare t * (1 + k))).
      { intros k Hk. unfold calculateHealthInsurance, getHealthInsuredSalary.
        unfold HEALTH_BRACKETS. rewrite Ht.
        specialize (Hok k Hk). apply bool_decide_eq_true_1 in Hok. exact Hok. }
      destruct (Z.le_gt_cases 3 n) as [Hbig|Hsmall].
      * replace (Z.min n 3) with 3 by lia. rewrite <- (Hcase 3) by (simpl; auto).
        unfold calculateHealthInsurance. rewrite (Math_min_count n Hbig).
        reflexivity.
      * replace (Z.min n 3) with n by lia. apply Hcase.
        assert (Hn3 : n = 0 \/ n = 1 \/ n = 2) by lia.
        simpl. intuition.
  - unfold calculateHealthInsurance. reflexivity.
  - intros H. unfold calculateHealthInsurance.
    rewrite (Math_min_cap d H). reflexivity.
Qed.

Lemma C5_health_employee_share_witness :
  le (ofZ 3) (ofZ 99) = true
  /\ calculateHealthInsurance (ofZ 66000) (ofZ 99)
     = calculateHealthInsurance (ofZ 66000) (ofZ 3).
Proof.
  split; [reflexivity|].
  destruct (C5_health_employee_share (ofZ 66000) (ofZ 99)) as (_ & _ & _ & Hcap).
  apply Hcap. reflexivity.
Defined.

(** ** C6: the lookup is a capped staircase *)

Lemma ascending_app_r (l1 l2 : list number) :
  ascending (l1 ++ l2) = true -> ascending l2 = true.
Proof.
  induction l1 as [|a l1 IH]; simpl; [auto|].
  intros H. apply andb_true_iff in H. apply IH, H.
Qed.

Lemma ascending_head (a : number) (l : list number) (t : number) :
  ascending (a :: l) = true -> In t l -> SFltb a t = true.
Proof.
  simpl. intros H Hin. apply andb_true_iff in H. destruct H as [H _].
  rewrite forallb_forall in H. auto.
Qed.

Lemma scanBrackets_split (brackets : list number) (salary b : number) :
  scanBrackets brackets salary = Some b ->
  exists pre post, brackets = pre ++ b :: post
                   /\ (forall t, In t pre -> le salary t = false)
                   /\ le salary b = true.
Proof.
  induction brackets as [|c rest IH]; simpl; [discriminate|].
  destruct (le salary c) eqn:E.
  - intros [= <-]. exists [], rest. simpl. tauto.
  - intros H. destruct (IH H) as (pre & post & -> & Hpre & Hb).
    exists (c :: pre), post. split; [reflexivity|]. split; [|exact Hb].
    intros t [<-|Ht]; auto.
Qed.

Lemma scanBrackets_None (brackets : list number) (salary : number) :
  scanBrackets brackets salary = None <->
  (forall t, In t brackets -> le salary t = false).
Proof.
  induction brackets as [|c rest IH]; simpl.
  - split; [intros _ t []|reflexivity].
  - destruct (le salary c) eqn:E.
    + split; [discriminate|]. intros H. rewrite (H c) in E; [discriminate|auto].
    + rewrite IH. split.
      * intros H t [<-|Ht]; auto.
      * intros H t Ht. auto.
Qed.


Lemma tables_ascending :
  ascending LABOR_BRACKETS = true
  /\ ascending HEALTH_BRACKETS = true
  /\ ascending PENSION_BRACKETS = true.
Proof. repeat split; vm_compute; reflexivity. Qed.


(** ** C7: overtime pay is monotone in the hours *)

Lemma overtimeTotal_steps (hourlyRate weekdayHours restDayHours holidayHours : number) :
  overtimeTotal hourlyRate weekdayHours restDayHours holidayHours
  = holidayStep hourlyRate holidayHours
      (tieredStep hourlyRate restDayHours (tieredStep hourlyRate weekdayHours (ofZ 0))).
Proof. reflexivity. Qed.

Lemma multiplier_facts :
  nonneg_finite (div (ofZ 4) (ofZ 3)) = true /\ 0 < key (div (ofZ 4) (ofZ 3))
  /\ nonneg_finite (div (ofZ 5) (ofZ 3)) = true /\ 0 < key (div (ofZ 5) (ofZ 3))
  /\ nonneg_finite (ofZ 2) = true /\ nonneg_finite (ofZ 8) = true
  /\ nonneg_finite (ofZ 0) = true /\ key (ofZ 0) = 0.
Proof. repeat split; vm_compute; reflexivity. Qed.

Lemma tiered_term_below (rate x x' c : number) :
  nonneg_finite rate = true -> below x x' -> nonneg_finite x' = true ->
  nonneg_finite c = true -> 0 < key c ->
  below (mul (mul rate x) c) (mul (mul rate x') c).
Proof.
  intros Fr Bx Fx' Fc Hc. apply mul_below_l; [|exact Fc|exact Hc].
  apply mul_below_r; assumption.
Qed.

Lemma addTieredHours_below (rate h h' t t' : number) :
  nonneg_finite rate = true -> nonneg_finite h = true -> nonneg_finite h' = true ->
  key h <= key h' -> below t t' ->
  below (addTieredHours rate h t) (addTieredHours rate h' t').
Proof.
  intros Fr Fh Fh' K Bt.
  destruct multiplier_facts as (F43 & P43 & F53 & P53 & F2 & _ & _ & _).
  assert (Bh : below h h') by (repeat split; try apply nonneg_finite_nnv; assumption).
  destruct (min_below h h' (ofZ 2) Bh F2) as [Bmin Fmin].
  destruct (max_zero_sub_below h h' (ofZ 2) Fh Fh' F2 K) as [Bmax Fmax].
  unfold addTieredHours. apply add_below; [apply add_below; [exact Bt|]|].
  - apply tiered_term_below; assumption.
  - apply tiered_term_below; assumption.
Qed.

Lemma addTieredHours_increasing (rate h t : number) :
  nonneg_finite rate = true -> nonneg_finite h = true -> nnv t = true ->
  below t (addTieredHours rate h t).
Proof.
  intros Fr Fh Ht.
  destruct multiplier_facts as (F43 & P43 & F53 & P53 & F2 & _ & _ & _).
  pose proof (nonneg_finite_nnv h Fh) as Nh.
  assert (Bh : below h h) by (apply below_refl, Nh).
  destruct (min_below h h (ofZ 2) Bh F2) as [Bmin Fmin].
  destruct (max_zero_sub_below h h (ofZ 2) Fh Fh F2 ltac:(lia)) as [Bmax Fmax].
  pose proof (tiered_term_below rate _ _ _ Fr Bmin Fmin F43 P43) as (N1 & _ & _).
  pose proof (tiered_term_below rate _ _ _ Fr Bmax Fmax F53 P53) as (N2 & _ & _).
  unfold addTieredHours. eapply below_trans.
  - apply (add_increasing t _ Ht N1).
  - apply add_increasing; [apply add_nnv; assumption|exact N2].
Qed.

Lemma gt_zero_key (h : number) :
  nonneg_finite h = true -> gt h (ofZ 0) = (0 <? key h).
Proof.
  intros Fh. rewrite gt_key; [reflexivity|apply nonneg_finite_nnv, Fh|reflexivity].
Qed.

Lemma tieredStep_below (rate h h' t t' : number) :
  nonneg_finite rate = true -> nonneg_finite h = true -> nonneg_finite h' = true ->
  key h <= key h' -> below t t' ->
  below (tieredStep rate h t) (tieredStep rate h' t').
Proof.
  intros Fr Fh Fh' K Bt. unfold tieredStep.
  rewrite (gt_zero_key h Fh), (gt_zero_key h' Fh').
  destruct (Z.ltb_spec 0 (key h)) as [Hp|Hz];
    destruct (Z.ltb_spec 0 (key h')) as [Hp'|Hz']; try lia.
  - apply addTieredHours_below; assumption.
  - eapply below_trans; [exact Bt|].
    apply addTieredHours_increasing; try assumption. apply Bt.
  - exact Bt.
Qed.

Lemma holidayStep_below (rate h h' t t' : number) :
  nonneg_finite rate = true -> nonneg_finite h = true -> nonneg_finite h' = true ->
  key h <= key h' -> below t t' ->
  below (holidayStep rate h t) (holidayStep rate h' t').
Proof.
  intros Fr Fh Fh' K Bt.
  destruct multiplier_facts as (F43 & P43 & _ & _ & _ & F8 & _ & _).
  pose proof (nonneg_finite_nnv h Fh) as Nh. pose proof (nonneg_finite_nnv h' Fh') as Nh'.
  pose proof (nonneg_finite_nnv _ F8) as N8.
  destruct (mul_key rate (ofZ 8) Fr F8) as [Nday _].
  assert (Bday : below (add t (mul rate (ofZ 8))) (add t' (mul rate (ofZ 8))))
    by (apply add_below; [exact Bt|apply below_refl, Nday]).
  assert (Bup : below t' (add t' (mul rate (ofZ 8))))
    by (apply add_increasing; [apply Bt|exact Nday]).
  unfold holidayStep. rewrite (gt_zero_key h Fh), (gt_zero_key h' Fh').
  rewrite (gt_key h (ofZ 8) Nh N8), (gt_key h' (ofZ 8) Nh' N8).
  assert (Hextra : key (ofZ 8) < key h' ->
            nnv (mul (mul rate (sub h' (ofZ 8))) (div (ofZ 4) (ofZ 3))) = true).
  { intros H8. destruct (sub_below h' h' (ofZ 8) Fh' Fh' F8 H8 ltac:(lia)) as [Bs Fs].
    apply (tiered_term_below rate _ _ _ Fr Bs Fs F43 P43). }
  destruct (Z.ltb_spec 0 (key h)) as [Hp|Hz];
    destruct (Z.ltb_spec 0 (key h')) as [Hp'|Hz']; try lia; cbv zeta.
  - destruct (Z.ltb_spec (key (ofZ 8)) (key h)) as [H8|H8];
      destruct (Z.ltb_spec (key (ofZ 8)) (key h')) as [H8'|H8']; try lia.
    + destruct (sub_below h h' (ofZ 8) Fh Fh' F8 H8 K) as [Bs Fs].
      apply add_below; [exact Bday|].
      apply tiered_term_below; assumption.
    + eapply below_trans; [exact Bday|].
      apply add_increasing; [apply Bday|apply Hextra, H8'].
    + exact Bday.
  - eapply below_trans; [exact Bt|].
    destruct (Z.ltb_spec (key (ofZ 8)) (key h')) as [H8'|H8'].
    + eapply below_trans; [exact Bup|].
      apply add_increasing; [apply Bday|apply Hextra, H8'].
    + exact Bup.
  - exact Bt.
Qed.

Lemma calculateOvertimePay_below (s w r h w' r' h' : number) :
  nonneg_finite s = true ->
  nonneg_finite w = true -> nonneg_finite r = true -> nonneg_finite h = true ->
  nonneg_finite w' = true -> nonneg_finite r' = true -> nonneg_finite h' = true ->
  key w <= key w' -> key r <= key r' -> key h <= key h' ->
  below (calculateOvertimePay s w r h) (calculateOvertimePay s w' r' h').
Proof.
  intros Fs Fw Fr Fh Fw' Fr' Fh' Kw Kr Kh. unfold calculateOvertimePay.
  pose proof (rate_nonneg_finite s Fs) as Frate.
  apply ceil_below. rewrite !overtimeTotal_steps.
  apply holidayStep_below; try assumption.
  apply tieredStep_below; try assumption.
  apply tieredStep_below; try assumption.
  apply below_refl. reflexivity.
Qed.

Lemma le_key_le (x y : number) :
  nonneg_finite x = true -> nonneg_finite y = true ->
  le x y = true -> key x <= key y.
Proof.
  intros Fx Fy H. rewrite le_key in H by (apply nonneg_finite_nnv; assumption).
  apply Z.leb_le, H.
Qed.

(** C7. For finite non-negative inputs, raising any one of the weekday,
    rest-day or holiday hours, the other inputs fixed, never lowers the
    overtime pay (in the binary64 arithmetic of the code, inputs of any
    size). *)
Theorem C7_overtime_monotone (regularSalary w r h w' r' h' : number) :
  nonneg_finite regularSalary = true ->
  nonneg_finite w = true -> nonneg_finite r = true -> nonneg_finite h = true ->
  nonneg_finite w' = true -> nonneg_finite r' = true -> nonneg_finite h' = true ->
  (le w w' = true ->
   le (calculateOvertimePay regularSalary w r h)
      (calculateOvertimePay regularSalary w' r h) = true)
  /\ (le r r' = true ->
      le (calculateOvertimePay regularSalary w r h)
         (calculateOvertimePay regularSalary w r' h) = true)
  /\ (le h h' = true ->
      le (calculateOvertimePay regularSalary w r h)
         (calculateOvertimePay regularSalary w r h') = true).
Proof.
  intros Fs Fw Fr Fh Fw' Fr' Fh'. repeat split; intros H; apply below_le;
    apply calculateOvertimePay_below; try assumption; try lia;
    apply le_key_le; assumption.
Qed.

Lemma C7_overtime_monotone_witness :
  le (calculateOvertimePay (ofZ 66000) (ofZ 3) (ofZ 0) (ofZ 8))
     (calculateOvertimePay (ofZ 66000) (dec 35 10) (ofZ 0) (ofZ 8)) = true
  /\ le (calculateOvertimePay (ofZ 66000) (ofZ 3) (ofZ 0) (ofZ 8))
        (calculateOvertimePay (ofZ 66000) (ofZ 3) (ofZ 2) (ofZ 8)) = true
  /\ le (calculateOvertimePay (ofZ 66000) (ofZ 3) (ofZ 0) (ofZ 8))
        (calculateOvertimePay (ofZ 66000) (ofZ 3) (ofZ 0) (ofZ 10)) = true.
Proof.
  destruct (C7_overtime_monotone (ofZ 66000) (ofZ 3) (ofZ 0) (ofZ 8)
              (dec 35 10) (ofZ 2) (ofZ 10)) as (Hw & Hr & Hh); try reflexivity.
  split; [apply Hw; reflexivity|]. split; [apply Hr; reflexivity|apply Hh; reflexivity].
Defined.

(** Without the guards: the tiered formula at zero hours adds nothing, so
    the overtime pay is the ceiling of the unguarded accumulation. *)
Lemma addTieredHours_zero (rate t : number) :
  nonneg_finite rate = true -> nnv t = true ->
  addTieredHours rate (ofZ 0) t = t.
Proof.
  intros Fr Ht. unfold addTieredHours.
  change (Math_min (ofZ 0) (ofZ 2)) with (S754_zero false).
  change (Math_max (ofZ 0) (sub (ofZ 0) (ofZ 2))) with (S754_zero false).
  assert (Hz : mul (mul rate (S754_zero false)) (div (ofZ 4) (ofZ 3)) = S754_zero false
               /\ mul (mul rate (S754_zero false)) (div (ofZ 5) (ofZ 3)) = S754_zero false).
  { destruct rate as [[]|[]| |[] m e]; try discriminate Fr; split; reflexivity. }
  destruct Hz as [-> ->].
  destruct t as [[]|[]| |[] m e]; try discriminate Ht; reflexivity.
Qed.

Lemma nonneg_finite_zero_key (h : number) :
  nonneg_finite h = true -> key h <= 0 -> h = ofZ 0.
Proof.
  intros Fh Hk. apply key_inj; [apply nonneg_finite_nnv, Fh|reflexivity|].
  pose proof (key_nonneg h). change (key (ofZ 0)) with 0. lia.
Qed.

Lemma tieredStep_unguarded (rate h t : number) :
  nonneg_finite rate = true -> nonneg_finite h = true -> nnv t = true ->
  tieredStep rate h t = addTieredHours rate h t.
Proof.
  intros Fr Fh Ht. unfold tieredStep. rewrite (gt_zero_key h Fh).
  destruct (Z.ltb_spec 0 (key h)) as [Hp|Hz]; [reflexivity|].
  rewrite (nonneg_finite_zero_key h Fh Hz). symmetry.
  apply addTieredHours_zero; assumption.
Qed.

Lemma addTieredHours_nnv (rate h t : number) :
  nonneg_finite rate = true -> nonneg_finite h = true -> nnv t = true ->
  nnv (addTieredHours rate h t) = true.
Proof. intros Fr Fh Ht. apply (addTieredHours_increasing rate h t Fr Fh Ht). Qed.

Lemma calculateOvertimePay_unguarded (s w r h : number) :
  nonneg_finite s = true -> nonneg_finite w = true ->
  nonneg_finite r = true -> nonneg_finite h = true ->
  let rate := div s (ofZ 240) in
  calculateOvertimePay s w r h
  = Math_ceil (holidayStep rate h
                 (addTieredHours rate r (addTieredHours rate w (ofZ 0)))).
Proof.
  intros Fs Fw Fr Fh rate. unfold calculateOvertimePay. fold rate.
  pose proof (rate_nonneg_finite s Fs) as Frate. fold rate in Frate.
  rewrite overtimeTotal_steps.
  rewrite (tieredStep_unguarded rate w (ofZ 0) Frate Fw eq_refl).
  rewrite (tieredStep_unguarded rate r _ Frate Fr
             (addTieredHours_nnv rate w (ofZ 0) Frate Fw eq_refl)).
  reflexivity.
Qed.

(** ** C8 and C9: the batch *)

Lemma payrolls_fold (employees : list Employee.t) :
  payrolls employees = fold_left setPayroll employees ∅.
Proof. reflexivity. Qed.

Lemma fold_setPayroll_other (l : list Employee.t) (m : gmap string CalculatedPayroll)
    (k : string) :
  (forall o, In o l -> Employee.id o <> k) ->
  fold_left setPayroll l m !! k = m !! k.
Proof.
  revert m. induction l as [|e l IH]; intros m H; [reflexivity|].
  cbn [fold_left]. rewrite IH by (intros o Ho; apply H; right; exact Ho).
  unfold setPayroll. apply lookup_insert_ne. apply H. left. reflexivity.
Qed.

Lemma fold_setPayroll_app (l1 l2 : list Employee.t) (m : gmap string CalculatedPayroll) :
  fold_left setPayroll (l1 ++ l2) m = fold_left setPayroll l2 (fold_left setPayroll l1 m).
Proof. apply fold_left_app. Qed.

(** The entry of an id is the payroll of the last record carrying it. *)
Lemma payrolls_lookup_last (before after : list Employee.t) (emp : Employee.t) :
  (forall o, In o after -> Employee.id o <> Employee.id emp) ->
  payrolls (before ++ emp :: after) !! Employee.id emp = Some (computePayroll emp).
Proof.
  intros H. rewrite payrolls_fold, fold_setPayroll_app. cbn [fold_left].
  rewrite fold_setPayroll_other by exact H.
  unfold setPayroll at 1. apply lookup_insert_eq.
Qed.

Lemma payrolls_lookup_None (l : list Employee.t) (k : string) :
  (forall o, In o l -> Employee.id o <> k) -> payrolls l !! k = None.
Proof.
  intros H. rewrite payrolls_fold, fold_setPayroll_other by exact H.
  apply lookup_empty.
Qed.

Lemma NoDup_ids_split (l : list Employee.t) (emp : Employee.t) :
  List.NoDup (List.map Employee.id l) -> In emp l ->
  exists before after, l = before ++ emp :: after
    /\ forall o, In o (before ++ after) -> Employee.id o <> Employee.id emp.
Proof.
  intros Hnd Hin. destruct (in_split _ _ Hin) as (before & after & ->).
  exists before, after. split; [reflexivity|].
  rewrite map_app in Hnd. cbn [List.map] in Hnd.
  apply List.NoDup_remove_2 in Hnd. intros o Ho Heq. apply Hnd.
  rewrite <- Heq, <- map_app. apply in_map. exact Ho.
Qed.

Lemma payrolls_lookup_NoDup (l : list Employee.t) (emp : Employee.t) :
  List.NoDup (List.map Employee.id l) -> In emp l ->
  payrolls l !! Employee.id emp = Some (computePayroll emp).
Proof.
  intros Hnd Hin. destruct (NoDup_ids_split l emp Hnd Hin) as (b & a & -> & H).
  apply payrolls_lookup_last. intros o Ho. apply H, in_or_app. right. exact Ho.
Qed.

Lemma payrolls_lookup_Some (l : list Employee.t) (k : string) (p : CalculatedPayroll) :
  payrolls l !! k = Some p ->
  exists emp, In emp l /\ Employee.id emp = k /\ p = computePayroll emp.
Proof.
  rewrite payrolls_fold.
  assert (G : forall m, fold_left setPayroll l m !! k = Some p ->
              m !! k = Some p \/
              exists emp, In emp l /\ Employee.id emp = k /\ p = computePayroll emp).
  { induction l as [|e l IH]; intros m H; [left; exact H|].
    cbn [fold_left] in H. destruct (IH _ H) as [Hm|(emp & Hin & Hid & Hp)].
    - unfold setPayroll in Hm. destruct (decide (Employee.id e = k)) as [Heq|Hne].
      + rewrite Heq, lookup_insert_eq in Hm. injection Hm as <-.
        right. exists e. split; [left; reflexivity|]. auto.
      + rewrite lookup_insert_ne in Hm by exact Hne. left. exact Hm.
    - right. exists emp. split; [right; exact Hin|]. auto. }
  intros H. destruct (G ∅ H) as [Hm|Hex]; [|exact Hex].
  rewrite lookup_empty in Hm. discriminate.
Qed.

Lemma payrolls_size (l : list Employee.t) :
  List.NoDup (List.map Employee.id l) -> size (payrolls l) = length l.
Proof.
  rewrite payrolls_fold.
  assert (G : forall m, List.NoDup (List.map Employee.id l) ->
              (forall o, In o l -> m !! Employee.id o = None) ->
              size (fold_left setPayroll l m) = (length l + size m)%nat).
  { induction l as [|e l IH]; intros m Hnd Hfresh; [reflexivity|].
    cbn [fold_left List.map length] in *. apply List.NoDup_cons_iff in Hnd.
    destruct Hnd as [Hnotin Hnd]. rewrite IH.
    - unfold setPayroll. rewrite map_size_insert_None; [lia|].
      apply Hfresh. left. reflexivity.
    - exact Hnd.
    - intros o Ho. unfold setPayroll. rewrite lookup_insert_ne.
      + apply Hfresh. right. exact Ho.
      + intros Heq. apply Hnotin. rewrite Heq. apply in_map. exact Ho. }
  intros Hnd. rewrite G; [rewrite map_size_empty; lia|exact Hnd|].
  intros o _. apply lookup_empty.
Qed.

Lemma payrolls_permutation (l l' : list Employee.t) :
  List.NoDup (List.map Employee.id l) -> Permutation l l' -> payrolls l' = payrolls l.
Proof.
  intros Hnd Hperm. apply map_eq. intros k.
  assert (Hnd' : List.NoDup (List.map Employee.id l')).
  { eapply Permutation_NoDup; [|exact Hnd]. apply Permutation_map. exact Hperm. }
  destruct (payrolls l !! k) as [p|] eqn:E.
  - destruct (payrolls_lookup_Some _ _ _ E) as (emp & Hin & <- & ->).
    apply payrolls_lookup_NoDup; [exact Hnd'|].
    eapply Permutation_in; [exact Hperm|exact Hin].
  - destruct (payrolls l' !! k) as [p'|] eqn:E'; [|reflexivity].
    destruct (payrolls_lookup_Some _ _ _ E') as (emp & Hin & <- & ->).
    rewrite payrolls_lookup_NoDup in E; [discriminate|exact Hnd|].
    eapply Permutation_in; [apply Permutation_sym; exact Hperm|exact Hin].
Qed.

(** C8, on lists of records with pairwise distinct ids.  The batch holds
    exactly one entry per input record (as many entries as records, each
    record's payroll under its id, and no entry under any other key), and a
    reordering of the records yields the same mapping. *)
Theorem C8_batch_mapping (employees : list Employee.t) :
  List.NoDup (List.map Employee.id employees) ->
  size (payrolls employees) = length employees
  /\ (forall emp, In emp employees ->
        payrolls employees !! Employee.id emp = Some (computePayroll emp))
  /\ (forall k p, payrolls employees !! k = Some p ->
        exists emp, In emp employees /\ Employee.id emp = k /\ p = computePayroll emp)
  /\ (forall employees', Permutation employees employees' ->
        payrolls employees' = payrolls employees).
Proof.
  intros Hnd. split; [apply payrolls_size, Hnd|].
  split; [intros emp; apply payrolls_lookup_NoDup, Hnd|].
  split; [apply payrolls_lookup_Some|].
  intros l'. apply payrolls_permutation, Hnd.
Qed.

Lemma sample_ids_distinct :
  List.NoDup (List.map Employee.id [sampleEmployee; otherEmployee]).
Proof.
  apply List.NoDup_cons_iff. split.
  - intros [H|[]]. discriminate H.
  - apply List.NoDup_cons_iff. split; [intros []|apply List.NoDup_nil].
Defined.

Lemma C8_batch_mapping_witness :
  List.NoDup (List.map Employee.id [sampleEmployee; otherEmployee])
  /\ size (payrolls [sampleEmployee; otherEmployee]) = 2%nat.
Proof.
  split; [exact sample_ids_distinct|].
  apply (C8_batch_mapping [sampleEmployee; otherEmployee] sample_ids_distinct).
Defined.

(** Without distinct ids the batch is neither one entry per record nor
    order independent: two records sharing the id "1" leave one entry, the
    payroll of whichever comes last. *)
Lemma C8_duplicate_ids_refute :
  ~ (forall employees : list Employee.t,
       size (payrolls employees) = length employees
       /\ forall employees', Permutation employees employees' ->
            payrolls employees' = payrolls employees).
Proof.
  intros H. destruct (H [sampleEmployee; clashingEmployee]) as [Hsize _].
  revert Hsize. unfold payrolls. cbn [fold_left].
  change (Employee.id clashingEmployee) with (Employee.id sampleEmployee).
  rewrite insert_insert_eq, map_size_insert_None by apply lookup_empty.
  rewrite map_size_empty. cbn [length]. discriminate.
Qed.

Lemma duplicate_ids_order_matters :
  payrolls [sampleEmployee; clashingEmployee] !! "1" = Some (computePayroll clashingEmployee)
  /\ payrolls [clashingEmployee; sampleEmployee] !! "1" = Some (computePayroll sampleEmployee)
  /\ computePayroll clashingEmployee <> computePayroll sampleEmployee.
Proof.
  split; [|split].
  - apply (payrolls_lookup_last [sampleEmployee] [] clashingEmployee). intros o [].
  - apply (payrolls_lookup_last [clashingEmployee] [] sampleEmployee). intros o [].
  - intros H. apply (f_equal grossSalary) in H. revert H.
    vm_compute. discriminate.
Qed.

Lemma payroll_eq (p q : CalculatedPayroll) :
  employeeId p = employeeId q -> payrollFigures p = payrollFigures q -> p = q.
Proof.
  destruct p, q. unfold payrollFigures. cbn. intros -> H.
  injection H as -> -> -> -> -> -> -> -> -> -> -> -> -> ->. reflexivity.
Qed.

Lemma payrolls_lookup_own (batch : list Employee.t) (emp : Employee.t) :
  In emp batch ->
  (forall o, In o batch -> Employee.id o = Employee.id emp -> o = emp) ->
  payrolls batch !! Employee.id emp = Some (computePayroll emp).
Proof.
  induction batch as [|e l IH] using rev_ind; intros Hin Hown; [destruct Hin|].
  rewrite payrolls_fold, fold_setPayroll_app, <- payrolls_fold. cbn [fold_left].
  unfold setPayroll. destruct (decide (Employee.id e = Employee.id emp)) as [Heq|Hne].
  - rewrite (Hown e) by (try exact Heq; apply in_or_app; right; left; reflexivity).
    apply lookup_insert_eq.
  - rewrite lookup_insert_ne by exact Hne. apply IH.
    + apply in_app_or in Hin. destruct Hin as [Hin|[Hin|[]]]; [exact Hin|].
      subst e. contradiction Hne. reflexivity.
    + intros o Ho. apply Hown. apply in_or_app. left. exact Ho.
Qed.

(** With pairwise distinct ids no other record carries the id of a record of
    the batch. *)
Lemma distinct_ids_own (batch : list Employee.t) (emp : Employee.t) :
  List.NoDup (List.map Employee.id batch) -> In emp batch ->
  forall o, In o batch -> Employee.id o = Employee.id emp -> o = emp.
Proof.
  intros Hnd Hin o Ho Hid.
  destruct (NoDup_ids_split batch emp Hnd Hin) as (b & a & -> & H).
  apply in_app_or in Ho. destruct Ho as [Ho|[Ho|Ho]].
  - contradiction (H o (in_or_app _ _ _ (or_introl Ho)) Hid).
  - symmetry. exact Ho.
  - contradiction (H o (in_or_app _ _ _ (or_intror Ho)) Hid).
Qed.

(** C9, on batches in which no other record carries the id of the employee.
    The payroll of a record is determined by the record, and by nothing of it
    but its id and the fields the engine reads: records that agree on them
    have the same payroll, field for field and bit for bit.  In a batch the
    entry of the employee is that payroll, and it is the same in any other
    such batch: the other employees' records may be changed, added, removed
    and reordered. *)
Theorem C9_deterministic_noninterfering
    (emp : Employee.t) (batch batch' : list Employee.t) :
  In emp batch -> In emp batch' ->
  (forall o, In o batch -> Employee.id o = Employee.id emp -> o = emp) ->
  (forall o, In o batch' -> Employee.id o = Employee.id emp -> o = emp) ->
  (forall emp', Employee.id emp' = Employee.id emp -> sameInputs emp' emp ->
     computePayroll emp' = computePayroll emp)
  /\ payrolls batch !! Employee.id emp = Some (computePayroll emp)
  /\ payrolls batch' !! Employee.id emp = payrolls batch !! Employee.id emp.
Proof.
  intros Hin Hin' Hown Hown'. split.
  - intros emp' Hid Hsame. apply payroll_eq; [exact Hid|].
    apply computePayroll_sameInputs. exact Hsame.
  - rewrite !payrolls_lookup_own by assumption. split; reflexivity.
Qed.

Lemma C9_deterministic_noninterfering_witness :
  In sampleEmployee [sampleEmployee; otherEmployee; otherEmployee]
  /\ In sampleEmployee [otherEmployee; sampleEmployee]
  /\ (forall o, In o [sampleEmployee; otherEmployee; otherEmployee] ->
        Employee.id o = Employee.id sampleEmployee -> o = sampleEmployee)
  /\ (forall o, In o [otherEmployee; sampleEmployee] ->
        Employee.id o = Employee.id sampleEmployee -> o = sampleEmployee)
  /\ payrolls [otherEmployee; sampleEmployee] !! "1"
     = payrolls [sampleEmployee; otherEmployee; otherEmployee] !! "1".
Proof.
  assert (H1 : In sampleEmployee [sampleEmployee; otherEmployee; otherEmployee])
    by (left; reflexivity).
  assert (H2 : In sampleEmployee [otherEmployee; sampleEmployee])
    by (right; left; reflexivity).
  assert (H3 : forall o, In o [sampleEmployee; otherEmployee; otherEmployee] ->
                 Employee.id o = Employee.id sampleEmployee -> o = sampleEmployee).
  { intros o [<-|[<-|[<-|[]]]] Hid; [reflexivity|discriminate Hid|discriminate Hid]. }
  assert (H4 : forall o, In o [otherEmployee; sampleEmployee] ->
                 Employee.id o = Employee.id sampleEmployee -> o = sampleEmployee).
  { intros o [<-|[<-|[]]] Hid; [discriminate Hid|reflexivity]. }
  split; [exact H1|]. split; [exact H2|]. split; [exact H3|]. split; [exact H4|].
  exact (proj2 (proj2 (C9_deterministic_noninterfering sampleEmployee
                         [sampleEmployee; otherEmployee; otherEmployee]
                         [otherEmployee; sampleEmployee] H1 H2 H3 H4))).
Defined.

(** Without the condition on the ids the other records do interfere: beside a
    record of another employee that carries the same id "1", the entry of the
    sample employee is the payroll of that other record, not the one it has
    beside a record with the id "2". *)
Lemma C9_other_records_interfere :
  ~ (forall (emp : Employee.t) (before after before' after' : list Employee.t),
       payrolls (before' ++ emp :: after') !! Employee.id emp
       = payrolls (before ++ emp :: after) !! Employee.id emp).
Proof.
  intros H.
  destruct duplicate_ids_order_matters as (Hc & _ & Hne). apply Hne.
  assert (Hs : payrolls ([] ++ sampleEmployee :: [otherEmployee])
                 !! Employee.id sampleEmployee
               = Some (computePayroll sampleEmployee)).
  { apply payrolls_lookup_last. intros o [<-|[]]. discriminate. }
  pose proof (H sampleEmployee [] [otherEmployee] [] [clashingEmployee]) as H1.
  pose proof (eq_trans (eq_sym Hc) (eq_trans H1 Hs)) as E.
  exact (f_equal (fun o => match o with
                           | Some p => p
                           | None => computePayroll clashingEmployee
                           end) E).
Qed.

(** ** C10: the minimum bracket is always charged *)

Lemma bracketOf_floor (table : list number) (salary : number) :
  le salary (List.nth 0 table NaN) = true ->
  bracketOf table salary = List.nth 0 table NaN.
Proof. unfold bracketOf. intros ->. reflexivity. Qed.

(** The chargeable count lies between 1 and 4, whatever the (non-negative)
    dependents figure, whole or not. *)
Lemma chargeable_count_range (d : number) :
  nnv d = true ->
  below (ofZ 1) (add (ofZ 1) (Math_min d (ofZ 3)))
  /\ below (add (ofZ 1) (Math_min d (ofZ 3))) (ofZ 4)
  /\ nonneg_finite (add (ofZ 1) (Math_min d (ofZ 3))) = true.
Proof.
  intros Hd.
  assert (B3 : below (Math_min d (ofZ 3)) (ofZ 3)).
  { destruct (min_key d (ofZ 3) Hd eq_refl) as [V K].
    repeat split; [exact V|]. rewrite K. lia. }
  assert (B0 : below (ofZ 0) (Math_min d (ofZ 3))).
  { destruct B3 as (V & _ & _). repeat split; [exact V|].
    change (key (ofZ 0)) with 0. apply key_nonneg. }
  assert (B1 : below (ofZ 1) (ofZ 1)) by (apply below_refl; reflexivity).
  pose proof (add_below _ _ _ _ B1 B0) as Hlo.
  pose proof (add_below _ _ _ _ B1 B3) as Hhi.
  change (add (ofZ 1) (ofZ 0)) with (ofZ 1) in Hlo.
  change (add (ofZ 1) (ofZ 3)) with (ofZ 4) in Hhi.
  split; [exact Hlo|]. split; [exact Hhi|].
  apply (below_finite _ _ Hhi). reflexivity.
Qed.

(** C10. For every basis salary not above the lowest bracket (zero
    included) the lookup returns the table minimum, 11100 for labor and
    28590 for health.  The employee labor insurance is then 278, and the
    employee health insurance is 443 times the chargeable count: at least
    443 and at most 1772 for every non-negative dependents figure, and 443,
    886, 1329 or 1772 for a whole number of dependents.  Both are the same
    strictly positive amounts over the whole range, never zero. *)
Theorem C10_minimum_bracket_charged (s d : number) :
  nnv d = true ->
  (le s (ofZ 11100) = true ->
     getLaborInsuredSalary s = ofZ 11100
     /\ calculateLaborInsurance s = ofZ 278
     /\ calculateLaborInsurance s = calculateLaborInsurance (ofZ 0)
     /\ gt (calculateLaborInsurance s) (ofZ 0) = true)
  /\ (le s (ofZ 28590) = true ->
     getHealthInsuredSalary s = ofZ 28590
     /\ calculateHealthInsurance s d = calculateHealthInsurance (ofZ 0) d
     /\ gt (calculateHealthInsurance s d) (ofZ 0) = true
     /\ le (ofZ 443) (calculateHealthInsurance s d) = true
     /\ le (calculateHealthInsurance s d) (ofZ 1772) = true
     /\ forall n, 0 <= n ->
          calculateHealthInsurance s (ofZ n) = ofZ (443 * (1 + Z.min n 3))).
Proof.
  intros Hd. split.
  - intros Hs.
    assert (Ht : getLaborInsuredSalary s = ofZ 11100)
      by (apply (bracketOf_floor LABOR_BRACKETS), Hs).
    unfold calculateLaborInsurance. rewrite Ht.
    repeat split; vm_compute; reflexivity.
  - intros Hs.
    assert (Ht : getHealthInsuredSalary s = ofZ 28590)
      by (apply (bracketOf_floor HEALTH_BRACKETS), Hs).
    assert (Hform : forall d', calculateHealthInsurance s d'
                     = mul (ofZ 443) (add (ofZ 1) (Math_min d' (ofZ 3)))).
    { intros d'. unfold calculateHealthInsurance. rewrite Ht. reflexivity. }
    assert (Hform0 : forall d', calculateHealthInsurance (ofZ 0) d'
                     = mul (ofZ 443) (add (ofZ 1) (Math_min d' (ofZ 3)))).
    { intros d'. reflexivity. }
    destruct (chargeable_count_range d Hd) as (Blo & Bhi & Fc).
    assert (F443 : nonneg_finite (ofZ 443) = true) by reflexivity.
    pose proof (mul_below_r (ofZ 443) _ _ F443 Blo Fc) as Hlo.
    pose proof (mul_below_r (ofZ 443) _ _ F443 Bhi eq_refl) as Hhi.
    change (mul (ofZ 443) (ofZ 1)) with (ofZ 443) in Hlo.
    change (mul (ofZ 443) (ofZ 4)) with (ofZ 1772) in Hhi.
    split; [exact Ht|]. split; [rewrite Hform, Hform0; reflexivity|].
    rewrite Hform. split; [|split; [apply below_le, Hlo|split; [apply below_le, Hhi|]]].
    + destruct Hlo as (V1 & V2 & K). rewrite gt_key by (try reflexivity; exact V2).
      apply Z.ltb_lt. change (key (ofZ 0)) with 0.
      assert (0 < key (ofZ 443)) by (vm_compute; reflexivity). lia.
    + intros n Hn. rewrite Hform. destruct (Z.le_gt_cases 3 n) as [Hbig|Hsmall].
      * rewrite (Math_min_count n Hbig). replace (Z.min n 3) with 3 by lia.
        vm_compute. reflexivity.
      * replace (Z.min n 3) with n by lia.
        assert (Hn3 : n = 0 \/ n = 1 \/ n = 2) by lia.
        destruct Hn3 as [Hn3|[Hn3|Hn3]]; subst n; vm_compute; reflexivity.
Qed.

Lemma C10_minimum_bracket_charged_witness :
  nnv (ofZ 2) = true
  /\ calculateLaborInsurance (ofZ 0) = ofZ 278
  /\ calculateHealthInsurance (ofZ 0) (ofZ 2) = ofZ 1329.
Proof.
  split; [reflexivity|].
  destruct (C10_minimum_bracket_charged (ofZ 0) (ofZ 2)) as [HL HH]; [reflexivity|].
  split; [apply HL; reflexivity|].
  destruct (HH eq_refl) as (_ & _ & _ & _ & _ & Hn). apply (Hn 2). lia.
Defined.

(** * Further properties of the code *)

(** ** The order of numbers *)

Lemma lex_le_trans (e1 e2 e3 : Z) (m1 m2 m3 : positive) (flip : bool) :
  let c a b ea eb :=
    match ea ?= eb with
    | Lt => if flip then Gt else Lt
    | Gt => if flip then Lt else Gt
    | Eq => if flip then CompOpp (Pos.compare_cont Eq a b) else Pos.compare_cont Eq a b
    end in
  c m1 m2 e1 e2 <> Gt -> c m2 m3 e2 e3 <> Gt -> c m1 m3 e1 e3 <> Gt.
Proof.
  intros c. unfold c.
  change (Pos.compare_cont Eq m1 m2) with (m1 ?= m2)%positive.
  change (Pos.compare_cont Eq m2 m3) with (m2 ?= m3)%positive.
  change (Pos.compare_cont Eq m1 m3) with (m1 ?= m3)%positive.
  destruct (Z.compare_spec e1 e2), (Z.compare_spec e2 e3), (Z.compare_spec e1 e3);
    try lia; destruct flip; try congruence;
    destruct (Pos.compare_spec m1 m2), (Pos.compare_spec m2 m3),
             (Pos.compare_spec m1 m3); simpl; try congruence; lia.
Qed.

Lemma le_spec (x y : number) :
  le x y = true <-> exists c, SFcompare x y = Some c /\ c <> Gt.
Proof.
  unfold le, SFleb. destruct (SFcompare x y) as [[]|]; split.
  all: try (intros _; eexists; split; [reflexivity|discriminate]).
  all: try reflexivity.
  all: try discriminate.
  - intros (c & H & Hc). injection H as <-. congruence.
  - intros (c & H & _). discriminate H.
Qed.

Lemma le_trans (x y z : number) :
  le x y = true -> le y z = true -> le x z = true.
Proof.
  intros Hxy Hyz. apply le_spec in Hxy, Hyz. apply le_spec.
  destruct Hxy as (c1 & H1 & N1), Hyz as (c2 & H2 & N2).
  destruct x as [sx|sx| |sx mx ex], y as [sy|sy| |sy my ey], z as [sz|sz| |sz mz ez];
    try discriminate H1; try discriminate H2;
    try destruct sx; try destruct sy; try destruct sz;
    cbn [SFcompare] in *;
    try (injection H1 as <-); try (injection H2 as <-);
    try congruence;
    try (eexists; split; [reflexivity|]; try discriminate).
  - pose proof (lex_le_trans ex ey ez mx my mz true) as H. cbv zeta in H.
    apply H; assumption.
  - pose proof (lex_le_trans ex ey ez mx my mz false) as H. cbv zeta in H.
    apply H; assumption.
Qed.

(** ** Bracket lookup: fixed points and monotonicity *)

Lemma bracketOf_scan (table : list number) (salary : number) :
  bracketOf table salary
  = match scanBrackets table salary with
    | Some b => b
    | None => List.last table NaN
    end.
Proof.
  unfold bracketOf. destruct table as [|first rest]; cbn [List.nth scanBrackets].
  - destruct salary; reflexivity.
  - destruct (le salary first); reflexivity.
Qed.

Lemma scanBrackets_at (pre post : list number) (salary b : number) :
  (forall t, In t pre -> le salary t = false) -> le salary b = true ->
  scanBrackets (pre ++ b :: post) salary = Some b.
Proof.
  intros Hpre Hb. induction pre as [|a pre IH]; cbn [app scanBrackets].
  - rewrite Hb. reflexivity.
  - rewrite (Hpre a (or_introl eq_refl)). apply IH. intros t Ht. apply Hpre. right. exact Ht.
Qed.

Lemma SFltb_not_le (x y : number) : SFltb x y = true -> le y x = false.
Proof.
  unfold SFltb, le, SFleb. rewrite (SFcompare_antisym x y).
  destruct (SFcompare x y) as [[]|]; simpl; congruence.
Qed.

Lemma ascending_before (pre post : list number) (b t : number) :
  ascending (pre ++ b :: post) = true -> In t pre -> SFltb t b = true.
Proof.
  induction pre as [|a pre IH]; intros Ha Ht; [destruct Ht|].
  cbn [app] in Ha. destruct Ht as [<-|Ht].
  - apply (ascending_head a (pre ++ b :: post)); [exact Ha|].
    apply in_or_app. right. left. reflexivity.
  - apply IH; [|exact Ht]. cbn [ascending] in Ha. apply andb_true_iff in Ha. apply Ha.
Qed.

Lemma bracketOf_fixed (table : list number) (b : number) :
  ascending table = true -> reflexive table = true -> In b table ->
  bracketOf table b = b.
Proof.
  intros Ha Hr Hb. rewrite bracketOf_scan.
  destruct (in_split b table Hb) as (pre & post & ->).
  rewrite (scanBrackets_at pre post b b); [reflexivity| |].
  - intros t Ht. apply SFltb_not_le. apply (ascending_before pre post b t Ha Ht).
  - unfold reflexive in Hr. rewrite forallb_forall in Hr. apply Hr. exact Hb.
Qed.

Lemma bracketOf_idempotent (table : list number) (salary : number) :
  table <> [] -> ascending table = true -> reflexive table = true ->
  bracketOf table (bracketOf table salary) = bracketOf table salary.
Proof.
  intros Hne Ha Hr. apply bracketOf_fixed; [exact Ha|exact Hr|].
  apply bracketOf_In. exact Hne.
Qed.

Lemma last_app_cons {A} (pre post : list A) (b d : A) :
  List.last (pre ++ b :: post) d = List.last (b :: post) d.
Proof.
  induction pre as [|a pre IH]; [reflexivity|].
  cbn [app]. rewrite <- IH. destruct (pre ++ b :: post) eqn:E; [|reflexivity].
  destruct pre; discriminate E.
Qed.

Lemma le_last (table : list number) (b : number) :
  ascending table = true -> reflexive table = true -> In b table ->
  le b (List.last table NaN) = true.
Proof.
  intros Ha Hr Hb. destruct (in_split b table Hb) as (pre & post & ->).
  rewrite last_app_cons. pose proof (ascending_app_r pre (b :: post) Ha) as Ha'.
  destruct post as [|c post].
  - cbn [List.last]. unfold reflexive in Hr. rewrite forallb_forall in Hr. apply Hr, Hb.
  - apply SFltb_le. apply (ascending_head b (c :: post)); [exact Ha'|].
    change (List.last (b :: c :: post) NaN) with (List.last (c :: post) NaN).
    apply last_In.
Qed.

Lemma bracketOf_mono (table : list number) (s s' : number) :
  table <> [] -> ascending table = true -> reflexive table = true ->
  le s s' = true ->
  le (bracketOf table s) (bracketOf table s') = true.
Proof.
  intros Hne Ha Hr Hss. pose proof (bracketOf_In table s Hne) as Hin.
  rewrite (bracketOf_scan table s'). destruct (scanBrackets table s') as [b'|] eqn:E'.
  - destruct (scanBrackets_split table s' b' E') as (pre' & post' & Ht & Hpre' & Hb').
    pose proof (le_trans s s' b' Hss Hb') as Hsb.
    rewrite bracketOf_scan. destruct (scanBrackets table s) as [b|] eqn:E.
    + destruct (scanBrackets_split table s b E) as (pre & post & Ht2 & Hpre & Hb).
      assert (Hin' : In b' (pre ++ b :: post)).
      { rewrite <- Ht2, Ht. apply in_or_app. right. left. reflexivity. }
      apply in_app_or in Hin'. destruct Hin' as [Hin'|[->|Hin']].
      * rewrite (Hpre b' Hin') in Hsb. discriminate Hsb.
      * apply (le_refl_of_le s b' Hb).
      * apply SFltb_le. apply (ascending_head b post); [|exact Hin'].
        apply (ascending_app_r pre). rewrite <- Ht2. exact Ha.
    + pose proof (proj1 (scanBrackets_None table s) E) as E0.
      assert (Hb'in : In b' table).
      { rewrite Ht. apply in_or_app. right. left. reflexivity. }
      rewrite (E0 b' Hb'in) in Hsb. discriminate Hsb.
  - apply le_last; assumption.
Qed.

Lemma tables_reflexive :
  reflexive LABOR_BRACKETS = true
  /\ reflexive HEALTH_BRACKETS = true
  /\ reflexive PENSION_BRACKETS = true.
Proof. vm_compute. repeat split; reflexivity. Qed.

Lemma tables_nonempty :
  LABOR_BRACKETS <> [] /\ HEALTH_BRACKETS <> [] /\ PENSION_BRACKETS <> [].
Proof. repeat split; discriminate. Qed.

(** ** Premiums along the brackets *)

Lemma nondecreasing_app_r (l1 l2 : list number) :
  nondecreasing (l1 ++ l2) = true -> nondecreasing l2 = true.
Proof.
  induction l1 as [|a l1 IH]; [trivial|]. cbn [app nondecreasing].
  intros H. apply andb_true_iff in H. apply IH, H.
Qed.

Lemma nondecreasing_at (f : number -> number) (pre post : list number) (b t : number) :
  nondecreasing (List.map f (pre ++ b :: post)) = true ->
  t = b \/ In t post -> le (f b) (f t) = true.
Proof.
  intros H Ht. rewrite List.map_app in H. apply nondecreasing_app_r in H.
  cbn [List.map nondecreasing] in H.
  apply andb_true_iff in H. destruct H as [H _].
  apply andb_true_iff in H. destruct H as [Hrefl Hlater].
  destruct Ht as [->|Ht]; [exact Hrefl|].
  rewrite forallb_forall in Hlater. apply Hlater. apply in_map. exact Ht.
Qed.

Lemma premium_mono (table : list number) (f : number -> number) (s s' : number) :
  table <> [] -> ascending table = true -> reflexive table = true ->
  nondecreasing (List.map f table) = true ->
  le s s' = true ->
  le (f (bracketOf table s)) (f (bracketOf table s')) = true.
Proof.
  intros Hne Ha Hr Hf Hss.
  pose proof (bracketOf_mono table s s' Hne Ha Hr Hss) as Hle.
  pose proof (bracketOf_In table s Hne) as Hin.
  pose proof (bracketOf_In table s' Hne) as Hin'.
  generalize dependent (bracketOf table s'). generalize dependent (bracketOf table s).
  intros r Hin r' Hle Hin'.
  destruct (in_split _ _ Hin) as (pre & post & Ht).
  rewrite Ht in Hf, Hin', Ha. apply (nondecreasing_at f pre post); [exact Hf|].
  apply in_app_or in Hin'. destruct Hin' as [Hin'|[Heq|Hin']].
  - pose proof (ascending_before pre post _ _ Ha Hin') as Hlt.
    apply SFltb_not_le in Hlt. rewrite Hlt in Hle. discriminate Hle.
  - left. symmetry. exact Heq.
  - right. exact Hin'.
Qed.

Lemma premiums_nondecreasing :
  nondecreasing (List.map laborShare LABOR_BRACKETS) = true
  /\ nondecreasing (List.map laborShareEmployer LABOR_BRACKETS) = true
  /\ nondecreasing (List.map healthShare HEALTH_BRACKETS) = true
  /\ nondecreasing (List.map healthShareEmployer HEALTH_BRACKETS) = true
  /\ nondecreasing (List.map pensionShare PENSION_BRACKETS) = true.
Proof. vm_compute. repeat split; reflexivity. Qed.

Lemma healthShare_nnv (s : number) :
  nnv (healthShare (getHealthInsuredSalary s)) = true.
Proof.
  assert (H : forallb (fun b => nnv (healthShare b)) HEALTH_BRACKETS = true)
    by (vm_compute; reflexivity).
  rewrite forallb_forall in H. apply H. apply bracketOf_In. discriminate.
Qed.

Lemma key_one_pos : 0 < key (ofZ 1).
Proof.
  change (ofZ 1) with (S754_finite false 4503599627370496 (-52)).
  apply (key_finite_lt_cap 4503599627370496 (-52)). reflexivity.
Qed.

Lemma calculateHealthInsurance_mono (s s' d : number) :
  nnv d = true -> le s s' = true ->
  le (calculateHealthInsurance s d) (calculateHealthInsurance s' d) = true.
Proof.
  intros Hd Hss. destruct tables_nonempty as (_ & Hne & _).
  destruct tables_ascending as (_ & Ha & _). destruct tables_reflexive as (_ & Hr & _).
  destruct premiums_nondecreasing as (_ & _ & Hf & _).
  pose proof (premium_mono HEALTH_BRACKETS healthShare s s' Hne Ha Hr Hf Hss) as Hle.
  destruct (chargeable_count_range d Hd) as (Hone & _ & Hfin).
  apply below_le. change (calculateHealthInsurance s d)
    with (mul (healthShare (getHealthInsuredSalary s)) (add (ofZ 1) (Math_min d (ofZ 3)))).
  change (calculateHealthInsurance s' d)
    with (mul (healthShare (getHealthInsuredSalary s')) (add (ofZ 1) (Math_min d (ofZ 3)))).
  apply mul_below_l; [|exact Hfin|].
  - split; [apply healthShare_nnv|]. split; [apply healthShare_nnv|].
    fold (getHealthInsuredSalary s) (getHealthInsuredSalary s') in Hle.
    rewrite le_key in Hle by apply healthShare_nnv. apply Z.leb_le. exact Hle.
  - destruct Hone as (_ & _ & Hk). pose proof key_one_pos. lia.
Qed.

Lemma wholeWithin_sound (f : number -> number) (lo hi t : Z) :
  wholeWithin f lo hi t = true ->
  exists n, f (ofZ t) = ofZ n /\ lo <= n <= hi.
Proof.
  unfold wholeWithin. destruct (wholeAmount (f (ofZ t))) as [n|]; [|discriminate].
  intros H. apply andb_true_iff in H. destruct H as [H Heq].
  apply andb_true_iff in H. destruct H as [Hlo Hhi].
  exists n. split; [apply bool_decide_eq_true_1 in Heq; exact Heq|].
  apply Z.leb_le in Hlo, Hhi. lia.
Qed.

Lemma premium_within (tiers : list Z) (f : number -> number) (lo hi : Z) (s : number) :
  tiers <> [] -> forallb (wholeWithin f lo hi) tiers = true ->
  exists n, f (bracketOf (List.map ofZ tiers) s) = ofZ n /\ lo <= n <= hi.
Proof.
  intros Hne Hall.
  destruct (bracketOf_tier_check tiers (wholeWithin f lo hi) s Hne Hall) as (t & _ & Ht & ->).
  apply wholeWithin_sound. exact Ht.
Qed.

(** ** Insured salaries and premiums over all numbers *)

(** X1.  An insured salary is a bracket of its table and is its own insured
    salary: looking the result of a lookup up again returns it unchanged,
    for every number (NaN and the infinities included), in each of the three
    tables. *)
Theorem X1_insured_salary_idempotent (s : number) :
  In (getLaborInsuredSalary s) LABOR_BRACKETS
  /\ In (getHealthInsuredSalary s) HEALTH_BRACKETS
  /\ In (getPensionInsuredSalary s) PENSION_BRACKETS
  /\ getLaborInsuredSalary (getLaborInsuredSalary s) = getLaborInsuredSalary s
  /\ getHealthInsuredSalary (getHealthInsuredSalary s) = getHealthInsuredSalary s
  /\ getPensionInsuredSalary (getPensionInsuredSalary s) = getPensionInsuredSalary s.
Proof.
  destruct tables_nonempty as (N1 & N2 & N3).
  destruct tables_ascending as (A1 & A2 & A3).
  destruct tables_reflexive as (R1 & R2 & R3).
  unfold getLaborInsuredSalary, getHealthInsuredSalary, getPensionInsuredSalary.
  repeat split;
    first [apply bracketOf_In; assumption | apply bracketOf_idempotent; assumption].
Qed.

(** X2.  The reference table of the employee form and the engine agree: on
    every bracket listed, the employee and employer amounts displayed are what
    the calculators charge for a basis salary equal to that bracket, and for
    any basis salary the charge is the row of its insured salary. *)
Theorem X2_reference_table_rows (s d : number) :
  (forall b, In b LABOR_BRACKETS ->
     calculateLaborInsurance b = laborShare b
     /\ calculateLaborInsuranceEmployer b = laborShareEmployer b)
  /\ (forall b, In b HEALTH_BRACKETS ->
        calculateHealthInsurance b (ofZ 0) = healthShare b
        /\ calculateHealthInsuranceEmployer b = healthShareEmployer b)
  /\ (forall b, In b PENSION_BRACKETS -> calculatePension b = pensionShare b)
  /\ calculateLaborInsurance s = laborShare (getLaborInsuredSalary s)
  /\ calculateLaborInsuranceEmployer s = laborShareEmployer (getLaborInsuredSalary s)
  /\ calculateHealthInsurance s d
     = mul (healthShare (getHealthInsuredSalary s)) (add (ofZ 1) (Math_min d (ofZ 3)))
  /\ calculateHealthInsuranceEmployer s = healthShareEmployer (getHealthInsuredSalary s)
  /\ calculatePension s = pensionShare (getPensionInsuredSalary s).
Proof.
  destruct tables_ascending as (A1 & A2 & A3).
  destruct tables_reflexive as (R1 & R2 & R3).
  split; [|split; [|split; [|repeat split]]].
  - intros b Hb. unfold calculateLaborInsurance, calculateLaborInsuranceEmployer,
      getLaborInsuredSalary. rewrite (bracketOf_fixed _ b A1 R1 Hb). split; reflexivity.
  - intros b Hb. unfold calculateHealthInsurance, calculateHealthInsuranceEmployer,
      getHealthInsuredSalary. rewrite (bracketOf_fixed _ b A2 R2 Hb).
    split; [|reflexivity]. cbv zeta. fold (healthShare b).
    assert (H : forallb (fun t => bool_decide
                (mul (healthShare t) (add (ofZ 1) (Math_min (ofZ 0) (ofZ 3))) = healthShare t))
              HEALTH_BRACKETS = true) by (vm_compute; reflexivity).
    rewrite forallb_forall in H. specialize (H b Hb).
    apply bool_decide_eq_true_1 in H. exact H.
  - intros b Hb. unfold calculatePension, getPensionInsuredSalary.
    rewrite (bracketOf_fixed _ b A3 R3 Hb). reflexivity.
Qed.

(** X3.  The insured salary never decreases when the basis salary increases,
    in each of the three tables. *)
Theorem X3_insured_salary_monotone (s s' : number) :
  le s s' = true ->
  le (getLaborInsuredSalary s) (getLaborInsuredSalary s') = true
  /\ le (getHealthInsuredSalary s) (getHealthInsuredSalary s') = true
  /\ le (getPensionInsuredSalary s) (getPensionInsuredSalary s') = true.
Proof.
  intros H. destruct tables_nonempty as (N1 & N2 & N3).
  destruct tables_ascending as (A1 & A2 & A3).
  destruct tables_reflexive as (R1 & R2 & R3).
  repeat split; apply bracketOf_mono; assumption.
Qed.

Lemma X3_insured_salary_monotone_witness :
  le (ofZ 30000) (ofZ 50000) = true
  /\ le (getLaborInsuredSalary (ofZ 30000)) (getLaborInsuredSalary (ofZ 50000)) = true.
Proof.
  split; [reflexivity|].
  apply (X3_insured_salary_monotone (ofZ 30000) (ofZ 50000)). reflexivity.
Defined.

(** X4.  No premium decreases when the basis salary increases: the employee
    and employer shares of labor and health insurance and the pension
    contribution are non-decreasing in the salary (the employee health share
    for every non-negative number of dependents). *)
Theorem X4_premiums_monotone (s s' d : number) :
  le s s' = true ->
  le (calculateLaborInsurance s) (calculateLaborInsurance s') = true
  /\ le (calculateLaborInsuranceEmployer s) (calculateLaborInsuranceEmployer s') = true
  /\ le (calculateHealthInsuranceEmployer s) (calculateHealthInsuranceEmployer s') = true
  /\ le (calculatePension s) (calculatePension s') = true
  /\ (nnv d = true ->
      le (calculateHealthInsurance s d) (calculateHealthInsurance s' d) = true).
Proof.
  intros H. destruct tables_nonempty as (N1 & N2 & N3).
  destruct tables_ascending as (A1 & A2 & A3).
  destruct tables_reflexive as (R1 & R2 & R3).
  destruct premiums_nondecreasing as (F1 & F2 & F3 & F4 & F5).
  split; [|split; [|split; [|split]]].
  - apply (premium_mono LABOR_BRACKETS laborShare); assumption.
  - apply (premium_mono LABOR_BRACKETS laborShareEmployer); assumption.
  - apply (premium_mono HEALTH_BRACKETS healthShareEmployer); assumption.
  - apply (premium_mono PENSION_BRACKETS pensionShare); assumption.
  - intros Hd. apply calculateHealthInsurance_mono; assumption.
Qed.

Lemma X4_premiums_monotone_witness :
  le (ofZ 30000) (ofZ 50000) = true
  /\ le (calculatePension (ofZ 30000)) (calculatePension (ofZ 50000)) = true.
Proof.
  split; [reflexivity|].
  destruct (X4_premiums_monotone (ofZ 30000) (ofZ 50000) (ofZ 0) eq_refl)
    as (_ & _ & _ & H & _).
  exact H.
Defined.

(** X5.  Whatever number is passed as the basis salary (negative, infinite
    or NaN), every premium is a whole amount within the range of its table:
    278 to 1145 and 971 to 4007 for labor insurance, 443 to 4855 (one person)
    and 1401 to 15341 for health insurance, 90 to 9000 for the pension. *)
Theorem X5_premium_ranges (s : number) :
  (exists n, calculateLaborInsurance s = ofZ n /\ 278 <= n <= 1145)
  /\ (exists n, calculateLaborInsuranceEmployer s = ofZ n /\ 971 <= n <= 4007)
  /\ (exists n, calculateHealthInsurance s (ofZ 0) = ofZ n /\ 443 <= n <= 4855)
  /\ (exists n, calculateHealthInsuranceEmployer s = ofZ n /\ 1401 <= n <= 15341)
  /\ (exists n, calculatePension s = ofZ n /\ 90 <= n <= 9000).
Proof.
  split; [|split; [|split; [|split]]].
  - apply (premium_within LABOR_TIERS laborShare); [discriminate|vm_compute; reflexivity].
  - apply (premium_within LABOR_TIERS laborShareEmployer);
      [discriminate|vm_compute; reflexivity].
  - apply (premium_within HEALTH_TIERS
             (fun b => mul (healthShare b) (add (ofZ 1) (Math_min (ofZ 0) (ofZ 3)))));
      [discriminate|vm_compute; reflexivity].
  - apply (premium_within HEALTH_TIERS healthShareEmployer);
      [discriminate|vm_compute; reflexivity].
  - apply (premium_within PENSION_TIERS pensionShare);
      [discriminate|vm_compute; reflexivity].
Qed.

(** ** Overtime pay and its descriptions *)

Lemma calculateOvertimePay_no_hours (regularSalary w r h : number) :
  gt w (ofZ 0) = false -> gt r (ofZ 0) = false -> gt h (ofZ 0) = false ->
  calculateOvertimePay regularSalary w r h = ofZ 0.
Proof.
  intros Hw Hr Hh. unfold calculateOvertimePay, overtimeTotal.
  rewrite Hw, Hr, Hh. reflexivity.
Qed.

Lemma overtimeParts_nil (toString : number -> string) (emp : Employee.t) :
  overtimeParts toString emp = [] <->
  gt (Employee.otHoursWeekday emp) (ofZ 0) = false
  /\ gt (Employee.otHoursRestDay emp) (ofZ 0) = false
  /\ gt (Employee.otHoursHoliday emp) (ofZ 0) = false.
Proof.
  unfold overtimeParts.
  destruct (gt (Employee.otHoursWeekday emp) (ofZ 0)),
           (gt (Employee.otHoursRestDay emp) (ofZ 0)),
           (gt (Employee.otHoursHoliday emp) (ofZ 0)); cbn [app]; split;
    try (intros H; discriminate H);
    try (intros (H1 & H2 & H3); discriminate);
    try (intros _; repeat split; reflexivity).
Qed.


Lemma overtimeParts_text (toString : number -> string) (emp : Employee.t) :
  overtimeParts toString emp <> [] -> join ", " (overtimeParts toString emp) <> "-".
Proof.
  unfold overtimeParts. intros Hne.
  destruct (gt (Employee.otHoursWeekday emp) (ofZ 0)),
           (gt (Employee.otHoursRestDay emp) (ofZ 0)),
           (gt (Employee.otHoursHoliday emp) (ofZ 0));
    cbn [app join String.append] in *;
    try (exfalso; apply Hne; reflexivity); discriminate.
Qed.

Lemma length_zero {A} (l : list A) : (length l =? 0)%nat = true <-> l = [].
Proof. destruct l; cbn; split; intros H; try reflexivity; discriminate H. Qed.

Lemma overtimeText_dash (toString : number -> string) (emp : Employee.t) :
  getOvertimeBreakdownText toString emp = "-" <-> overtimeParts toString emp = [].
Proof.
  unfold getOvertimeBreakdownText. cbv zeta.
  destruct (length (overtimeParts toString emp) =? 0)%nat eqn:E.
  - apply length_zero in E. split; [intros _; exact E|reflexivity].
  - split.
    + intros H. exfalso. apply (overtimeParts_text toString emp); [|exact H].
      intros Hnil. apply length_zero in Hnil. rewrite Hnil in E. discriminate E.
    + intros Hnil. apply length_zero in Hnil. rewrite Hnil in E. discriminate E.
Qed.

(** X6.  The overtime description of the reports is the dash exactly when no
    category has hours above zero, and whenever it is the dash the overtime
    pay of the payroll is zero. *)
Theorem X6_overtime_text_dash (toString : number -> string) (emp : Employee.t) :
  (getOvertimeBreakdownText toString emp = "-" <->
   gt (Employee.otHoursWeekday emp) (ofZ 0) = false
   /\ gt (Employee.otHoursRestDay emp) (ofZ 0) = false
   /\ gt (Employee.otHoursHoliday emp) (ofZ 0) = false)
  /\ (getOvertimeBreakdownText toString emp = "-" ->
      overtimePay (computePayroll emp) = ofZ 0).
Proof.
  split.
  - rewrite overtimeText_dash. apply overtimeParts_nil.
  - intros H. apply overtimeText_dash, overtimeParts_nil in H.
    destruct H as (Hw & Hr & Hh). apply calculateOvertimePay_no_hours; assumption.
Qed.


(** ** Overtime: hours that do not count, and the holiday day *)

Lemma le_not_gt (x y : number) : le x y = true -> gt x y = false.
Proof.
  unfold le, gt, SFleb, SFltb. rewrite (SFcompare_antisym x y).
  destruct (SFcompare x y) as [[]|]; cbn; congruence.
Qed.

(** X17.  Hours that are not above zero (zero, negative or NaN) are ignored
    by the overtime calculator, category by category, and any holiday
    attendance of at most eight hours is paid as the full eight hours. *)
Theorem X17_overtime_hours_edges (regularSalary w r h : number) :
  (gt w (ofZ 0) = false ->
   calculateOvertimePay regularSalary w r h
   = calculateOvertimePay regularSalary (ofZ 0) r h)
  /\ (gt r (ofZ 0) = false ->
      calculateOvertimePay regularSalary w r h
      = calculateOvertimePay regularSalary w (ofZ 0) h)
  /\ (gt h (ofZ 0) = false ->
      calculateOvertimePay regularSalary w r h
      = calculateOvertimePay regularSalary w r (ofZ 0))
  /\ (gt h (ofZ 0) = true -> le h (ofZ 8) = true ->
      calculateOvertimePay regularSalary w r h
      = calculateOvertimePay regularSalary w r (ofZ 8)).
Proof.
  unfold calculateOvertimePay, overtimeTotal. cbv zeta.
  split; [|split; [|split]].
  - intros H. rewrite H. reflexivity.
  - intros H. rewrite H. reflexivity.
  - intros H. rewrite H. reflexivity.
  - intros H0 H8. rewrite H0, (le_not_gt h (ofZ 8) H8). reflexivity.
Qed.

(** ** Finding records by id *)

Lemma find_app {A} (p : A -> bool) (l1 l2 : list A) :
  List.find p (l1 ++ l2)
  = match List.find p l1 with Some x => Some x | None => List.find p l2 end.
Proof.
  induction l1 as [|a l1 IH]; [reflexivity|]. cbn [app List.find].
  destruct (p a); [reflexivity|exact IH].
Qed.

Lemma find_map_replace {A} (p : A -> bool) (g : A -> A) (new : A) (l : list A) :
  (forall x, p (g x) = p x) -> (forall x, p x = true -> g x = new) ->
  List.find p (List.map g l) = option_map (fun _ => new) (List.find p l).
Proof.
  intros Hp Hg. induction l as [|a l IH]; [reflexivity|]. cbn [List.map List.find].
  rewrite Hp. destruct (p a) eqn:E; [|exact IH]. cbn. rewrite (Hg a E). reflexivity.
Qed.

Lemma find_map_keep {A} (p : A -> bool) (g : A -> A) (l : list A) :
  (forall x, p (g x) = p x) -> (forall x, p x = true -> g x = x) ->
  List.find p (List.map g l) = List.find p l.
Proof.
  intros Hp Hg. induction l as [|a l IH]; [reflexivity|]. cbn [List.map List.find].
  rewrite Hp. destruct (p a) eqn:E; [|exact IH]. rewrite (Hg a E). reflexivity.
Qed.

Lemma find_filter_keep {A} (p f : A -> bool) (l : list A) :
  (forall x, p x = true -> f x = true) ->
  List.find p (List.filter f l) = List.find p l.
Proof.
  intros H. induction l as [|a l IH]; [reflexivity|]. cbn [List.filter List.find].
  destruct (p a) eqn:E.
  - rewrite (H a E). cbn [List.find]. rewrite E. reflexivity.
  - destruct (f a); [cbn [List.find]; rewrite E|]; exact IH.
Qed.

Lemma find_filter_drop {A} (p f : A -> bool) (l : list A) :
  (forall x, p x = true -> f x = false) ->
  List.find p (List.filter f l) = None.
Proof.
  intros H. induction l as [|a l IH]; [reflexivity|]. cbn [List.filter].
  destruct (f a) eqn:E; [|exact IH]. cbn [List.find].
  destruct (p a) eqn:Ep; [|exact IH]. rewrite (H a Ep) in E. discriminate E.
Qed.

Lemma find_rev_Some {A} (p : A -> bool) (l : list A) :
  List.find p l <> None -> List.find p (rev l) <> None.
Proof.
  intros H. destruct (List.find p l) as [x|] eqn:E; [|contradiction].
  apply find_some in E. destruct E as [Hin Hp].
  destruct (List.find p (rev l)) eqn:E'; [discriminate|].
  pose proof (find_none _ _ E' x (proj1 (in_rev l x) Hin)) as Hn.
  rewrite Hp in Hn. discriminate Hn.
Qed.

(** The entry of an id is the payroll of the last record carrying it. *)
Lemma payrolls_lookup_find (l : list Employee.t) (k : string) :
  payrolls l !! k
  = option_map computePayroll
      (List.find (fun e => bool_decide (Employee.id e = k)) (rev l)).
Proof.
  induction l as [|e l IH] using rev_ind; [reflexivity|].
  rewrite payrolls_fold, fold_setPayroll_app, <- payrolls_fold. cbn [fold_left].
  unfold setPayroll. rewrite rev_unit. cbn [List.find].
  destruct (bool_decide (Employee.id e = k)) eqn:E.
  - apply bool_decide_eq_true_1 in E. rewrite E. cbn. apply lookup_insert_eq.
  - apply bool_decide_eq_false_1 in E. rewrite lookup_insert_ne by exact E. exact IH.
Qed.

(** ** Saving and deleting records *)

Lemma save_found (st : State.t) (emp : Employee.t) (e0 : Employee.t) :
  List.find (fun e => bool_decide (Employee.id e = Employee.id emp)) (State.employees st)
  = Some e0 ->
  State.employees (fst (handleSaveEmployee st emp))
  = List.map (fun e => if bool_decide (Employee.id e = Employee.id emp) then emp else e)
             (State.employees st).
Proof. intros H. unfold handleSaveEmployee. cbn. rewrite H. reflexivity. Qed.

Lemma save_fresh (st : State.t) (emp : Employee.t) :
  List.find (fun e => bool_decide (Employee.id e = Employee.id emp)) (State.employees st)
  = None ->
  State.employees (fst (handleSaveEmployee st emp)) = State.employees st ++ [emp].
Proof. intros H. unfold handleSaveEmployee. cbn. rewrite H. reflexivity. Qed.

Lemma replace_keeps_id (emp : Employee.t) (k : string) (x : Employee.t) :
  bool_decide
    (Employee.id (if bool_decide (Employee.id x = Employee.id emp) then emp else x) = k)
  = bool_decide (Employee.id x = k).
Proof.
  destruct (bool_decide (Employee.id x = Employee.id emp)) eqn:E; [|reflexivity].
  apply bool_decide_eq_true_1 in E. rewrite E. reflexivity.
Qed.

Lemma replace_ids (emp : Employee.t) (l : list Employee.t) :
  List.map Employee.id
    (List.map (fun e => if bool_decide (Employee.id e = Employee.id emp) then emp else e) l)
  = List.map Employee.id l.
Proof.
  induction l as [|a l IH]; [reflexivity|]. cbn [List.map]. rewrite IH. f_equal.
  destruct (bool_decide (Employee.id a = Employee.id emp)) eqn:E; [|reflexivity].
  apply bool_decide_eq_true_1 in E. symmetry. exact E.
Qed.

Lemma find_id_None (l : list Employee.t) (k : string) :
  List.find (fun e => bool_decide (Employee.id e = k)) l = None
  <-> ~ In k (List.map Employee.id l).
Proof.
  split.
  - intros H Hin. apply in_map_iff in Hin. destruct Hin as (e & He & Hin).
    pose proof (find_none _ _ H e Hin) as Hn. cbn in Hn.
    apply bool_decide_eq_false_1 in Hn. contradiction.
  - intros H. destruct (List.find _ l) as [e|] eqn:E; [|reflexivity].
    apply find_some in E. destruct E as [Hin He]. apply bool_decide_eq_true_1 in He.
    exfalso. apply H. rewrite <- He. apply in_map. exact Hin.
Qed.

Lemma save_find (st : State.t) (emp : Employee.t) :
  List.find (fun e => bool_decide (Employee.id e = Employee.id emp))
            (State.employees (fst (handleSaveEmployee st emp)))
  = Some emp.
Proof.
  destruct (List.find (fun e => bool_decide (Employee.id e = Employee.id emp))
                      (State.employees st)) as [e0|] eqn:E.
  - rewrite (save_found st emp e0 E).
    rewrite (find_map_replace _ _ emp); [rewrite E; reflexivity| |].
    + intros x. apply replace_keeps_id.
    + intros x Hx. rewrite Hx. reflexivity.
  - rewrite (save_fresh st emp E), find_app, E. cbn [List.find].
    rewrite bool_decide_eq_true_2 by reflexivity. reflexivity.
Qed.

Lemma save_payrolls (st : State.t) (emp : Employee.t) :
  payrolls (State.employees (fst (handleSaveEmployee st emp)))
  = <[Employee.id emp := computePayroll emp]> (payrolls (State.employees st)).
Proof.
  destruct (List.find (fun e => bool_decide (Employee.id e = Employee.id emp))
                      (State.employees st)) as [e0|] eqn:E.
  - rewrite (save_found st emp e0 E). apply map_eq. intros k.
    rewrite payrolls_lookup_find, <- List.map_rev.
    destruct (decide (Employee.id emp = k)) as [<-|Hne].
    + rewrite lookup_insert_eq.
      rewrite (find_map_replace _ _ emp).
      * destruct (List.find _ (rev (State.employees st))) eqn:E'; [reflexivity|].
        exfalso. revert E'. apply find_rev_Some. rewrite E. discriminate.
      * intros x. apply replace_keeps_id.
      * intros x Hx. rewrite Hx. reflexivity.
    + rewrite lookup_insert_ne by exact Hne. rewrite payrolls_lookup_find.
      rewrite find_map_keep; [reflexivity| |].
      * intros x. apply replace_keeps_id.
      * intros x Hx. apply bool_decide_eq_true_1 in Hx.
        rewrite bool_decide_eq_false_2; [reflexivity|]. congruence.
  - rewrite (save_fresh st emp E).
    rewrite payrolls_fold, fold_setPayroll_app, <- payrolls_fold. reflexivity.
Qed.

Lemma delete_payrolls (l : list Employee.t) (id : string) :
  payrolls (List.filter (fun e => negb (bool_decide (Employee.id e = id))) l)
  = delete id (payrolls l).
Proof.
  apply map_eq. intros k. rewrite payrolls_lookup_find, <- filter_rev.
  destruct (decide (id = k)) as [<-|Hne].
  - rewrite lookup_delete_eq. rewrite find_filter_drop; [reflexivity|].
    intros x Hx. rewrite Hx. reflexivity.
  - rewrite lookup_delete_ne by exact Hne. rewrite payrolls_lookup_find.
    rewrite find_filter_keep; [reflexivity|].
    intros x Hx. apply bool_decide_eq_true_1 in Hx.
    rewrite bool_decide_eq_false_2; [reflexivity|]. congruence.
Qed.

Lemma filter_ids_NoDup (f : Employee.t -> bool) (l : list Employee.t) :
  List.NoDup (List.map Employee.id l) ->
  List.NoDup (List.map Employee.id (List.filter f l)).
Proof.
  induction l as [|a l IH]; [trivial|]. cbn [List.map List.filter]. intros H.
  apply List.NoDup_cons_iff in H. destruct H as [Hn Hd].
  destruct (f a); [|apply IH, Hd]. cbn [List.map]. apply List.NoDup_cons.
  - intros Hin. apply Hn. apply in_map_iff in Hin. destruct Hin as (x & Hx & Hin).
    apply filter_In in Hin. rewrite <- Hx. apply in_map. apply Hin.
  - apply IH, Hd.
Qed.

(** X8.  After [handleSaveEmployee] the saved record is the selected one:
    the employee the views show is the record just saved and the payroll
    shown is its payroll, whether the id was new or not and even if several
    stored records carried it; the list handed to the cloud sync is the new
    list.  (A record with the empty id cannot be selected.) *)
Theorem X8_saved_employee_shown (st : State.t) (emp : Employee.t) :
  Employee.id emp <> "" ->
  let st' := fst (handleSaveEmployee st emp) in
  currentEmployee st' = Some emp
  /\ currentPayroll st' = Some (computePayroll emp)
  /\ State.isEditing st' = false
  /\ snd (handleSaveEmployee st emp) = (State.employees st', State.companySettings st).
Proof.
  intros Hid st'. unfold currentEmployee, currentPayroll.
  assert (Hsel : State.selectedEmployeeId st' = Some (Employee.id emp)) by reflexivity.
  rewrite Hsel. unfold truthy. rewrite bool_decide_eq_false_2 by exact Hid. cbn [negb].
  split; [apply save_find|]. split; [|split; reflexivity].
  unfold st'. rewrite save_payrolls. apply lookup_insert_eq.
Qed.

Lemma X8_saved_employee_shown_witness :
  Employee.id clashingEmployee <> ""
  /\ currentEmployee (fst (handleSaveEmployee initialState clashingEmployee))
     = Some clashingEmployee.
Proof.
  assert (H : Employee.id clashingEmployee <> "") by discriminate.
  split; [exact H|].
  exact (proj1 (X8_saved_employee_shown initialState clashingEmployee H)).
Defined.

(** X9.  Saving a record changes the payroll map at the id of the record and
    nowhere else: the new map is the old one with the payroll of the saved
    record stored under its id. *)
Theorem X9_save_updates_one_payroll (st : State.t) (emp : Employee.t) :
  payrolls (State.employees (fst (handleSaveEmployee st emp)))
  = <[Employee.id emp := computePayroll emp]> (payrolls (State.employees st))
  /\ (forall k, k <> Employee.id emp ->
        payrolls (State.employees (fst (handleSaveEmployee st emp))) !! k
        = payrolls (State.employees st) !! k).
Proof.
  split; [apply save_payrolls|].
  intros k Hk. rewrite save_payrolls. apply lookup_insert_ne. congruence.
Qed.

Lemma save_nth (st : State.t) (emp : Employee.t) (i : nat) (e : Employee.t) :
  nth_error (State.employees st) i = Some e ->
  nth_error (State.employees (fst (handleSaveEmployee st emp))) i
  = Some (if bool_decide (Employee.id e = Employee.id emp) then emp else e).
Proof.
  intros Hi.
  destruct (List.find (fun e => bool_decide (Employee.id e = Employee.id emp))
                      (State.employees st)) as [e0|] eqn:E.
  - rewrite (save_found st emp e0 E), nth_error_map, Hi. reflexivity.
  - rewrite (save_fresh st emp E), nth_error_app1
      by (apply nth_error_Some; rewrite Hi; discriminate).
    rewrite Hi. pose proof (find_none _ _ E e (nth_error_In _ _ Hi)) as Hn.
    cbn in Hn. rewrite Hn. reflexivity.
Qed.

Lemma save_only_emp (st : State.t) (emp e : Employee.t) :
  In e (State.employees (fst (handleSaveEmployee st emp))) ->
  Employee.id e = Employee.id emp -> e = emp.
Proof.
  intros Hin Hid.
  destruct (List.find (fun e => bool_decide (Employee.id e = Employee.id emp))
                      (State.employees st)) as [e0|] eqn:E.
  - rewrite (save_found st emp e0 E) in Hin. apply in_map_iff in Hin.
    destruct Hin as (x & Hx & _).
    destruct (bool_decide (Employee.id x = Employee.id emp)) eqn:Ex; [auto|].
    apply bool_decide_eq_false_1 in Ex. subst e. contradiction.
  - rewrite (save_fresh st emp E) in Hin. apply in_app_or in Hin.
    destruct Hin as [Hin|[Hin|[]]]; [|auto].
    pose proof (find_none _ _ E e Hin) as Hn. cbn in Hn.
    apply bool_decide_eq_false_1 in Hn. contradiction.
Qed.

(** X10.  Saving replaces and keeps in place: every stored record of the id
    of the saved record is replaced by it, at its position, and every other
    stored record stays where it is; if the id is stored nothing is added
    (same length, same sequence of ids), otherwise the record is appended.
    Afterwards the saved record is stored and is the only record of its id;
    ids that were pairwise distinct stay so; saving the same record twice is
    saving it once. *)
Theorem X10_save_keeps_ids (st : State.t) (emp : Employee.t) :
  let before := State.employees st in
  let after := State.employees (fst (handleSaveEmployee st emp)) in
  (In (Employee.id emp) (List.map Employee.id before) ->
     List.map Employee.id after = List.map Employee.id before)
  /\ (~ In (Employee.id emp) (List.map Employee.id before) -> after = before ++ [emp])
  /\ (forall i e, nth_error before i = Some e ->
        Employee.id e = Employee.id emp -> nth_error after i = Some emp)
  /\ (forall i e, nth_error before i = Some e ->
        Employee.id e <> Employee.id emp -> nth_error after i = Some e)
  /\ In emp after
  /\ (forall e, In e after -> Employee.id e = Employee.id emp -> e = emp)
  /\ (List.NoDup (List.map Employee.id before) -> List.NoDup (List.map Employee.id after))
  /\ State.employees (fst (handleSaveEmployee (fst (handleSaveEmployee st emp)) emp))
     = after.
Proof.
  intros before after.
  assert (Hin : In (Employee.id emp) (List.map Employee.id before) ->
                List.map Employee.id after = List.map Employee.id before).
  { intros Hin. unfold after.
    destruct (List.find (fun e => bool_decide (Employee.id e = Employee.id emp))
                        (State.employees st)) as [e0|] eqn:E.
    - rewrite (save_found st emp e0 E). apply replace_ids.
    - apply find_id_None in E. contradiction. }
  assert (Hout : ~ In (Employee.id emp) (List.map Employee.id before) ->
                 after = before ++ [emp]).
  { intros Hn. apply find_id_None in Hn. apply save_fresh. exact Hn. }
  split; [exact Hin|]. split; [exact Hout|].
  split.
  { intros i e Hi Hid. unfold after. rewrite (save_nth st emp i e Hi).
    rewrite bool_decide_eq_true_2 by exact Hid. reflexivity. }
  split.
  { intros i e Hi Hid. unfold after. rewrite (save_nth st emp i e Hi).
    rewrite bool_decide_eq_false_2 by exact Hid. reflexivity. }
  split.
  { pose proof (save_find st emp) as Hf. apply find_some in Hf.
    destruct Hf as [Hf _]. exact Hf. }
  split; [apply save_only_emp|].
  split.
  - intros Hnd. destruct (in_dec String.string_dec (Employee.id emp) (List.map Employee.id before))
      as [Hi|Hn].
    + rewrite (Hin Hi). exact Hnd.
    + rewrite (Hout Hn), List.map_app. cbn [List.map].
      apply List.NoDup_app; [exact Hnd| |].
      * apply List.NoDup_cons; [intros []|apply List.NoDup_nil].
      * intros x Hx [<-|[]]. contradiction.
  - pose proof (save_find st emp) as Hf. fold after in Hf.
    rewrite (save_found (fst (handleSaveEmployee st emp)) emp emp Hf). fold after.
    clear Hin Hout Hf. unfold after.
    destruct (List.find (fun e => bool_decide (Employee.id e = Employee.id emp))
                        (State.employees st)) as [e0|] eqn:E.
    + rewrite (save_found st emp e0 E), List.map_map. apply List.map_ext. intros a.
      destruct (bool_decide (Employee.id a = Employee.id emp)) eqn:Ea.
      * rewrite bool_decide_eq_true_2 by reflexivity. reflexivity.
      * rewrite Ea. reflexivity.
    + rewrite (save_fresh st emp E), List.map_app. cbn [List.map].
      rewrite bool_decide_eq_true_2 by reflexivity. f_equal.
      rewrite <- (List.map_id (State.employees st)) at 2. apply List.map_ext_in.
      intros a Ha. pose proof (find_none _ _ E a Ha) as Hn. cbn in Hn. rewrite Hn.
      reflexivity.
Qed.

Lemma filter_other_ids_sublist (id : string) (l : list Employee.t) :
  sublist (List.filter (fun e => negb (bool_decide (Employee.id e = id))) l) l.
Proof.
  induction l as [|a l IH]; [constructor|]. cbn [List.filter].
  destruct (bool_decide (Employee.id a = id)); cbn [negb]; constructor; exact IH.
Qed.

Lemma filter_other_ids_length (id : string) (l : list Employee.t) :
  length l
  = (length (List.filter (fun e => negb (bool_decide (Employee.id e = id))) l)
     + count_occ String.string_dec (List.map Employee.id l) id)%nat.
Proof.
  induction l as [|a l IH]; [reflexivity|]. cbn [List.filter List.map count_occ length].
  destruct (String.string_dec (Employee.id a) id) as [Heq|Hne].
  - rewrite bool_decide_eq_true_2 by exact Heq. cbn [negb]. lia.
  - rewrite bool_decide_eq_false_2 by exact Hne. cbn [negb length]. lia.
Qed.

(** X11.  [handleDelete] removes every record of the id and nothing else: no
    record of the id is left and every other record is kept; the kept records
    stand in the order they had (the new list is the old one with elements
    left out), and as many records are left out as carried the id; the
    payroll map loses exactly the entry of the id, the record shown is cleared
    when it was the deleted one, and pairwise distinct ids stay so. *)
Theorem X11_delete_removes_id (st : State.t) (id : string) :
  let st' := fst (handleDelete st id) in
  (forall e, In e (State.employees st') <->
             In e (State.employees st) /\ Employee.id e <> id)
  /\ sublist (State.employees st') (State.employees st)
  /\ length (State.employees st)
     = (length (State.employees st')
        + count_occ String.string_dec (List.map Employee.id (State.employees st)) id)%nat
  /\ payrolls (State.employees st') = delete id (payrolls (State.employees st))
  /\ payrolls (State.employees st') !! id = None
  /\ (State.selectedEmployeeId st = Some id -> currentEmployee st' = None)
  /\ (List.NoDup (List.map Employee.id (State.employees st)) ->
      List.NoDup (List.map Employee.id (State.employees st')))
  /\ State.deleteConfirmId st' = None.
Proof.
  intros st'. split; [|split; [|split; [|split; [|split; [|split; [|split]]]]]].
  - intros e. unfold st', handleDelete. cbn [fst State.employees].
    rewrite filter_In. split; intros [H1 H2]; (split; [exact H1|]).
    + apply negb_true_iff, bool_decide_eq_false_1 in H2. exact H2.
    + apply negb_true_iff, bool_decide_eq_false_2. exact H2.
  - apply filter_other_ids_sublist.
  - apply filter_other_ids_length.
  - apply delete_payrolls.
  - unfold st', handleDelete. cbn [fst State.employees].
    rewrite delete_payrolls. apply lookup_delete_eq.
  - intros Hsel. unfold currentEmployee, st', handleDelete.
    cbn [fst State.selectedEmployeeId]. rewrite Hsel.
    rewrite bool_decide_eq_true_2 by reflexivity. reflexivity.
  - apply filter_ids_NoDup.
  - reflexivity.
Qed.

(** X12.  Deleting the id of a record just saved under a new id gives the
    stored records back, and with them the payroll map. *)
Theorem X12_save_then_delete (st : State.t) (emp : Employee.t) :
  ~ In (Employee.id emp) (List.map Employee.id (State.employees st)) ->
  let st' := fst (handleDelete (fst (handleSaveEmployee st emp)) (Employee.id emp)) in
  State.employees st' = State.employees st
  /\ payrolls (State.employees st') = payrolls (State.employees st).
Proof.
  intros Hn st'.
  assert (H : State.employees st' = State.employees st).
  { unfold st', handleDelete. cbn [fst State.employees].
    apply find_id_None in Hn. rewrite (save_fresh st emp Hn), List.filter_app.
    cbn [List.filter]. rewrite bool_decide_eq_true_2 by reflexivity. cbn [negb].
    rewrite app_nil_r. apply forallb_filter_id. apply forallb_forall. intros a Ha.
    pose proof (find_none _ _ Hn a Ha) as Hf. cbn in Hf. rewrite Hf. reflexivity. }
  split; [exact H|]. rewrite H. reflexivity.
Qed.

Lemma X12_save_then_delete_witness :
  ~ In (Employee.id otherEmployee) (List.map Employee.id (State.employees initialState))
  /\ State.employees
       (fst (handleDelete (fst (handleSaveEmployee initialState otherEmployee))
                          (Employee.id otherEmployee)))
     = [sampleEmployee].
Proof.
  assert (H : ~ In (Employee.id otherEmployee)
                   (List.map Employee.id (State.employees initialState))).
  { cbn. intros [H|[]]. discriminate H. }
  split; [exact H|].
  exact (proj1 (X12_save_then_delete initialState otherEmployee H)).
Defined.

(** ** The views *)

Lemma includes_empty (s : string) : includes s "" = true.
Proof. destruct s; reflexivity. Qed.

Lemma payrolls_lookup_In (l : list Employee.t) (e : Employee.t) :
  In e l ->
  exists p, payrolls l !! Employee.id e = Some p /\ employeeId p = Employee.id e.
Proof.
  intros Hin. rewrite payrolls_lookup_find.
  destruct (List.find (fun x => bool_decide (Employee.id x = Employee.id e)) (rev l))
    as [x|] eqn:E.
  - apply find_some in E. destruct E as [_ Hx]. apply bool_decide_eq_true_1 in Hx.
    exists (computePayroll x). split; [reflexivity|exact Hx].
  - pose proof (find_none _ _ E e (proj1 (in_rev l e) Hin)) as Hn. cbn in Hn.
    rewrite bool_decide_eq_true_2 in Hn by reflexivity. discriminate Hn.
Qed.

Lemma setAdd_In (names : list string) (name n : string) :
  In n (setAdd names name) <-> In n names \/ n = name.
Proof.
  unfold setAdd. destruct (existsb _ names) eqn:E.
  - split; [intros H; left; exact H|]. intros [H| ->]; [exact H|].
    apply existsb_exists in E. destruct E as (x & Hx & Hd).
    apply bool_decide_eq_true_1 in Hd. rewrite <- Hd. exact Hx.
  - rewrite in_app_iff. cbn [In]. split.
    + intros [H|[H|[]]]; [left; exact H|right; symmetry; exact H].
    + intros [H|H]; [left; exact H|right; left; symmetry; exact H].
Qed.

Lemma setAdd_NoDup (names : list string) (name : string) :
  List.NoDup names -> List.NoDup (setAdd names name).
Proof.
  intros H. unfold setAdd. destruct (existsb _ names) eqn:E; [exact H|].
  apply List.NoDup_app; [exact H| |].
  - apply List.NoDup_cons; [intros []|apply List.NoDup_nil].
  - intros x Hx [<-|[]].
    assert (Ht : existsb (fun n => bool_decide (n = name)) names = true).
    { apply existsb_exists. exists name. split; [exact Hx|].
      apply bool_decide_eq_true_2. reflexivity. }
    rewrite Ht in E. discriminate E.
Qed.

Lemma fold_setAdd {A} (f : A -> string) (xs : list A) (init : list string) :
  let names := fold_left (fun names x => setAdd names (f x)) xs init in
  (List.NoDup init -> List.NoDup names)
  /\ (forall n, In n names <-> In n init \/ exists x, In x xs /\ f x = n).
Proof.
  revert init. induction xs as [|x xs IH]; intros init; cbn [fold_left].
  - split; [trivial|]. intros n. split; [intros H; left; exact H|].
    intros [H|(x & [] & _)]. exact H.
  - destruct (IH (setAdd init (f x))) as [IHd IHi]. split.
    + intros H. apply IHd, setAdd_NoDup, H.
    + intros n. rewrite IHi, setAdd_In. split.
      * intros [[H|H]|(y & Hy & Hf)].
        -- left. exact H.
        -- right. exists x. split; [left; reflexivity|symmetry; exact H].
        -- right. exists y. split; [right; exact Hy|exact Hf].
      * intros [H|(y & [<-|Hy] & Hf)].
        -- left. left. exact H.
        -- left. right. symmetry. exact Hf.
        -- right. exists y. split; assumption.
Qed.

Lemma fold_fold_setAdd {A B} (items : A -> list B) (f : B -> string)
    (xs : list A) (init : list string) :
  let names :=
    fold_left (fun names x => fold_left (fun names y => setAdd names (f y)) (items x) names)
              xs init in
  (List.NoDup init -> List.NoDup names)
  /\ (forall n, In n names <->
                In n init \/ exists x y, In x xs /\ In y (items x) /\ f y = n).
Proof.
  revert init. induction xs as [|x xs IH]; intros init; cbn [fold_left].
  - split; [trivial|]. intros n. split; [intros H; left; exact H|].
    intros [H|(x & y & [] & _)]. exact H.
  - destruct (IH (fold_left (fun names y => setAdd names (f y)) (items x) init))
      as [IHd IHi].
    destruct (fold_setAdd f (items x) init) as [Hd Hi]. split.
    + intros H. apply IHd, Hd, H.
    + intros n. rewrite IHi, Hi. split.
      * intros [[H|(y & Hy & Hf)]|(z & y & Hz & Hy & Hf)].
        -- left. exact H.
        -- right. exists x, y. split; [left; reflexivity|split; assumption].
        -- right. exists z, y. split; [right; exact Hz|split; assumption].
      * intros [H|(z & y & [<-|Hz] & Hy & Hf)].
        -- left. left. exact H.
        -- left. right. exists y. split; assumption.
        -- right. exists z, y. split; [exact Hz|split; assumption].
Qed.

(** X13.  With pairwise distinct ids the payroll shown belongs to the
    employee shown: when a record is selected and found, the payroll looked
    up for the selection is the payroll of that record, and when no record
    is found there is no payroll either. *)
Theorem X13_shown_payroll_matches (st : State.t) :
  List.NoDup (List.map Employee.id (State.employees st)) ->
  match currentEmployee st with
  | Some e => currentPayroll st = Some (computePayroll e)
  | None => currentPayroll st = None
  end.
Proof.
  intros Hnd. unfold currentEmployee, currentPayroll.
  destruct (State.selectedEmployeeId st) as [selected|]; [|reflexivity].
  destruct (truthy selected); [|reflexivity].
  destruct (List.find _ (State.employees st)) as [e|] eqn:E.
  - apply find_some in E. destruct E as [Hin He]. apply bool_decide_eq_true_1 in He.
    rewrite <- He. apply payrolls_lookup_NoDup; assumption.
  - apply payrolls_lookup_None. intros o Ho.
    pose proof (find_none _ _ E o Ho) as Hn. cbn in Hn.
    apply bool_decide_eq_false_1 in Hn. exact Hn.
Qed.

Lemma X13_shown_payroll_matches_witness :
  List.NoDup (List.map Employee.id
                (State.employees (fst (handleSaveEmployee initialState otherEmployee))))
  /\ currentPayroll (fst (handleSaveEmployee initialState otherEmployee))
     = Some (computePayroll otherEmployee).
Proof.
  assert (H : List.NoDup
                (List.map Employee.id
                   (State.employees (fst (handleSaveEmployee initialState otherEmployee))))).
  { cbn. apply List.NoDup_cons; [intros [H|[]]; discriminate H|].
    apply List.NoDup_cons; [intros []|apply List.NoDup_nil]. }
  split; [exact H|].
  exact (X13_shown_payroll_matches
           (fst (handleSaveEmployee initialState otherEmployee)) H).
Defined.

(** When two stored records share an id, the employee shown is the first of
    them and the payroll shown is that of the last. *)
Lemma shown_payroll_of_clashing_ids (st : State.t) :
  State.employees st = [sampleEmployee; clashingEmployee] ->
  State.selectedEmployeeId st = Some "1" ->
  currentEmployee st = Some sampleEmployee
  /\ currentPayroll st = Some (computePayroll clashingEmployee).
Proof.
  intros He Hs. unfold currentEmployee, currentPayroll. rewrite He, Hs. split.
  - reflexivity.
  - change (truthy "1") with true. cbv iota.
    apply (payrolls_lookup_last [sampleEmployee] [] clashingEmployee). intros o [].
Qed.

(** X14.  An empty search keeps every employee, and the list handed to the
    batch print is never empty unless there is no employee at all; each
    employee in it is a stored employee and has an entry in the payroll map,
    filed under the id of the employee, so the print never meets a missing
    payroll. *)
Theorem X14_printed_employees_have_payrolls (st : State.t) :
  (State.searchQuery st = "" -> filteredEmployees st = State.employees st)
  /\ (forall e, In e (filteredEmployees st) -> In e (State.employees st))
  /\ (forall e, In e (printedEmployees st) ->
        In e (State.employees st)
        /\ exists p, payrolls (State.employees st) !! Employee.id e = Some p
                     /\ employeeId p = Employee.id e)
  /\ (printedEmployees st = [] <-> State.employees st = []).
Proof.
  assert (Hsub : forall e, In e (filteredEmployees st) -> In e (State.employees st)).
  { intros e He. unfold filteredEmployees in He. apply filter_In in He. apply He. }
  assert (Hpr : forall e, In e (printedEmployees st) -> In e (State.employees st)).
  { intros e. unfold printedEmployees.
    destruct (0 <? length (filteredEmployees st))%nat; [apply Hsub|trivial]. }
  split; [|split; [exact Hsub|split]].
  - intros Hq. unfold filteredEmployees. rewrite Hq. apply forallb_filter_id.
    apply forallb_forall. intros e _. rewrite includes_empty. reflexivity.
  - intros e He. split; [apply Hpr, He|]. apply payrolls_lookup_In, Hpr, He.
  - unfold printedEmployees. destruct (filteredEmployees st) as [|a l] eqn:E.
    + reflexivity.
    + cbn. split; [discriminate|]. intros Hnil.
      assert (Ha : In a (State.employees st)) by (apply Hsub; left; reflexivity).
      rewrite Hnil in Ha. destruct Ha.
Qed.

(** X15.  The custom columns of the tables: each list of names has no
    duplicate and holds exactly the names carried by a custom allowance
    (a custom deduction) of some employee. *)
Theorem X15_custom_column_names (employees : list Employee.t) :
  List.NoDup (allCustomAllowanceNames employees)
  /\ (forall n, In n (allCustomAllowanceNames employees) <->
        exists e a, In e employees /\ In a (Employee.customAllowances e)
                    /\ Allowance.name a = n)
  /\ List.NoDup (allCustomDeductionNames employees)
  /\ (forall n, In n (allCustomDeductionNames employees) <->
        exists e d, In e employees /\ In d (Employee.customDeductions e)
                    /\ Deduction.name d = n).
Proof.
  destruct (fold_fold_setAdd Employee.customAllowances Allowance.name employees [])
    as [Hd Hi].
  destruct (fold_fold_setAdd Employee.customDeductions Deduction.name employees [])
    as [Hd' Hi'].
  split; [apply Hd, List.NoDup_nil|]. split.
  - intros n. unfold allCustomAllowanceNames. rewrite Hi. split.
    + intros [[]|H]. exact H.
    + intros H. right. exact H.
  - split; [apply Hd', List.NoDup_nil|].
    intros n. unfold allCustomDeductionNames. rewrite Hi'. split.
    + intros [[]|H]. exact H.
    + intros H. right. exact H.
Qed.

(** ** Pagination *)

Lemma ceilDiv_4 (n : nat) : (4 * ceilDiv n 4 - 3 <= n <= 4 * ceilDiv n 4)%nat
                            /\ (n = 0 -> ceilDiv n 4 = 0)%nat.
Proof.
  unfold ceilDiv. pose proof (Nat.div_mod n 4 ltac:(lia)) as H.
  pose proof (Nat.mod_upper_bound n 4 ltac:(lia)) as Hm.
  destruct (n mod 4 =? 0)%nat eqn:E.
  - apply Nat.eqb_eq in E. split; [lia|]. intros ->. reflexivity.
  - apply Nat.eqb_neq in E. split; [lia|]. intros ->. cbn in E. contradiction.
Qed.

Lemma skipn_skipn {A} (a b : nat) (l : list A) : skipn a (skipn b l) = skipn (b + a) l.
Proof.
  revert l. induction b as [|b IH]; intros l; [reflexivity|].
  destruct l as [|x l]; [destruct a; reflexivity|]. cbn [skipn Nat.add]. apply IH.
Qed.

Lemma concat_slices {A} (k : nat) (l : list A) :
  (length l <= 4 * k)%nat ->
  concat (List.map (fun i => slice (i * 4) ((i + 1) * 4) l) (seq 0 k)) = l.
Proof.
  revert l. induction k as [|k IH]; intros l Hl.
  - destruct l; [reflexivity|cbn in Hl; lia].
  - cbn [seq List.map concat]. rewrite <- seq_shift, List.map_map.
    transitivity (firstn 4 l ++ skipn 4 l); [|apply firstn_skipn]. f_equal.
    etransitivity; [|apply (IH (skipn 4 l)); rewrite length_skipn; lia].
    f_equal. apply List.map_ext. intros i. unfold slice. rewrite skipn_skipn.
    repeat (f_equal; try lia).
Qed.

Lemma slice_length {A} (i : nat) (l : list A) :
  length (slice (i * 4) ((i + 1) * 4) l) = Nat.min 4 (length l - i * 4).
Proof.
  unfold slice. rewrite length_firstn, length_skipn. f_equal. lia.
Qed.

(** X16.  The batch print lays every employee out exactly once and in order:
    the pages put end to end are the list it received; there are as many
    pages as the length divided by four, rounded up; no page is empty, every
    page but the last holds four payslips, and with its empty cells each
    page has four cells. *)
Theorem X16_print_pages (employees : list Employee.t) :
  concat (pages employees) = employees
  /\ length (pages employees) = ceilDiv (length employees) 4
  /\ (forall i, (i < length (pages employees))%nat ->
        let page := List.nth i (pages employees) [] in
        (1 <= length page <= 4)%nat
        /\ (length page + emptyCells page = 4)%nat
        /\ ((i + 1 < length (pages employees))%nat -> length page = 4%nat)).
Proof.
  destruct (ceilDiv_4 (length employees)) as [Hc _].
  assert (Hlen : length (pages employees) = ceilDiv (length employees) 4).
  { unfold pages. rewrite length_map, length_seq. reflexivity. }
  split; [|split; [exact Hlen|]].
  - apply concat_slices. lia.
  - intros i Hi page. rewrite Hlen in *.
    assert (Hp : page = slice (i * 4) ((i + 1) * 4) employees).
    { unfold page, pages.
      rewrite (nth_indep _ [] (slice (0 * 4) ((0 + 1) * 4) employees))
        by (rewrite length_map, length_seq; exact Hi).
      rewrite (map_nth (fun pageIndex => slice (pageIndex * 4) ((pageIndex + 1) * 4) employees)).
      rewrite seq_nth by exact Hi. reflexivity. }
    unfold emptyCells. rewrite Hp, slice_length. lia.
Qed.

(** ** Strings: prefixes, occurrences, suffixes *)

Lemma append_cons (c : Ascii.ascii) (s t : string) :
  String c s +:+ t = String c (s +:+ t).
Proof. reflexivity. Qed.

Lemma append_nil_l (s : string) : "" +:+ s = s.
Proof. reflexivity. Qed.

Lemma append_nil_r (s : string) : s +:+ "" = s.
Proof.
  induction s as [|c s IH]; [reflexivity|]. rewrite append_cons, IH. reflexivity.
Qed.

Lemma append_assoc (a b c : string) : (a +:+ b) +:+ c = a +:+ (b +:+ c).
Proof.
  induction a as [|x a IH]; [reflexivity|]. rewrite !append_cons, IH. reflexivity.
Qed.

Lemma length_append (a b : string) :
  String.length (a +:+ b) = (String.length a + String.length b)%nat.
Proof.
  induction a as [|x a IH]; [reflexivity|].
  rewrite append_cons. cbn [String.length]. rewrite IH. reflexivity.
Qed.

Lemma append_eq_append (x y p q : string) :
  x +:+ y = p +:+ q ->
  (exists r, p = x +:+ r /\ y = r +:+ q) \/ (exists r, x = p +:+ r /\ q = r +:+ y).
Proof.
  revert p. induction x as [|c x IH]; intros p H.
  - left. exists p. split; [reflexivity|exact H].
  - destruct p as [|c' p].
    + right. exists (String c x). split; [reflexivity|]. symmetry. exact H.
    + rewrite !append_cons in H. injection H as -> H.
      destruct (IH p H) as [(r & -> & ->)|(r & -> & ->)].
      * left. exists r. split; reflexivity.
      * right. exists r. split; reflexivity.
Qed.

Lemma prefix_spec (x s : string) :
  String.prefix x s = true <-> exists c, s = x +:+ c.
Proof.
  revert s. induction x as [|a x IH]; intros s.
  - split; [intros _; exists s; reflexivity|]. intros _. destruct s; reflexivity.
  - destruct s as [|b s]; cbn [String.prefix].
    + split; [discriminate|]. intros (c & H). discriminate H.
    + destruct (Ascii.ascii_dec a b) as [->|Hne].
      * rewrite IH. split; intros (c & H); exists c.
        -- rewrite H. reflexivity.
        -- rewrite append_cons in H. injection H as H. exact H.
      * split; [discriminate|]. intros (c & H). rewrite append_cons in H.
        injection H as H _. congruence.
Qed.

Lemma includes_spec (s x : string) :
  includes s x = true <-> exists a c, s = a +:+ x +:+ c.
Proof.
  induction s as [|b s IH]; cbn [includes].
  - rewrite orb_false_r, prefix_spec. split.
    + intros (c & H). exists "", c. exact H.
    + intros (a & c & H). destruct a as [|? a]; [exists c; exact H|discriminate H].
  - rewrite orb_true_iff, prefix_spec, IH. split.
    + intros [(c & H)|(a & c & H)].
      * exists "", c. exact H.
      * exists (String b a), c. rewrite H. reflexivity.
    + intros (a & c & H). destruct a as [|b' a].
      * left. exists c. exact H.
      * right. rewrite append_cons in H. injection H as _ H. exists a, c. exact H.
Qed.

Lemma substring_all (s : string) : String.substring 0 (String.length s) s = s.
Proof.
  induction s as [|c s IH]; [reflexivity|].
  cbn [String.length String.substring]. rewrite IH. reflexivity.
Qed.

Lemma substring_append (p x : string) :
  String.substring (String.length p) (String.length x) (p +:+ x) = x.
Proof. induction p as [|c p IH]; [apply substring_all|exact IH]. Qed.

Lemma substring_split (s : string) (n : nat) :
  (n <= String.length s)%nat ->
  s = String.substring 0 n s +:+ String.substring n (String.length s - n) s.
Proof.
  revert n. induction s as [|c s IH]; intros n Hn.
  - destruct n; [reflexivity|cbn in Hn; lia].
  - destruct n as [|n].
    + rewrite Nat.sub_0_r, substring_all. reflexivity.
    + cbn [String.substring String.length Nat.sub]. rewrite append_cons. f_equal.
      apply IH. cbn in Hn. lia.
Qed.

Lemma endsWith_spec (s x : string) :
  endsWith s x = true <-> exists p, s = p +:+ x.
Proof.
  unfold endsWith. cbv zeta. destruct (String.length s <? String.length x)%nat eqn:E.
  - apply Nat.ltb_lt in E. split; [discriminate|]. intros (p & H).
    rewrite H, length_append in E. lia.
  - apply Nat.ltb_ge in E. rewrite bool_decide_eq_true. split.
    + intros H. exists (String.substring 0 (String.length s - String.length x) s).
      etransitivity;
        [apply (substring_split s (String.length s - String.length x)); lia|].
      f_equal.
      replace (String.length s - (String.length s - String.length x))%nat
        with (String.length x) by lia.
      exact H.
    + intros (p & ->). rewrite length_append.
      replace (String.length p + String.length x - String.length x)%nat
        with (String.length p) by lia.
      apply substring_append.
Qed.

(** No suffix of the host name starts with a slash. *)
Lemma host_has_no_slash (r r' : string) :
  "script.google.com" <> r +:+ "/" +:+ r'.
Proof.
  intros H.
  rewrite (append_cons _ "" r'), append_nil_l in H.
  do 18 (destruct r as [|? r]; [discriminate H|]; rewrite append_cons in H;
         first [injection H as _ H | discriminate H]).
Qed.

Lemma validateUrl_spec (url : string) :
  validateUrl url = true <->
  exists a b, url = a +:+ "script.google.com" +:+ b +:+ "/exec".
Proof.
  unfold validateUrl. split.
  - destruct (truthy url); [|discriminate]. cbn [negb].
    destruct (includes url "script.google.com") eqn:Ei; [|discriminate].
    destruct (endsWith url "/exec") eqn:Ee; [|discriminate]. intros _.
    apply includes_spec in Ei. destruct Ei as (a & c & Hu).
    apply endsWith_spec in Ee. destruct Ee as (p & Hp).
    exists a. rewrite Hu in Hp |- *. rewrite <- append_assoc in Hp.
    destruct (append_eq_append _ _ _ _ Hp) as [(r & _ & ->)|(r & Hr & Hq)].
    + exists r. reflexivity.
    + destruct r as [|x r].
      * exists "". rewrite append_nil_l in Hq. rewrite <- Hq. reflexivity.
      * exfalso. rewrite append_cons in Hq. injection Hq as <- Hq.
        destruct (append_eq_append _ _ _ _ Hr) as [(r2 & _ & H)|(r2 & _ & H)].
        -- apply (host_has_no_slash r2 r H).
        -- apply (f_equal String.length) in Hq, H. rewrite length_append in Hq, H.
           cbn [String.length] in Hq, H. lia.
  - intros (a & b & ->).
    assert (Ht : truthy (a +:+ "script.google.com" +:+ b +:+ "/exec") = true).
    { unfold truthy. rewrite bool_decide_eq_false_2; [reflexivity|].
      intros H. apply (f_equal String.length) in H.
      rewrite !length_append in H. cbn [String.length] in H. lia. }
    rewrite Ht. cbn [negb].
    assert (Hi : includes (a +:+ "script.google.com" +:+ b +:+ "/exec")
                          "script.google.com" = true).
    { apply includes_spec. exists a, (b +:+ "/exec"). reflexivity. }
    rewrite Hi. cbn [negb].
    assert (He : endsWith (a +:+ "script.google.com" +:+ b +:+ "/exec") "/exec" = true).
    { apply endsWith_spec. exists (a +:+ "script.google.com" +:+ b).
      rewrite !append_assoc. reflexivity. }
    rewrite He. reflexivity.
Qed.

(** X23.  The address check accepts exactly the texts made of anything, then
    [script.google.com], then anything, then [/exec] at the very end: it
    looks neither at the scheme nor at where the host name stands, and every
    accepted address has at least 22 characters. *)
Theorem X23_validateUrl_accepts (url : string) :
  (validateUrl url = true <->
   exists a b, url = a +:+ "script.google.com" +:+ b +:+ "/exec")
  /\ (forall before, validateUrl (before +:+ "script.google.com/exec") = true)
  /\ (validateUrl url = true -> (22 <= String.length url)%nat)
  /\ validateUrl "" = false.
Proof.
  split; [apply validateUrl_spec|]. split; [|split; [|reflexivity]].
  - intros before. apply validateUrl_spec. exists before, "". reflexivity.
  - intros H. apply validateUrl_spec in H. destruct H as (a & b & ->).
    rewrite !length_append. cbn [String.length]. lia.
Qed.

Lemma truthy_false (s : string) : truthy s = false -> s = "".
Proof.
  unfold truthy. intros H. apply negb_false_iff, bool_decide_eq_true_1 in H. exact H.
Qed.

(** The outcome of [syncFromCloud], case by case. *)
Lemma syncFromCloud_not_sent (now : string) (fetch : string -> FetchResult)
    (st : State.t) (sync : Sync.t) :
  (forall url, CompanySettings.googleSheetScriptUrl (State.companySettings st) = Some url ->
               validateUrl url = false) ->
  fst (fst (syncFromCloud now fetch st sync)) = st
  /\ snd (syncFromCloud now fetch st sync) = []
  /\ Sync.isSyncing (snd (fst (syncFromCloud now fetch st sync))) = Sync.isSyncing sync
  /\ Sync.lastSyncTime (snd (fst (syncFromCloud now fetch st sync))) = Sync.lastSyncTime sync
  /\ (forall url,
        CompanySettings.googleSheetScriptUrl (State.companySettings st) = Some url ->
        url <> "" ->
        Sync.syncError (snd (fst (syncFromCloud now fetch st sync)))
        = Some "網址錯誤：請確認網址結尾為 /exec").
Proof.
  intros H. unfold syncFromCloud.
  destruct (CompanySettings.googleSheetScriptUrl (State.companySettings st)) as [url|].
  2:{ repeat split. intros u Hu. discriminate Hu. }
  destruct (truthy url) eqn:Et; cbn [negb].
  2:{ apply truthy_false in Et. repeat split. intros u Hu Hne.
      injection Hu as <-. contradiction. }
  rewrite (H url eq_refl). cbn [negb]. repeat split.
Qed.

Lemma syncFromCloud_sent (now : string) (fetch : string -> FetchResult)
    (st : State.t) (sync : Sync.t) (url : string) :
  CompanySettings.googleSheetScriptUrl (State.companySettings st) = Some url ->
  validateUrl url = true ->
  syncFromCloud now fetch st sync
  = match fetch url with
    | Response true (Some data) =>
        if bool_decide (CloudData.status data = Some "success") then
          match CloudData.employees data with
          | Some employees =>
              (setEmployees st employees,
               {| Sync.isSyncing := false; Sync.lastSyncTime := now;
                  Sync.syncError := None |}, [url])
          | None =>
              (st,
               {| Sync.isSyncing := false; Sync.lastSyncTime := Sync.lastSyncTime sync;
                  Sync.syncError := None |}, [url])
          end
        else
          (st,
           {| Sync.isSyncing := false; Sync.lastSyncTime := Sync.lastSyncTime sync;
              Sync.syncError := Some "讀取失敗：請檢查權限是否設為「所有人」" |}, [url])
    | _ =>
        (st,
         {| Sync.isSyncing := false; Sync.lastSyncTime := Sync.lastSyncTime sync;
            Sync.syncError := Some "讀取失敗：請檢查權限是否設為「所有人」" |}, [url])
    end.
Proof.
  intros Hu Hv. unfold syncFromCloud. rewrite Hu.
  assert (Ht : truthy url = true).
  { destruct (truthy url) eqn:Et; [reflexivity|].
    apply truthy_false in Et. subst url. discriminate Hv. }
  rewrite Ht, Hv. cbn [negb]. cbv zeta.
  destruct (fetch url) as [|[|] [data|]]; reflexivity.
Qed.

(** X24.  Loading from the cloud contacts no address but the configured one,
    and does so exactly when that address passes the address check; an
    address that fails the check is reported and nothing else changes.  Once a
    request has been sent the syncing flag is down again however the request
    ends.  If the response is [ok] and its data carry the status [success]
    and an array of employees, these replace the stored employees, no error is
    left and the sync time is set; with that status but no array nothing
    changes but the error, which is cleared; in every other case (the request
    rejected, the response not [ok], no data read, another status) the stored
    employees and the sync time stay as they were and the read failure is
    reported. *)
Theorem X24_cloud_load_guarded (now : string) (fetch : string -> FetchResult)
    (st : State.t) (sync : Sync.t) :
  let '(st', sync', sent) := syncFromCloud now fetch st sync in
  (forall url, In url sent ->
     CompanySettings.googleSheetScriptUrl (State.companySettings st) = Some url
     /\ validateUrl url = true)
  /\ (sent <> [] -> Sync.isSyncing sync' = false)
  /\ (sent = [] -> st' = st /\ Sync.isSyncing sync' = Sync.isSyncing sync)
  /\ (st' = st
      \/ exists url data employees,
           fetch url = Response true (Some data)
           /\ CloudData.status data = Some "success"
           /\ CloudData.employees data = Some employees
           /\ st' = setEmployees st employees
           /\ sync' = {| Sync.isSyncing := false; Sync.lastSyncTime := now;
                         Sync.syncError := None |})
  /\ (forall url,
        CompanySettings.googleSheetScriptUrl (State.companySettings st) = Some url ->
        (validateUrl url = true -> sent = [url])
        /\ (validateUrl url = false -> url <> "" ->
              sent = [] /\ st' = st
              /\ Sync.syncError sync' = Some "網址錯誤：請確認網址結尾為 /exec"
              /\ Sync.lastSyncTime sync' = Sync.lastSyncTime sync))
  /\ (forall url data employees, In url sent ->
        fetch url = Response true (Some data) ->
        CloudData.status data = Some "success" ->
        CloudData.employees data = Some employees ->
        st' = setEmployees st employees
        /\ sync' = {| Sync.isSyncing := false; Sync.lastSyncTime := now;
                      Sync.syncError := None |})
  /\ (forall url data, In url sent ->
        fetch url = Response true (Some data) ->
        CloudData.status data = Some "success" ->
        CloudData.employees data = None ->
        st' = st
        /\ sync' = {| Sync.isSyncing := false;
                      Sync.lastSyncTime := Sync.lastSyncTime sync;
                      Sync.syncError := None |})
  /\ (forall url, In url sent ->
        (forall data, fetch url = Response true (Some data) ->
                      CloudData.status data <> Some "success") ->
        st' = st
        /\ sync' = {| Sync.isSyncing := false;
                      Sync.lastSyncTime := Sync.lastSyncTime sync;
                      Sync.syncError := Some "讀取失敗：請檢查權限是否設為「所有人」" |}).
Proof.
  destruct (CompanySettings.googleSheetScriptUrl (State.companySettings st)) as [url|] eqn:Eu.
  2:{ destruct (syncFromCloud_not_sent now fetch st sync) as (H1 & H2 & H3 & H4 & H5).
      { intros u Hu. rewrite Eu in Hu. discriminate Hu. }
      destruct (syncFromCloud now fetch st sync) as [[st' sync'] sent].
      cbn [fst snd] in *. subst st' sent.
      split; [intros u []|]. split; [intros H; contradiction|].
      split; [intros _; split; [reflexivity|exact H3]|].
      split; [left; reflexivity|].
      split; [intros u Hu; discriminate Hu|].
      split; [intros u d es []|]. split; [intros u d []|intros u []]. }
  destruct (validateUrl url) eqn:Ev.
  2:{ destruct (syncFromCloud_not_sent now fetch st sync) as (H1 & H2 & H3 & H4 & H5).
      { intros u Hu. rewrite Eu in Hu. injection Hu as <-. exact Ev. }
      destruct (syncFromCloud now fetch st sync) as [[st' sync'] sent].
      cbn [fst snd] in *. subst st' sent.
      split; [intros u []|]. split; [intros H; contradiction|].
      split; [intros _; split; [reflexivity|exact H3]|].
      split; [left; reflexivity|].
      split.
      { intros u Hu. injection Hu as <-. split.
        - intros Hv. rewrite Hv in Ev. discriminate Ev.
        - intros _ Hne. split; [reflexivity|]. split; [reflexivity|].
          split; [exact (H5 url Eu Hne)|exact H4]. }
      split; [intros u d es []|]. split; [intros u d []|intros u []]. }
  rewrite (syncFromCloud_sent now fetch st sync url Eu Ev).
  assert (Hsent : forall u, In u [url] -> Some url = Some u /\ validateUrl u = true).
  { intros u [<-|[]]. split; [reflexivity|exact Ev]. }
  assert (Hcfg' : forall (P : Prop) u, Some url = Some u ->
            (validateUrl u = true -> [url] = [u])
            /\ (validateUrl u = false -> u <> "" -> P)).
  { intros P u Hu. injection Hu as <-. split; [reflexivity|].
    intros Hv. rewrite Hv in Ev. discriminate Ev. }
  destruct (fetch url) as [|ok json] eqn:Ef.
  { split; [exact Hsent|]. split; [reflexivity|]. split; [discriminate|].
    split; [left; reflexivity|]. split; [intros u; apply Hcfg'|].
    split; [intros u d es [<-|[]] Hf; rewrite Ef in Hf; discriminate Hf|].
    split; [intros u d [<-|[]] Hf; rewrite Ef in Hf; discriminate Hf|].
    intros u _ _. split; reflexivity. }
  destruct ok.
  2:{ split; [exact Hsent|]. split; [reflexivity|]. split; [discriminate|].
      split; [left; reflexivity|]. split; [intros u; apply Hcfg'|].
      split; [intros u d es [<-|[]] Hf; rewrite Ef in Hf; discriminate Hf|].
      split; [intros u d [<-|[]] Hf; rewrite Ef in Hf; discriminate Hf|].
      intros u _ _. split; reflexivity. }
  destruct json as [data|].
  2:{ split; [exact Hsent|]. split; [reflexivity|]. split; [discriminate|].
      split; [left; reflexivity|]. split; [intros u; apply Hcfg'|].
      split; [intros u d es [<-|[]] Hf; rewrite Ef in Hf; discriminate Hf|].
      split; [intros u d [<-|[]] Hf; rewrite Ef in Hf; discriminate Hf|].
      intros u _ _. split; reflexivity. }
  destruct (bool_decide (CloudData.status data = Some "success")) eqn:Es.
  2:{ apply bool_decide_eq_false_1 in Es.
      split; [exact Hsent|]. split; [reflexivity|]. split; [discriminate|].
      split; [left; reflexivity|]. split; [intros u; apply Hcfg'|].
      split.
      { intros u d es [<-|[]] Hf Hs. rewrite Ef in Hf. injection Hf as <-.
        contradiction. }
      split.
      { intros u d [<-|[]] Hf Hs. rewrite Ef in Hf. injection Hf as <-.
        contradiction. }
      intros u _ _. split; reflexivity. }
  apply bool_decide_eq_true_1 in Es.
  destruct (CloudData.employees data) as [employees|] eqn:Ee.
  2:{ split; [exact Hsent|]. split; [reflexivity|]. split; [discriminate|].
      split; [left; reflexivity|]. split; [intros u; apply Hcfg'|].
      split.
      { intros u d es [<-|[]] Hf Hs He. rewrite Ef in Hf. injection Hf as <-.
        rewrite Ee in He. discriminate He. }
      split; [intros u d _ _ _ _; split; reflexivity|].
      intros u [<-|[]] Hno. contradiction (Hno data Ef Es). }
  split; [exact Hsent|]. split; [reflexivity|]. split; [discriminate|].
  split.
  { right. exists url, data, employees. repeat split; assumption. }
  split; [intros u; apply Hcfg'|].
  split.
  { intros u d es [<-|[]] Hf Hs He. rewrite Ef in Hf. injection Hf as <-.
    rewrite Ee in He. injection He as <-. split; reflexivity. }
  split.
  { intros u d [<-|[]] Hf Hs He. rewrite Ef in Hf. injection Hf as <-.
    rewrite Ee in He. discriminate He. }
  intros u [<-|[]] Hno. contradiction (Hno data Ef Es).
Qed.

(** ** The employee form *)

Lemma orZero_clean (x : number) : orZero x <> NaN /\ orZero x <> S754_zero true.
Proof. unfold orZero. destruct x as [[]|[]| |[] m e]; cbn; split; discriminate. Qed.

Lemma truthyNumber_spec (x : number) :
  truthyNumber x = true <-> x <> NaN /\ forall s, x <> S754_zero s.
Proof.
  destruct x as [s|s| |s m e]; cbn [truthyNumber]; split.
  - intros H. discriminate H.
  - intros [_ H]. exfalso. apply (H s). reflexivity.
  - intros _. split; [discriminate|intros ?; discriminate].
  - intros _. reflexivity.
  - intros H. discriminate H.
  - intros [H _]. exfalso. apply H. reflexivity.
  - intros _. split; [discriminate|intros ?; discriminate].
  - intros _. reflexivity.
Qed.

Lemma truthy_spec (s : string) : truthy s = true <-> s <> "".
Proof.
  unfold truthy. rewrite negb_true_iff, bool_decide_eq_false. reflexivity.
Qed.

(** X18.  Whatever the parsers return, the record the form submits carries no
    NaN and no negative zero in its numeric fields, and each custom allowance
    and deduction it keeps has a non-empty name and an amount that is neither
    zero nor NaN; the note of an edited record is not carried over; and the
    overtime pay of the payroll of the submitted record is the amount the
    form previewed. *)
Theorem X18_submitted_record_clean
    (parseInt parseFloat : string -> number) (now : string) (form : Form.t) :
  let emp := handleSubmit parseInt parseFloat now form in
  Forall (fun x => x <> NaN /\ x <> S754_zero true)
    [ Employee.baseSalary emp; Employee.mealAllowance emp; Employee.fuelAllowance emp;
      Employee.attendanceBonus emp; Employee.otHoursWeekday emp;
      Employee.otHoursRestDay emp; Employee.otHoursHoliday emp; Employee.dependents emp ]
  /\ (forall a, In a (Employee.customAllowances emp) ->
        In a (Form.customAllowances form) /\ Allowance.name a <> ""
        /\ Allowance.amount a <> NaN /\ forall s, Allowance.amount a <> S754_zero s)
  /\ (forall d, In d (Employee.customDeductions emp) ->
        In d (Form.customDeductions form) /\ Deduction.name d <> ""
        /\ Deduction.amount d <> NaN /\ forall s, Deduction.amount d <> S754_zero s)
  /\ Employee.note emp = None
  /\ overtimePay (computePayroll emp) = previewOT parseInt parseFloat form.
Proof.
  intros emp. split; [|split; [|split; [|split; reflexivity]]].
  - repeat (constructor; [apply orZero_clean|]). constructor.
  - intros a Ha. unfold emp, handleSubmit in Ha. cbn [Employee.customAllowances] in Ha.
    apply filter_In in Ha. destruct Ha as [Hin Hf]. apply andb_true_iff in Hf.
    destruct Hf as [Hn Hm]. apply truthy_spec in Hn. apply truthyNumber_spec in Hm.
    split; [exact Hin|]. split; [exact Hn|exact Hm].
  - intros d Hd. unfold emp, handleSubmit in Hd. cbn [Employee.customDeductions] in Hd.
    apply filter_In in Hd. destruct Hd as [Hin Hf]. apply andb_true_iff in Hf.
    destruct Hf as [Hn Hm]. apply truthy_spec in Hn. apply truthyNumber_spec in Hm.
    split; [exact Hin|]. split; [exact Hn|exact Hm].
Qed.

(** X19.  Editing a stored record keeps its identity: the record submitted
    from a form opened on a stored employee has the id of that employee, and
    saving it leaves the sequence of stored ids as it was (no record is added)
    and makes the submitted record the one shown. *)
Theorem X19_edit_keeps_identity
    (parseInt parseFloat : string -> number) (now : string)
    (st : State.t) (form : Form.t) (initial : Employee.t) :
  Form.initialData form = Some initial ->
  Employee.id initial <> "" ->
  In initial (State.employees st) ->
  let emp := handleSubmit parseInt parseFloat now form in
  let st' := fst (handleSaveEmployee st emp) in
  Employee.id emp = Employee.id initial
  /\ List.map Employee.id (State.employees st') = List.map Employee.id (State.employees st)
  /\ currentEmployee st' = Some emp.
Proof.
  intros Hinit Hid Hin emp st'.
  assert (He : Employee.id emp = Employee.id initial).
  { unfold emp, handleSubmit. cbn [Employee.id]. rewrite Hinit.
    rewrite (proj2 (truthy_spec _) Hid). reflexivity. }
  split; [exact He|]. split.
  - unfold st'.
    destruct (List.find (fun e => bool_decide (Employee.id e = Employee.id emp))
                        (State.employees st)) as [e0|] eqn:E.
    + rewrite (save_found st emp e0 E). apply replace_ids.
    + exfalso. pose proof (find_none _ _ E initial Hin) as Hn. cbv beta in Hn.
      rewrite He in Hn. rewrite bool_decide_eq_true_2 in Hn by reflexivity.
      discriminate Hn.
  - unfold currentEmployee. change (State.selectedEmployeeId st') with (Some (Employee.id emp)).
    cbv iota. rewrite He at 1. rewrite (proj2 (truthy_spec _) Hid). apply save_find.
Qed.

Lemma X19_edit_keeps_identity_witness :
  Form.initialData sampleForm = Some otherEmployee
  /\ Employee.id otherEmployee <> ""
  /\ In otherEmployee
        (State.employees (fst (handleSaveEmployee initialState otherEmployee)))
  /\ Employee.id (handleSubmit (fun _ => ofZ 31000) (fun _ => ofZ 0) "1700000000000"
                               sampleForm)
     = "2".
Proof.
  assert (H1 : Employee.id otherEmployee <> "") by discriminate.
  assert (H2 : In otherEmployee
                  (State.employees (fst (handleSaveEmployee initialState otherEmployee))))
    by (right; left; reflexivity).
  split; [reflexivity|]. split; [exact H1|]. split; [exact H2|].
  exact (proj1 (X19_edit_keeps_identity (fun _ => ofZ 31000) (fun _ => ofZ 0)
                  "1700000000000"
                  (fst (handleSaveEmployee initialState otherEmployee))
                  sampleForm otherEmployee eq_refl H1 H2)).
Defined.

(** X20.  Rows of custom allowances in the form: a row just added is blank
    and is dropped when the form is submitted; removing the id of a row just
    added under a new id gives the rows back; renaming or re-pricing a row
    keeps the number and the ids of the rows and leaves the rows of other ids
    untouched. *)
Theorem X20_allowance_rows (now id : string) (rows : list Allowance.t)
    (name : string) (amount : number) :
  List.filter (fun a => truthy (Allowance.name a) && truthyNumber (Allowance.amount a))
              (addAllowance now rows)
  = List.filter (fun a => truthy (Allowance.name a) && truthyNumber (Allowance.amount a))
                rows
  /\ (~ In now (List.map Allowance.id rows) ->
      removeAllowance now (addAllowance now rows) = rows)
  /\ List.map Allowance.id (updateAllowance id (SetName name) rows)
     = List.map Allowance.id rows
  /\ List.map Allowance.id (updateAllowance id (SetAmount amount) rows)
     = List.map Allowance.id rows
  /\ (forall field a, In a rows -> Allowance.id a <> id ->
        In a (updateAllowance id field rows))
  /\ (forall a, In a (removeAllowance id rows) <-> In a rows /\ Allowance.id a <> id).
Proof.
  split; [|split; [|split; [|split; [|split]]]].
  - unfold addAllowance. rewrite List.filter_app. cbn. apply app_nil_r.
  - intros Hn. unfold addAllowance, removeAllowance. rewrite List.filter_app.
    cbn [List.filter Allowance.id]. rewrite bool_decide_eq_true_2 by reflexivity.
    cbn [negb]. rewrite app_nil_r. apply forallb_filter_id. apply forallb_forall.
    intros a Ha. apply negb_true_iff, bool_decide_eq_false_2. intros Heq. apply Hn.
    rewrite <- Heq. apply in_map. exact Ha.
  - unfold updateAllowance. rewrite List.map_map. apply List.map_ext. intros a.
    destruct (bool_decide (Allowance.id a = id)); reflexivity.
  - unfold updateAllowance. rewrite List.map_map. apply List.map_ext. intros a.
    destruct (bool_decide (Allowance.id a = id)); reflexivity.
  - intros field a Ha Hne. unfold updateAllowance. apply in_map_iff. exists a.
    split; [|exact Ha]. rewrite bool_decide_eq_false_2 by exact Hne. reflexivity.
  - intros a. unfold removeAllowance. rewrite filter_In, negb_true_iff, bool_decide_eq_false.
    reflexivity.
Qed.

(** ** The payroll map in iteration order *)

Lemma mapSet_keys_present (entries : list (string * CalculatedPayroll)) (k : string)
    (v : CalculatedPayroll) :
  In k (List.map fst entries) ->
  List.map fst (mapSet entries k v) = List.map fst entries.
Proof.
  induction entries as [|[k' v'] rest IH]; cbn [mapSet List.map fst]; intros Hin.
  - destruct Hin.
  - destruct (bool_decide (k' = k)) eqn:E.
    + apply bool_decide_eq_true_1 in E. subst k'. reflexivity.
    + apply bool_decide_eq_false_1 in E. cbn [List.map fst]. f_equal. apply IH.
      destruct Hin as [H|H]; [contradiction|exact H].
Qed.

Lemma mapSet_fresh (entries : list (string * CalculatedPayroll)) (k : string)
    (v : CalculatedPayroll) :
  ~ In k (List.map fst entries) -> mapSet entries k v = entries ++ [(k, v)].
Proof.
  induction entries as [|[k' v'] rest IH]; cbn [mapSet List.map fst app]; intros Hn.
  - reflexivity.
  - rewrite bool_decide_eq_false_2 by (intros H; apply Hn; left; exact H).
    f_equal. apply IH. intros H. apply Hn. right. exact H.
Qed.

Lemma mapSet_keys_NoDup (entries : list (string * CalculatedPayroll)) (k : string)
    (v : CalculatedPayroll) :
  List.NoDup (List.map fst entries) -> List.NoDup (List.map fst (mapSet entries k v)).
Proof.
  intros Hnd. destruct (in_dec String.string_dec k (List.map fst entries)) as [Hin|Hn].
  - rewrite mapSet_keys_present by exact Hin. exact Hnd.
  - rewrite mapSet_fresh by exact Hn. rewrite List.map_app. cbn [List.map fst].
    apply List.NoDup_app; [exact Hnd| |].
    + apply List.NoDup_cons; [intros []|apply List.NoDup_nil].
    + intros x Hx [<-|[]]. contradiction.
Qed.

Lemma mapSet_to_map (entries : list (string * CalculatedPayroll)) (k : string)
    (v : CalculatedPayroll) :
  (list_to_map (mapSet entries k v) : gmap string CalculatedPayroll)
  = <[k := v]> (list_to_map entries).
Proof.
  induction entries as [|[k' v'] rest IH]; cbn [mapSet].
  - reflexivity.
  - destruct (bool_decide (k' = k)) eqn:E.
    + apply bool_decide_eq_true_1 in E. subst k'. cbn [list_to_map foldr fst snd].
      symmetry. apply insert_insert_eq.
    + apply bool_decide_eq_false_1 in E.
      change (list_to_map ((k', v') :: mapSet rest k v) : gmap string CalculatedPayroll)
        with (<[k' := v']> (list_to_map (mapSet rest k v) : gmap string CalculatedPayroll)).
      rewrite IH.
      change (list_to_map ((k', v') :: rest) : gmap string CalculatedPayroll)
        with (<[k' := v']> (list_to_map rest : gmap string CalculatedPayroll)).
      apply insert_insert_ne. exact E.
Qed.

Lemma fold_mapSet_to_map (l : list Employee.t)
    (entries : list (string * CalculatedPayroll)) :
  (list_to_map
     (fold_left (fun map emp => mapSet map (Employee.id emp) (computePayroll emp)) l entries)
   : gmap string CalculatedPayroll)
  = fold_left setPayroll l (list_to_map entries).
Proof.
  revert entries. induction l as [|e l IH]; intros entries; [reflexivity|].
  cbn [fold_left]. rewrite IH, mapSet_to_map. reflexivity.
Qed.

Lemma fold_mapSet_keys_NoDup (l : list Employee.t)
    (entries : list (string * CalculatedPayroll)) :
  List.NoDup (List.map fst entries) ->
  List.NoDup
    (List.map fst
       (fold_left (fun map emp => mapSet map (Employee.id emp) (computePayroll emp))
                  l entries)).
Proof.
  revert entries. induction l as [|e l IH]; intros entries H; [exact H|].
  cbn [fold_left]. apply IH, mapSet_keys_NoDup, H.
Qed.

Lemma fold_mapSet_distinct (l : list Employee.t)
    (entries : list (string * CalculatedPayroll)) :
  List.NoDup (List.map fst entries ++ List.map Employee.id l) ->
  fold_left (fun map emp => mapSet map (Employee.id emp) (computePayroll emp)) l entries
  = entries ++ List.map (fun e => (Employee.id e, computePayroll e)) l.
Proof.
  revert entries. induction l as [|e l IH]; intros entries H; cbn [fold_left List.map].
  - symmetry. apply app_nil_r.
  - cbn [List.map] in H. rewrite mapSet_fresh.
    + rewrite IH.
      * rewrite <- app_assoc. reflexivity.
      * rewrite List.map_app. cbn [List.map fst]. rewrite <- app_assoc. exact H.
    + apply List.NoDup_remove_2 in H. intros Hin. apply H. apply in_or_app. left. exact Hin.
Qed.

Lemma exportTotal_fold (field : CalculatedPayroll -> number)
    (m : gmap string CalculatedPayroll) (l : list Employee.t) (t : number) :
  (forall e, In e l -> exists p, m !! Employee.id e = Some p) ->
  exists r,
    fold_left
      (fun total emp =>
         match total, m !! Employee.id emp with
         | Some total, Some p => Some (add total (field p))
         | _, _ => None
         end) l (Some t) = Some r.
Proof.
  revert t. induction l as [|a l IH]; intros t H; cbn [fold_left].
  - exists t. reflexivity.
  - destruct (H a (or_introl eq_refl)) as (p & ->). apply IH.
    intros e He. apply H. right. exact He.
Qed.

Lemma exportTotal_fold_distinct (field : CalculatedPayroll -> number)
    (m : gmap string CalculatedPayroll) (l : list Employee.t) (t : number) :
  (forall e, In e l -> m !! Employee.id e = Some (computePayroll e)) ->
  fold_left
    (fun total emp =>
       match total, m !! Employee.id emp with
       | Some total, Some p => Some (add total (field p))
       | _, _ => None
       end) l (Some t)
  = Some (fold_left (fun sum e => add sum (field (computePayroll e))) l t).
Proof.
  revert t. induction l as [|a l IH]; intros t H; cbn [fold_left]; [reflexivity|].
  rewrite (H a (or_introl eq_refl)). apply IH. intros e He. apply H. right. exact He.
Qed.

(** X21.  The payroll map has one entry per id, in the order in which the ids
    first occur; it holds what the lookups return.  The totals of the export
    never meet a missing payroll, and when the ids are pairwise distinct the
    values of the map are the payrolls of the employees in their order, so
    each total of the dashboard is the corresponding total of the export. *)
Theorem X21_totals_agree (field : CalculatedPayroll -> number)
    (employees : list Employee.t) :
  List.NoDup (List.map fst (payrollEntries employees))
  /\ list_to_map (payrollEntries employees) = payrolls employees
  /\ (exists total, exportTotal field employees = Some total)
  /\ (List.NoDup (List.map Employee.id employees) ->
      List.map snd (payrollEntries employees) = List.map computePayroll employees
      /\ exportTotal field employees = Some (dashboardTotal field employees)).
Proof.
  split; [|split; [|split]].
  - apply fold_mapSet_keys_NoDup. apply List.NoDup_nil.
  - unfold payrollEntries. rewrite fold_mapSet_to_map, payrolls_fold. reflexivity.
  - apply exportTotal_fold. intros e He.
    destruct (payrolls_lookup_In employees e He) as (p & Hp & _). exists p. exact Hp.
  - intros Hnd.
    assert (Hv : List.map snd (payrollEntries employees)
                 = List.map computePayroll employees).
    { unfold payrollEntries. rewrite fold_mapSet_distinct by exact Hnd.
      cbn [app]. rewrite List.map_map. reflexivity. }
    split; [exact Hv|]. unfold exportTotal, dashboardTotal.
    rewrite exportTotal_fold_distinct
      by (intros e He; apply payrolls_lookup_NoDup; assumption).
    rewrite Hv. f_equal. clear Hv Hnd. generalize (ofZ 0).
    induction employees as [|a l IH]; intros t; [reflexivity|].
    cbn [List.map fold_left]. apply IH.
Qed.

Lemma X21_totals_agree_witness :
  List.NoDup (List.map Employee.id [sampleEmployee; otherEmployee])
  /\ exportTotal grossSalary [sampleEmployee; otherEmployee]
     = Some (dashboardTotal grossSalary [sampleEmployee; otherEmployee]).
Proof.
  assert (H : List.NoDup (List.map Employee.id [sampleEmployee; otherEmployee])).
  { apply List.NoDup_cons; [intros [H|[]]; discriminate H|].
    apply List.NoDup_cons; [intros []|apply List.NoDup_nil]. }
  split; [exact H|].
  exact (proj2 (proj2 (proj2 (proj2
           (X21_totals_agree grossSalary [sampleEmployee; otherEmployee]))) H)).
Defined.

(** ** Whole amounts: sums and differences without rounding *)

Lemma G_int (a : Z) : 0 <= a < 2 ^ 53 -> G (a * 2 ^ 2148) = a * 2 ^ 1074.
Proof.
  intros [H0 H53]. destruct (Z.eq_dec a 0) as [->|Hnz]; [rewrite !Z.mul_0_l; apply G_0|].
  destruct (Zdigits2_bounds a ltac:(lia)) as (Hd & Hlo & Hhi).
  assert (Hd53 : Zdigits2 a <= 53).
  { assert (Zdigits2 a - 1 < 53); [|lia]. apply pow2_lt_inv; [lia|]. lia. }
  unfold G. rewrite Zdigits2_shift by lia.
  replace (fexp64 (Zdigits2 a + 2148 - 2148)) with (Zdigits2 a - 53)
    by (unfold fexp64; lia).
  set (E := Zdigits2 a - 53).
  assert (HE : -52 <= E <= 0) by (unfold E; lia).
  replace (a * 2 ^ 2148) with ((a * 2 ^ (- E)) * 2 ^ (E + 2148)).
  2:{ rewrite <- Z.mul_assoc, <- pow2_add by lia. f_equal. f_equal. lia. }
  rewrite rne_exact by lia.
  rewrite <- Z.mul_assoc, <- pow2_add by lia.
  replace (- E + (E + 1074)) with 1074 by lia.
  apply Z.min_l, Z.lt_le_incl. apply Z.lt_trans with (2 ^ 53 * 2 ^ 1074).
  - apply Z.mul_lt_mono_pos_r; [apply pow2_pos; lia|exact H53].
  - rewrite <- pow2_add by lia. apply pow2_lt. lia.
Qed.

Lemma ofZ_whole (a : Z) :
  0 <= a < 2 ^ 53 ->
  nonneg_finite (ofZ a) = true /\ key (ofZ a) = a * 2 ^ 1074.
Proof.
  intros Ha. destruct (ofZ_key a ltac:(lia)) as [Hv Hk]. rewrite (G_int a Ha) in Hk.
  split; [|exact Hk]. apply nnv_key_lt_finite; [exact Hv|]. rewrite Hk.
  apply Z.lt_trans with (2 ^ 53 * 2 ^ 1074).
  - apply Z.mul_lt_mono_pos_r; [apply pow2_pos; lia|apply Ha].
  - rewrite <- pow2_add by lia. apply pow2_lt. lia.
Qed.

Lemma add_ofZ (a b : Z) :
  0 <= a -> 0 <= b -> a + b < 2 ^ 53 -> add (ofZ a) (ofZ b) = ofZ (a + b).
Proof.
  intros Ha Hb Hab.
  destruct (ofZ_whole a ltac:(lia)) as [Fa Ka].
  destruct (ofZ_whole b ltac:(lia)) as [Fb Kb].
  destruct (ofZ_whole (a + b) ltac:(lia)) as [Fs Ks].
  destruct (add_key (ofZ a) (ofZ b) Fa Fb) as [Hv Hk].
  apply key_inj; [exact Hv|apply nonneg_finite_nnv, Fs|].
  rewrite Hk, Ka, Kb, Ks, <- Z.mul_add_distr_r, <- Z.mul_assoc, <- pow2_add by lia.
  apply (G_int (a + b)). lia.
Qed.

Lemma sub_ofZ (a b : Z) :
  0 <= b <= a -> a < 2 ^ 53 -> sub (ofZ a) (ofZ b) = ofZ (a - b).
Proof.
  intros Hb Ha.
  destruct (ofZ_whole a ltac:(lia)) as [Fa Ka].
  destruct (ofZ_whole b ltac:(lia)) as [Fb Kb].
  destruct (ofZ_whole (a - b) ltac:(lia)) as [Fs Ks].
  destruct (max_zero_sub_key (ofZ a) (ofZ b) Fa Fb) as [Hv Hk].
  destruct (Z.eq_dec a b) as [->|Hne].
  - rewrite Z.sub_diag. clear - Fb. revert Fb. generalize (ofZ b). intros x Fx.
    destruct x as [[]|[]| |[] m e]; try discriminate Fx; [reflexivity|].
    unfold sub, SFsub. cbv zeta. unfold cond_Zopp. rewrite Z.sub_diag. reflexivity.
  - assert (Hlt : key (ofZ b) < key (ofZ a)).
    { rewrite Ka, Kb. apply Z.mul_lt_mono_pos_r; [apply pow2_pos; lia|lia]. }
    destruct (sub_key_pos (ofZ a) (ofZ b) Fa Fb Hlt) as [Hv' Hk'].
    apply key_inj; [exact Hv'|apply nonneg_finite_nnv, Fs|].
    rewrite Hk', Ka, Kb, Ks, <- Z.mul_sub_distr_r, <- Z.mul_assoc, <- pow2_add by lia.
    apply (G_int (a - b)). lia.
Qed.

Lemma sumZ_nonneg (zs : list Z) : Forall (fun z => 0 <= z) zs -> 0 <= sumZ zs.
Proof.
  induction 1 as [|z zs Hz _ IH]; cbn [sumZ fold_right]; [lia|].
  fold (sumZ zs). lia.
Qed.

Lemma fold_add_ofZ (zs : list Z) (t : Z) :
  0 <= t -> Forall (fun z => 0 <= z) zs -> t + sumZ zs < 2 ^ 53 ->
  fold_left add (List.map ofZ zs) (ofZ t) = ofZ (t + sumZ zs).
Proof.
  intros Ht Hzs. revert t Ht. induction Hzs as [|z zs Hz Hzs IH]; intros t Ht Hb.
  - cbn. rewrite Z.add_0_r. reflexivity.
  - cbn [List.map fold_left sumZ fold_right] in *. fold (sumZ zs) in *.
    pose proof (sumZ_nonneg zs Hzs) as Hs.
    rewrite add_ofZ by lia. rewrite IH by lia. f_equal. lia.
Qed.

Lemma calculateHealthInsurance_whole (s : number) (k : Z) :
  0 <= k ->
  exists n, calculateHealthInsurance s (ofZ k) = ofZ n /\ 443 <= n <= 19420.
Proof.
  intros Hk.
  assert (Hcap : calculateHealthInsurance s (ofZ k)
                 = calculateHealthInsurance s (ofZ (Z.min k 3))).
  { destruct (Z.le_gt_cases 3 k) as [H3|H3].
    - rewrite Z.min_r by lia. unfold calculateHealthInsurance. cbv zeta.
      rewrite (Math_min_count k H3), (Math_min_count 3 ltac:(lia)). reflexivity.
    - rewrite Z.min_l by lia. reflexivity. }
  rewrite Hcap.
  assert (Hcases : Z.min k 3 = 0 \/ Z.min k 3 = 1 \/ Z.min k 3 = 2 \/ Z.min k 3 = 3) by lia.
  destruct Hcases as [Hc|[Hc|[Hc|Hc]]]; rewrite Hc.
  - apply (premium_within HEALTH_TIERS
             (fun b => mul (healthShare b) (add (ofZ 1) (Math_min (ofZ 0) (ofZ 3)))));
      [discriminate|vm_compute; reflexivity].
  - apply (premium_within HEALTH_TIERS
             (fun b => mul (healthShare b) (add (ofZ 1) (Math_min (ofZ 1) (ofZ 3)))));
      [discriminate|vm_compute; reflexivity].
  - apply (premium_within HEALTH_TIERS
             (fun b => mul (healthShare b) (add (ofZ 1) (Math_min (ofZ 2) (ofZ 3)))));
      [discriminate|vm_compute; reflexivity].
  - apply (premium_within HEALTH_TIERS
             (fun b => mul (healthShare b) (add (ofZ 1) (Math_min (ofZ 3) (ofZ 3)))));
      [discriminate|vm_compute; reflexivity].
Qed.

(** X22.  On a record of whole non-negative amounts the aggregation is exact:
    given the overtime pay (itself a whole amount), the gross salary is the
    sum of the components, the deductions are the sum of the two premiums
    and of the custom deductions, and as long as the deductions do not exceed
    the gross salary the net pay is their difference and the company cost is
    the net pay plus the three employer contributions, with no rounding
    anywhere. *)
Theorem X22_whole_amounts_exact (emp : Employee.t)
    (base meal fuel bonus dependents ot : Z) (allowances deductions : list Z) :
  wholeRecord emp base meal fuel bonus dependents allowances deductions ->
  overtimePay (computePayroll emp) = ofZ ot -> 0 <= ot ->
  base + meal + fuel + bonus + sumZ allowances + ot < 2 ^ 52 ->
  sumZ deductions < 2 ^ 52 ->
  let p := computePayroll emp in
  let gross := base + meal + fuel + bonus + sumZ allowances + ot in
  exists labor health laborCo healthCo pension : Z,
    laborInsuranceEmp p = ofZ labor
    /\ healthInsuranceEmp p = ofZ health
    /\ laborInsuranceCo p = ofZ laborCo
    /\ healthInsuranceCo p = ofZ healthCo
    /\ pensionCompany p = ofZ pension
    /\ grossSalary p = ofZ gross
    /\ totalCustomDeductions p = ofZ (sumZ deductions)
    /\ totalDeductions p = ofZ (labor + health + sumZ deductions)
    /\ (labor + health + sumZ deductions <= gross ->
        netPay p = ofZ (gross - (labor + health + sumZ deductions))
        /\ totalCompanyCost p
           = ofZ (gross - (labor + health + sumZ deductions)
                  + laborCo + healthCo + pension)).
Proof.
  intros (Hb & Hm & Hf & Hg & Hd & Ha & Hdd & Pb & Pm & Pf & Pg & Pd & Pa & Pdd)
         Hot Pot Hbound Hdbound p gross.
  pose proof (sumZ_nonneg allowances Pa) as Sa.
  pose proof (sumZ_nonneg deductions Pdd) as Sd.
  assert (Hreg : add (add (add (Employee.baseSalary emp) (Employee.mealAllowance emp))
                          (Employee.fuelAllowance emp)) (Employee.attendanceBonus emp)
                 = ofZ (base + meal + fuel + bonus)).
  { rewrite Hb, Hm, Hf, Hg. rewrite !add_ofZ by lia. reflexivity. }
  assert (Hall : sumAllowances (Employee.customAllowances emp) = ofZ (sumZ allowances)).
  { rewrite sumAllowances_amounts, Ha.
    rewrite (fold_add_ofZ allowances 0) by (try assumption; lia). reflexivity. }
  assert (Hded : sumDeductions (Employee.customDeductions emp) = ofZ (sumZ deductions)).
  { rewrite sumDeductions_amounts, Hdd.
    rewrite (fold_add_ofZ deductions 0) by (try assumption; lia). reflexivity. }
  set (basis := if Employee.useBaseSalaryForInsurance emp then Employee.baseSalary emp
                else add (add (add (add (Employee.baseSalary emp)
                                        (Employee.mealAllowance emp))
                                   (Employee.fuelAllowance emp))
                              (Employee.attendanceBonus emp))
                         (sumAllowances (Employee.customAllowances emp))).
  set (pbasis := if useBaseSalaryForPension || Employee.useBaseSalaryForInsurance emp
                 then Employee.baseSalary emp
                 else add (add (add (add (Employee.baseSalary emp)
                                         (Employee.mealAllowance emp))
                                    (Employee.fuelAllowance emp))
                               (Employee.attendanceBonus emp))
                          (sumAllowances (Employee.customAllowances emp))).
  destruct (premium_within LABOR_TIERS laborShare 278 1145 basis)
    as (labor & HL & RL); [discriminate|vm_compute; reflexivity|].
  destruct (premium_within LABOR_TIERS laborShareEmployer 971 4007 basis)
    as (laborCo & HLc & RLc); [discriminate|vm_compute; reflexivity|].
  destruct (premium_within HEALTH_TIERS healthShareEmployer 1401 15341 basis)
    as (healthCo & HHc & RHc); [discriminate|vm_compute; reflexivity|].
  destruct (premium_within PENSION_TIERS pensionShare 90 9000 pbasis)
    as (pension & HP & RP); [discriminate|vm_compute; reflexivity|].
  destruct (calculateHealthInsurance_whole basis dependents Pd) as (health & HH & RH).
  exists labor, health, laborCo, healthCo, pension.
  assert (E1 : laborInsuranceEmp p = ofZ labor) by exact HL.
  assert (E2 : healthInsuranceEmp p = ofZ health).
  { unfold p, computePayroll. cbv zeta. cbn [healthInsuranceEmp]. rewrite Hd. exact HH. }
  assert (E3 : laborInsuranceCo p = ofZ laborCo) by exact HLc.
  assert (E4 : healthInsuranceCo p = ofZ healthCo) by exact HHc.
  assert (E5 : pensionCompany p = ofZ pension) by exact HP.
  assert (E6 : grossSalary p = ofZ gross).
  { change (grossSalary p)
      with (add (add (add (add (add (Employee.baseSalary emp) (Employee.mealAllowance emp))
                               (Employee.fuelAllowance emp))
                          (Employee.attendanceBonus emp))
                     (sumAllowances (Employee.customAllowances emp)))
                (overtimePay p)).
    unfold p at 1. rewrite Hot, Hreg, Hall. rewrite !add_ofZ by lia. reflexivity. }
  assert (E7 : totalCustomDeductions p = ofZ (sumZ deductions)) by exact Hded.
  assert (E8 : totalDeductions p = ofZ (labor + health + sumZ deductions)).
  { change (totalDeductions p)
      with (add (add (laborInsuranceEmp p) (healthInsuranceEmp p))
                (totalCustomDeductions p)).
    rewrite E1, E2, E7. rewrite !add_ofZ by lia. reflexivity. }
  repeat (split; [assumption|]).
  intros Hle.
  assert (E9 : netPay p = ofZ (gross - (labor + health + sumZ deductions))).
  { change (netPay p) with (sub (grossSalary p) (totalDeductions p)).
    rewrite E6, E8. apply sub_ofZ; unfold gross in *; lia. }
  split; [exact E9|].
  change (totalCompanyCost p)
    with (add (add (add (netPay p) (laborInsuranceCo p)) (healthInsuranceCo p))
              (pensionCompany p)).
  rewrite E9, E3, E4, E5. unfold gross in *. rewrite !add_ofZ by lia. reflexivity.
Qed.

Lemma X22_whole_amounts_exact_witness :
  wholeRecord sampleEmployee 60000 3000 1000 2000 0 [5000] []
  /\ overtimePay (computePayroll sampleEmployee) = ofZ 1192
  /\ grossSalary (computePayroll sampleEmployee) = ofZ 72192.
Proof.
  assert (H1 : wholeRecord sampleEmployee 60000 3000 1000 2000 0 [5000] []).
  { unfold wholeRecord. repeat split; try reflexivity; try lia.
    - constructor; [lia|constructor].
    - constructor. }
  assert (H2 : overtimePay (computePayroll sampleEmployee) = ofZ 1192)
    by (vm_compute; reflexivity).
  split; [exact H1|]. split; [exact H2|].
  destruct (X22_whole_amounts_exact sampleEmployee 60000 3000 1000 2000 0 1192 [5000] []
              H1 H2 ltac:(lia) ltac:(vm_compute; reflexivity) ltac:(vm_compute; reflexivity))
    as (labor & health & laborCo & healthCo & pension & _ & _ & _ & _ & _ & H & _).
  exact H.
Defined.


(** ** The overtime pay is a whole amount *)

Lemma overtimeTotal_nnv (rate w r h : number) :
  nonneg_finite rate = true -> nonneg_finite w = true ->
  nonneg_finite r = true -> nonneg_finite h = true ->
  nnv (overtimeTotal rate w r h) = true.
Proof.
  intros Frate Fw Fr Fh. rewrite overtimeTotal_steps.
  assert (B0 : below (ofZ 0) (ofZ 0)) by (apply below_refl; reflexivity).
  pose proof (tieredStep_below rate w w _ _ Frate Fw Fw (Z.le_refl _) B0) as B1.
  pose proof (tieredStep_below rate r r _ _ Frate Fr Fr (Z.le_refl _) B1) as B2.
  pose proof (holidayStep_below rate h h _ _ Frate Fh Fh (Z.le_refl _) B2) as B3.
  apply B3.
Qed.

Lemma Math_ceil_whole (x : number) :
  nonneg_finite x = true ->
  exists n, 0 <= n /\ Math_ceil x = ofZ n.
Proof.
  intros Fx. destruct (ceil_key x Fx) as [Hv Hk].
  assert (Hn : 0 <= cdiv (key x) (2 ^ 1074))
    by (apply cdiv_nonneg; [apply pow2_pos; lia|apply key_nonneg]).
  exists (cdiv (key x) (2 ^ 1074)). split; [exact Hn|].
  destruct (ofZ_key _ Hn) as [Hv' Hk'].
  apply key_inj; [exact Hv|exact Hv'|]. rewrite Hk, Hk'. reflexivity.
Qed.

(** X25.  For a finite non-negative regular salary and finite non-negative
    hours the overtime pay is never NaN, negative or fractional: it is a
    non-negative whole number, or plus infinity when the total overflows. *)
Theorem X25_overtime_pay_whole (regularSalary w r h : number) :
  nonneg_finite regularSalary = true ->
  nonneg_finite w = true -> nonneg_finite r = true -> nonneg_finite h = true ->
  calculateOvertimePay regularSalary w r h = S754_infinity false
  \/ exists n, 0 <= n /\ calculateOvertimePay regularSalary w r h = ofZ n.
Proof.
  intros Fs Fw Fr Fh. unfold calculateOvertimePay. cbv zeta.
  pose proof (overtimeTotal_nnv _ w r h (rate_nonneg_finite regularSalary Fs) Fw Fr Fh)
    as Hv.
  destruct (nnv_cases _ Hv) as [Hfin|Hinf].
  - right. apply Math_ceil_whole. exact Hfin.
  - left. rewrite Hinf. reflexivity.
Qed.

Lemma X25_overtime_pay_whole_witness :
  nonneg_finite (ofZ 30000) = true /\ nonneg_finite (ofZ 13) = true
  /\ nonneg_finite (ofZ 0) = true
  /\ (calculateOvertimePay (ofZ 30000) (ofZ 13) (ofZ 0) (ofZ 0) = S754_infinity false
      \/ exists n, 0 <= n /\ calculateOvertimePay (ofZ 30000) (ofZ 13) (ofZ 0) (ofZ 0) = ofZ n).
Proof.
  split; [reflexivity|]. split; [reflexivity|]. split; [reflexivity|].
  apply (X25_overtime_pay_whole (ofZ 30000) (ofZ 13) (ofZ 0) (ofZ 0)); reflexivity.
Defined.

(** ** Half steps are exact *)

Lemma G_dyadic (a j : Z) :
  0 <= a < 2 ^ 53 -> 1074 <= j <= 2148 -> G (a * 2 ^ j) = a * 2 ^ (j - 1074).
Proof.
  intros [H0 H53] Hj. destruct (Z.eq_dec a 0) as [->|Hnz]; [rewrite !Z.mul_0_l; apply G_0|].
  destruct (Zdigits2_bounds a ltac:(lia)) as (Hd & Hlo & Hhi).
  assert (Hd53 : Zdigits2 a <= 53).
  { assert (Zdigits2 a - 1 < 53); [|lia]. apply pow2_lt_inv; [lia|]. lia. }
  unfold G. rewrite Zdigits2_shift by lia.
  set (E := fexp64 (Zdigits2 a + j - 2148)).
  assert (HE : -1074 <= E <= j - 2148) by (unfold E, fexp64; lia).
  replace (a * 2 ^ j) with ((a * 2 ^ (j - 2148 - E)) * 2 ^ (E + 2148)).
  2:{ rewrite <- Z.mul_assoc, <- pow2_add by lia. f_equal. f_equal. lia. }
  rewrite rne_exact by lia.
  rewrite <- Z.mul_assoc, <- pow2_add by lia.
  replace (j - 2148 - E + (E + 1074)) with (j - 1074) by lia.
  apply Z.min_l, Z.lt_le_incl. apply Z.lt_le_trans with (2 ^ 53 * 2 ^ (j - 1074)).
  - apply Z.mul_lt_mono_pos_r; [apply pow2_pos; lia|exact H53].
  - rewrite <- pow2_add by lia. apply pow2_le. lia.
Qed.

Lemma halves_key (k : Z) :
  0 <= k < 2 ^ 53 ->
  nonneg_finite (halves k) = true /\ key (halves k) = k * 2 ^ 1073.
Proof.
  intros Hk. assert (Hv : nnv (halves k) = true /\ key (halves k) = k * 2 ^ 1073).
  { destruct k as [|p|p]; [split; reflexivity| |lia].
    unfold halves. cbn [binary_normalize].
    destruct (binary_round_key p (-1) ltac:(lia)) as [Hv Hkey]. split; [exact Hv|].
    rewrite Hkey. change (-1 + 2148) with 2147. rewrite (G_dyadic (Zpos p) 2147) by lia.
    reflexivity. }
  destruct Hv as [Hv Hkey]. split; [|exact Hkey].
  apply nnv_key_lt_finite; [exact Hv|]. rewrite Hkey.
  apply Z.lt_trans with (2 ^ 53 * 2 ^ 1073).
  - apply Z.mul_lt_mono_pos_r; [apply pow2_pos; lia|apply Hk].
  - rewrite <- pow2_add by lia. apply pow2_lt. lia.
Qed.

Lemma halves_step (k : Z) :
  0 <= k -> k + 1 < 2 ^ 53 -> add (halves k) (dec 5 10) = halves (k + 1).
Proof.
  intros H0 Hk. change (dec 5 10) with (halves 1).
  destruct (halves_key k ltac:(lia)) as [Fk Kk].
  destruct (halves_key 1 ltac:(lia)) as [F1 K1].
  destruct (halves_key (k + 1) ltac:(lia)) as [Fs Ks].
  destruct (add_key (halves k) (halves 1) Fk F1) as [Hv Hkey].
  apply key_inj; [exact Hv|apply nonneg_finite_nnv, Fs|].
  rewrite Hkey, Kk, K1, Ks, <- Z.mul_add_distr_r, <- Z.mul_assoc, <- pow2_add by lia.
  change (1073 + 1074) with 2147. rewrite (G_dyadic (k + 1) 2147) by lia. reflexivity.
Qed.

Lemma halves_le (k n : Z) :
  0 <= k < 2 ^ 53 -> 0 <= n < 2 ^ 53 -> le (halves k) (ofZ n) = (k <=? 2 * n).
Proof.
  intros Hk Hn. destruct (halves_key k Hk) as [Fk Kk].
  destruct (ofZ_whole n Hn) as [Fn Kn].
  rewrite le_key by (apply nonneg_finite_nnv; assumption). rewrite Kk, Kn.
  replace (n * 2 ^ 1074) with ((2 * n) * 2 ^ 1073).
  2:{ change 1074 with (1 + 1073). rewrite pow2_add by lia.
      change (2 ^ 1) with 2. generalize (2 ^ 1073). intros u. ring. }
  pose proof (pow2_pos 1073 ltac:(lia)) as HP.
  destruct (Z.leb_spec k (2 * n)) as [H|H].
  - apply Z.leb_le. apply Z.mul_le_mono_nonneg_r; [apply Z.lt_le_incl, HP|exact H].
  - apply Z.leb_gt. apply Z.mul_lt_mono_pos_r; [exact HP|exact H].
Qed.

Lemma hourOptionsFrom_halves (n : Z) (steps : nat) (k : Z) (fuel : nat) :
  0 <= n < 2 ^ 51 -> 0 <= k -> k + Z.of_nat steps = 2 * n + 1 ->
  (steps < fuel)%nat ->
  hourOptionsFrom fuel (halves k) (ofZ n)
  = Some (List.map (fun j => halves (k + Z.of_nat j)) (seq 0 steps)).
Proof.
  intros Hn. revert k fuel.
  assert (H51 : 2 ^ 51 * 4 = 2 ^ 53) by reflexivity.
  induction steps as [|steps IH]; intros k fuel Hk Hsum Hfuel.
  - destruct fuel as [|fuel]; [lia|]. cbn [hourOptionsFrom seq List.map].
    rewrite halves_le by lia. rewrite (proj2 (Z.leb_gt _ _)) by lia. reflexivity.
  - destruct fuel as [|fuel]; [lia|]. cbn [hourOptionsFrom].
    rewrite halves_le by lia. rewrite (proj2 (Z.leb_le _ _)) by lia.
    rewrite halves_step by lia. rewrite (IH (k + 1) fuel) by lia.
    cbn [option_map seq List.map]. rewrite Z.add_0_r. f_equal. f_equal.
    rewrite <- seq_shift, List.map_map. apply List.map_ext. intros j.
    f_equal. lia.
Qed.

(** X27.  For a whole number of hours [n] the option list stops and is exactly
    0, 0.5, 1, ..., n: once the bound on the loop exceeds [2 n + 1] tests the
    result is the list of the [2 n + 1] half steps, each the exact double
    [k / 2], with no drift from the repeated addition of 0.5. *)
Theorem X27_hour_options (n : Z) (fuel : nat) :
  0 <= n < 2 ^ 51 -> (Z.to_nat (2 * n + 1) < fuel)%nat ->
  generateHourOptions fuel (ofZ n)
  = Some (List.map (fun j => halves (Z.of_nat j)) (seq 0 (Z.to_nat (2 * n + 1)))).
Proof.
  intros Hn Hfuel. unfold generateHourOptions. change (ofZ 0) with (halves 0).
  rewrite (hourOptionsFrom_halves n (Z.to_nat (2 * n + 1)) 0 fuel); try lia.
  reflexivity.
Qed.

Lemma X27_hour_options_witness :
  0 <= 4 < 2 ^ 51 /\ (Z.to_nat (2 * 4 + 1) < 10)%nat
  /\ generateHourOptions 10 (ofZ 4)
     = Some (List.map (fun j => halves (Z.of_nat j)) (seq 0 9)).
Proof.
  assert (H1 : 0 <= 4 < 2 ^ 51) by (split; [lia|reflexivity]).
  assert (H2 : (Z.to_nat (2 * 4 + 1) < 10)%nat) by (cbn; lia).
  split; [exact H1|]. split; [exact H2|].
  exact (X27_hour_options 4 10 H1 H2).
Defined.
